(** * G2 view pipeline: scale definitions, scale pool, coordinate queries

    A shallow embedding of the parts of [src/visual/scale/index.ts]
    (classes [ScaleDef] and [View]) and of [util/coordinate.ts]
    ([isFullCircle], [isPointInCoordinate]) that the specification of the
    view rendering pipeline talks about, together with the theorems that
    settle each sentence of the specification against the code.

    Conventions of the embedding.
    - JavaScript numbers are idealised as exact rationals ([Q]); [===] on
      numbers is [Qeq_bool].  [Math.PI] is the rational value of the
      IEEE double the language defines it to be.
    - [undefined] results of property reads are [None] (or [JUndefined]
      inside a value tree); JavaScript truthiness is written out.
    - A method that can throw returns an [Outcome]; a method that mutates
      [this] takes the receiver's state and returns the new one.
    - Objects used as dictionaries are [gmap string _]. *)

From Stdlib Require Import Ascii QArith Qminmax Qfield Lqa.
From stdpp Require Import base option list strings gmap fin_maps.

#[local] Set Warnings "-register-all,-clear-no-such-hyp".

Local Open Scope string_scope.

(** ** Outcomes of calls that may throw *)

Inductive Outcome (A : Type) : Type :=
| Ok (a : A)
| Throw (message : string).
Arguments Ok {A} a.
Arguments Throw {A} message.

#[global] Instance Outcome_ret : MRet Outcome := fun A a => Ok a.
#[global] Instance Outcome_bind : MBind Outcome := fun A B k o =>
  match o with
  | Ok a => k a
  | Throw m => Throw m
  end.

(** ** JavaScript values (tree shaped, no sharing) *)

Inductive JsVal : Type :=
| JUndefined
| JNull
| JBool (b : bool)
| JNum (q : Q)
| JStr (s : string)
| JFun (name : string)
| JArr (items : list JsVal)
| JObj (props : list (string * JsVal)).

(** [ToBoolean]: what [if (v)], [!v] and [v ? a : b] look at. *)
Definition truthy (v : JsVal) : bool :=
  match v with
  | JUndefined | JNull => false
  | JBool b => b
  | JNum q => negb (Qeq_bool q 0)
  | JStr s => negb (String.eqb s "")
  | JFun _ | JArr _ | JObj _ => true
  end.

(** ** [View.filterData] *)

Module Filter.

(** A row of the data array: [Record<string, any>]. *)
Abbreviation Datum := (gmap string JsVal).

(** [datum[field]] *)
Definition prop (datum : Datum) (field : string) : JsVal :=
  default JUndefined (datum !! field).

(** [FilterCondition = (value: any, datum: Datum) => boolean] *)
Abbreviation FilterCondition := (JsVal → Datum → bool).

(** [Object.keys(filters)] *)
Definition keys (filters : gmap string FilterCondition) : list string :=
  (map_to_list filters).*1.

(** [const condition = filters[field]; return condition(datum[field], datum);]
    Calling [undefined] is a [TypeError]. *)
Definition callCondition (filters : gmap string FilterCondition)
    (datum : Datum) (field : string) : Outcome bool :=
  match filters !! field with
  | Some condition => Ok (condition (prop datum field) datum)
  | None => Throw "TypeError: condition is not a function"
  end.

(** [Array.prototype.every]: stops at the first falsy answer. *)
Fixpoint every (p : string → Outcome bool) (fields : list string) : Outcome bool :=
  match fields with
  | [] => Ok true
  | field :: rest =>
      b ← p field ;
      if b : bool then every p rest else Ok false
  end.

(** [@antv/util filter(arr, func)]: the elements for which [func] is
    truthy, pushed in index order. *)
Fixpoint filterArr (func : Datum → Outcome bool) (arr : list Datum)
  : Outcome (list Datum) :=
  match arr with
  | [] => Ok []
  | value :: rest =>
      b ← func value ;
      result ← filterArr func rest ;
      Ok (if b : bool then value :: result else result)
  end.

(** [View.filterData(data)], with [this.options.filters] as argument. *)
Definition filterData (filters : gmap string FilterCondition)
    (data : list Datum) : Outcome (list Datum) :=
  if Nat.eqb (size filters) 0 then Ok data
  else filterArr (fun datum => every (callCondition filters datum) (keys filters)) data.

(** A row passes when every configured predicate accepts it. *)
Definition passes (filters : gmap string FilterCondition) (datum : Datum) : Prop :=
  map_Forall (fun field condition => condition (prop datum field) datum = true) filters.

#[global] Instance passes_dec filters datum : Decision (passes filters datum).
Proof. unfold passes. apply map_Forall_dec. intros. solve_decision. Defined.

(** The rows of the chart of the data-filter test, and the filter a
    legend click installs on [year]. *)
Definition row (year : string) (value_ : Q) : Datum :=
  <["year" := JStr year]> (<["value" := JNum value_]> ∅).

Definition sampleData : list Datum :=
  [row "1991" 13; row "1992" 34; row "1993" 5; row "1994" 34].

Definition not1991 : FilterCondition :=
  fun value_ _ =>
    match value_ with
    | JStr year => negb (String.eqb year "1991")
    | _ => true
    end.

End Filter.

(** ** [@antv/util]: [get] and [set] on option trees

    The library is an external dependency; these follow its published
    source.  Only own properties of plain objects are modelled: reading a
    property of anything else (a function, an array, a primitive) under
    an option name gives [undefined], and writing one to it is not
    recorded. *)

Module Util.

Fixpoint lookupProp (props : list (string * JsVal)) (key : string) : JsVal :=
  match props with
  | [] => JUndefined
  | (k, v) :: rest => if String.eqb k key then v else lookupProp rest key
  end.

(** [obj[key]] *)
Definition getProp (obj : JsVal) (key : string) : JsVal :=
  match obj with
  | JObj props => lookupProp props key
  | _ => JUndefined
  end.

Fixpoint assignProp (props : list (string * JsVal)) (key : string) (value : JsVal)
  : list (string * JsVal) :=
  match props with
  | [] => [(key, value)]
  | (k, v) :: rest =>
      if String.eqb k key then (k, value) :: rest
      else (k, v) :: assignProp rest key value
  end.

(** [obj[key] = value] *)
Definition setProp (obj : JsVal) (key : string) (value : JsVal) : JsVal :=
  match obj with
  | JObj props => JObj (assignProp props key value)
  | other => other
  end.

(** [path.split('.')] *)
Fixpoint splitDot (acc : string) (path : string) : list string :=
  match path with
  | EmptyString => [acc]
  | String c rest =>
      if Ascii.eqb c "."%char then acc :: splitDot "" rest
      else splitDot (acc ++ String c "") rest
  end.

(** [while (obj && p < keyArr.length) obj = obj[keyArr[p++]];]
    The boolean tells whether the loop ran through all of [keyArr]. *)
Fixpoint getLoop (obj : JsVal) (keyArr : list string) : JsVal * bool :=
  match keyArr with
  | [] => (obj, true)
  | key :: rest => if truthy obj then getLoop (getProp obj key) rest else (obj, false)
  end.

(** [get(obj, keyArr, defaultValue)]:
    [return (obj === undefined || p < keyArr.length) ? defaultValue : obj;] *)
Definition get (obj : JsVal) (keyArr : list string) (defaultValue : JsVal) : JsVal :=
  match getLoop obj keyArr with
  | (JUndefined, _) => defaultValue
  | (_, false) => defaultValue
  | (found, true) => found
  end.

(** [isObject(value)]: objects, arrays and functions. *)
Definition isObject (v : JsVal) : bool :=
  match v with
  | JObj _ | JArr _ | JFun _ => true
  | _ => false
  end.

(** [set(obj, keyArr, value)]: creates the intermediate objects. *)
Fixpoint set (obj : JsVal) (keyArr : list string) (value : JsVal) : JsVal :=
  match keyArr with
  | [] => obj
  | [key] => setProp obj key value
  | key :: rest =>
      let child := getProp obj key in
      let child := if isObject child then child else JObj [] in
      setProp obj key (set child rest value)
  end.

End Util.

(** ** [util/coordinate.ts] *)

Module Coord.

Record Point : Type := { x : Q; y : Q }.

(** The attributes of an [@antv/coord] instance that the queries read.
    [end] is a keyword here, hence [end_]. *)
Record Coordinate : Type := {
  type : string;
  isPolar : bool;
  isTransposed : bool;
  startAngle : Q;
  endAngle : Q;
  start : Point;
  end_ : Point;
  invert : Point → Point;
}.

(** [Math.PI], the double 0x400921FB54442D18, as the rational it denotes. *)
Definition Math_PI : Q := 884279719003555 # 281474976710656.

(** Modelled from the spec: [isBetween] of [util/helper.ts], which is not
    among the sources.  Section 4.4 describes its two uses as "an
    axis-aligned bounds check against stored start/end pixel corners"
    and "check both coordinates lie in [0,1]": the value lies between the
    two bounds, whichever of them is the smaller, bounds included. *)
Definition isBetween (value start_ end_ : Q) : bool :=
  Qle_bool (Qmin start_ end_) value && Qle_bool value (Qmax start_ end_).

(** [isFullCircle(coordinate)] *)
Definition isFullCircle (coordinate : Coordinate) : bool :=
  if isPolar coordinate then
    Qeq_bool (endAngle coordinate - startAngle coordinate) (Math_PI * 2)
  else false.

(** [isPointInCoordinate(coordinate, point)]; [None] is a coordinate that
    is [undefined] or [null]. *)
Definition isPointInCoordinate (coordinate : option Coordinate) (point : Point) : bool :=
  let result := false in
  match coordinate with
  | Some coordinate =>
      if String.eqb (type coordinate) "theta" then
        isBetween (x point) (x (start coordinate)) (x (end_ coordinate))
        && isBetween (y point) (y (start coordinate)) (y (end_ coordinate))
      else
        let invertPoint := invert coordinate point in
        isBetween (x invertPoint) 0 1 && isBetween (y invertPoint) 0 1
  | None => result
  end.

(** The rectangular coordinate of [@antv/coord] (an external library) over
    the pixel box from [start] to [end], without transposition or matrix:
    [invert] maps each axis by [(value - start) / (end - start)]. *)
Definition rect (start_ end_ : Point) : Coordinate := {|
  type := "rect";
  isPolar := false;
  isTransposed := false;
  startAngle := 0;
  endAngle := Math_PI * 2;
  start := start_;
  end_ := end_;
  invert := fun point =>
    {| x := (x point - x start_) / (x end_ - x start_);
       y := (y point - y start_) / (y end_ - y start_) |};
|}.

End Coord.

(** ** The scale pool

    Modelled from the spec: [ScalePool] of [chart/util/scale-pool.ts],
    which is not among the sources.  Section 4.1: "[createScale(field,
    data, scaleDef, key) -> Scale].  If an entry for [key] exists, updates
    it in place with the merged definition [...] and returns the same
    instance; otherwise constructs a new Scale Definition Wrapper,
    registers it, and returns it.  [getScale(key) -> Scale | undefined].
    [...] [clear()]: drops all entries". *)

Module ScalePool.

(** A scale instance: [oid] is the identity of the object (two references
    denote the same instance exactly when their [oid]s agree), the other
    fields are what it was built or last updated from. *)
Record Scale : Type := {
  oid : nat;
  field : string;
  data : list (gmap string JsVal);
  scaleDef : list (string * JsVal);
}.

(** The pool's table, from key to instance. *)
Abbreviation t := (gmap string Scale).

(** [createScale]; [fresh] is the identity the next [new] object gets.
    Returns the instance, the pool and the next free identity. *)
Definition createScale (field_ : string) (data_ : list (gmap string JsVal))
    (scaleDef_ : list (string * JsVal)) (key : string)
    (pool : t) (fresh : nat) : Scale * t * nat :=
  match pool !! key with
  | Some existing =>
      let updated := {| oid := oid existing; field := field existing;
                        data := data existing; scaleDef := scaleDef_ |} in
      (updated, <[key := updated]> pool, fresh)
  | None =>
      let created := {| oid := fresh; field := field_;
                        data := data_; scaleDef := scaleDef_ |} in
      (created, <[key := created]> pool, S fresh)
  end.

Definition getScale (key : string) (pool : t) : option Scale := pool !! key.

Definition clear (pool : t) : t := ∅.

End ScalePool.

(** ** [View]: life cycle, configuration and plot events *)

Module View.
Import Coord.

(** What the view reads from a [Geometry] (an external collaborator). *)
Record Geometry : Type := {
  scaleFields : list string;
  groupFields : list string;
}.

(** Modelled from the spec: [Facet] of [facet/], which is not among the
    sources.  The view only constructs a facet from its configuration and
    calls [destroy()] on it; section 4.5 calls [destroy()] terminal, so an
    instance records whether it has been destroyed. *)
Record Facet : Type := {
  facetCfg : JsVal;
  destroyed : bool;
}.

Definition Facet_destroy (f : Facet) : Facet :=
  {| facetCfg := facetCfg f; destroyed := true |}.

(** [new Ctor(view, cfg)] *)
Definition Facet_new (cfg : JsVal) : Facet :=
  {| facetCfg := cfg; destroyed := false |}.

(** One call of [emit(name, e)]: the name and the [type] the event object
    carries at that moment ([None] for the life-cycle events, which are
    emitted without an event object). *)
Record Emission : Type := {
  emittedName : string;
  emittedType : option string;
}.

(** The state of a view object.  [emitted] is the log of its [emit]
    calls, oldest first; no listener is modelled. *)
Inductive View : Type := mkView {
  id : string;
  options : JsVal;
  filteredData : option (list (gmap string JsVal));
  scalePool : ScalePool.t;
  coordinateController : JsVal;
  coordinateInstance : option Coordinate;
  facetInstance : option Facet;
  isPreMouseInPlot : bool;
  tooltipLocked : option bool;
  geometries : list Geometry;
  views : list View;
  emitted : list Emission;
}.

Definition withOptions (o : JsVal) (v : View) : View :=
  mkView (id v) o (filteredData v) (scalePool v) (coordinateController v)
         (coordinateInstance v)
         (facetInstance v) (isPreMouseInPlot v) (tooltipLocked v)
         (geometries v) (views v) (emitted v).

Definition withFacetInstance (f : option Facet) (v : View) : View :=
  mkView (id v) (options v) (filteredData v) (scalePool v) (coordinateController v)
         (coordinateInstance v)
         f (isPreMouseInPlot v) (tooltipLocked v)
         (geometries v) (views v) (emitted v).

Definition withIsPreMouseInPlot (b : bool) (v : View) : View :=
  mkView (id v) (options v) (filteredData v) (scalePool v) (coordinateController v)
         (coordinateInstance v)
         (facetInstance v) b (tooltipLocked v)
         (geometries v) (views v) (emitted v).

Definition withTooltipLocked (b : bool) (v : View) : View :=
  mkView (id v) (options v) (filteredData v) (scalePool v) (coordinateController v)
         (coordinateInstance v)
         (facetInstance v) (isPreMouseInPlot v) (Some b)
         (geometries v) (views v) (emitted v).

(** [this.emit(name, e)] *)
Definition emit (name : string) (type_ : option string) (v : View) : View :=
  mkView (id v) (options v) (filteredData v) (scalePool v) (coordinateController v)
         (coordinateInstance v)
         (facetInstance v) (isPreMouseInPlot v) (tooltipLocked v)
         (geometries v) (views v)
         (emitted v ++ [{| emittedName := name; emittedType := type_ |}]).

(** [{ ...a, ...b }] on property lists. *)
Definition spread (a b : list (string * JsVal)) : list (string * JsVal) :=
  foldl (fun acc kv => Util.assignProp acc kv.1 kv.2) a b.

(** The constructor: the field initialisers of the class, then
    [this.options = { ...this.options, ...options }] and [init()].
    [geometries_] and [views_] are what [initOptions] creates from
    [options.geometries] and [options.views]. *)
Definition construct (id_ : string) (options_ : list (string * JsVal))
    (geometries_ : list Geometry) (views_ : list View) : View :=
  {| id := id_;
     options := JObj (spread [("data", JArr []); ("animate", JBool true)] options_);
     filteredData := None;
     scalePool := ∅;
     coordinateController := Util.getProp (JObj options_) "coordinate";
     coordinateInstance := None;
     facetInstance := None;
     isPreMouseInPlot := false;
     tooltipLocked := None;
     geometries := geometries_;
     views := views_;
     emitted := [] |}.

(** Members of [VIEW_LIFE_CIRCLE] ([constant.ts] is not among the
    sources): the event name is the member's name. *)
Definition BEFORE_CLEAR : string := "VIEW_LIFE_CIRCLE.BEFORE_CLEAR".
Definition AFTER_CLEAR : string := "VIEW_LIFE_CIRCLE.AFTER_CLEAR".

(** [clear()].  [geometry.clear()] and [controller.clear()] act on the
    collaborators' own state. *)
Fixpoint clear (v : View) : View :=
  match v with
  | mkView id_ options_ _ pool controller _ facet_ pre locked _ views_ emitted_ =>
      mkView id_ options_ (Some []) (ScalePool.clear pool) controller None facet_ pre locked
             [] (List.map clear views_)
             (emitted_ ++ [{| emittedName := BEFORE_CLEAR; emittedType := None |};
                           {| emittedName := AFTER_CLEAR; emittedType := None |}])
  end.

Definition withCoordinateController (c : JsVal) (v : View) : View :=
  mkView (id v) (options v) (filteredData v) (scalePool v) c
         (coordinateInstance v)
         (facetInstance v) (isPreMouseInPlot v) (tooltipLocked v)
         (geometries v) (views v) (emitted v).

(** [set(this.options, path, value)] *)
Definition setOption (path : list string) (value : JsVal) (v : View) : View :=
  withOptions (Util.set (options v) path value) v.

(** [data(data)] *)
Definition data (data_ : JsVal) (v : View) : View := setOption ["data"] data_ v.

Fixpoint removeProp (props : list (string * JsVal)) (key : string) : list (string * JsVal) :=
  match props with
  | [] => []
  | (k, x) :: rest => if String.eqb k key then rest else (k, x) :: removeProp rest key
  end.

(** [delete this.options.filters[field]] *)
Definition deleteFilter (field : string) (v : View) : View :=
  match Util.getProp (options v) "filters" with
  | JObj filters => withOptions (Util.setProp (options v) "filters" (JObj (removeProp filters field))) v
  | _ => v
  end.

(** [filter(field, condition)] *)
Definition filter (field : string) (condition : JsVal) (v : View) : View :=
  match condition with
  | JFun _ => setOption ["filters"; field] condition v
  | _ =>
      if negb (truthy condition)
         && truthy (Util.get (options v) ["filters"; field] JUndefined)
      then deleteFilter field v
      else v
  end.

(** [axis(field, axisOption)]; [field] is a boolean or a string. *)
Definition axis (field axisOption : JsVal) (v : View) : View :=
  match field with
  | JBool _ => setOption ["axes"] field v
  | JStr name => setOption ["axes"; name] axisOption v
  | _ => v
  end.

(** [legend(field, legendOption)] *)
Definition legend (field legendOption : JsVal) (v : View) : View :=
  match field with
  | JBool _ => setOption ["legends"] field v
  | JStr name => setOption ["legends"; name] legendOption v
  | _ => setOption ["legends"] field v
  end.

(** [scale(field, scaleOption)]; [field] is a string or a record of
    scale options by field. *)
Definition scale (field scaleOption : JsVal) (v : View) : View :=
  match field with
  | JStr name => setOption ["scales"; name] scaleOption v
  | JObj entries => foldl (fun acc kv => setOption ["scales"; kv.1] kv.2 acc) v entries
  | _ => v
  end.

(** [tooltip(cfg)] and [animate(status)] *)
Definition tooltip (cfg : JsVal) (v : View) : View := setOption ["tooltip"] cfg v.
Definition animate (status : bool) (v : View) : View := setOption ["animate"] (JBool status) v.

(** [coordinate(type, coordinateCfg)]; the controller's [update] stores
    the descriptor. *)
Definition coordinate (type_ coordinateCfg : JsVal) (v : View) : View :=
  let v :=
    match type_ with
    | JStr _ => setOption ["coordinate"] (JObj [("type", type_); ("cfg", coordinateCfg)]) v
    | _ => setOption ["coordinate"] type_ v
    end in
  withCoordinateController (Util.getProp (options v) "coordinate") v.

Definition lockTooltip (v : View) : View := withTooltipLocked true v.
Definition unlockTooltip (v : View) : View := withTooltipLocked false v.

(** The methods the class body puts on [View.prototype]. *)
Definition ownMethods : list string :=
  ["constructor"; "setLayout"; "init"; "render"; "clear"; "destroy";
   "changeVisible"; "data"; "filter"; "axis"; "legend"; "scale"; "tooltip";
   "annotation"; "coordinate"; "facet"; "animate"; "updateOptions"; "option";
   "theme"; "interaction"; "removeInteraction"; "changeData"; "createView";
   "removeView"; "getCoordinate"; "getTheme"; "getXScale"; "getYScales";
   "getScalesByDim"; "getScaleByField"; "getOptions"; "getData"; "getLayer";
   "isPointInPlot"; "getLegendAttributes"; "getGroupScales"; "getCanvas";
   "getRootView"; "getXY"; "getController"; "showTooltip"; "hideTooltip";
   "lockTooltip"; "unlockTooltip"; "isTooltipLocked"; "getTooltipItems";
   "getComponents"; "filterData"; "filterFieldData"; "adjustCoordinate";
   "paint"; "renderDataRecursive"; "renderLayoutRecursive";
   "renderPaintRecursive"; "createScale"; "calculateViewBBox";
   "createViewEventCaptureRect"; "initEvents"; "initComponentController";
   "createViewEvent"; "doPlotEvent"; "doFilterData"; "initGeometries";
   "createOrUpdateScales"; "syncScale"; "getGeometryScales"; "getScaleFields";
   "getGroupedFields"; "adjustScales"; "adjustCategoryScaleRange";
   "initComponents"; "doLayout"; "createCoordinate"; "paintGeometries";
   "renderComponents"; "renderFacet"; "initOptions"; "createGeometry";
   "getScaleKey"; "addGeometry"].

Definition dquote : string := String (Ascii.ascii_of_nat 34) "".

Section Registries.

(** [getFacet(type)]: the table of registered facet constructors
    ([facet/index.ts] is not among the sources). *)
Variable getFacet : string → option (JsVal → Facet).

(** The names that reach [View.prototype] from outside the class body:
    the methods inherited from [Base] and the geometry methods added by
    [registerGeometry]. *)
Variable inheritedOrRegistered : list string.

(** [View.prototype[name]], as a condition. *)
Definition onPrototype (name : string) : bool :=
  existsb (String.eqb name) (ownMethods ++ inheritedOrRegistered).

(** [facet(type, cfg)]: the outcome and the state the call leaves. *)
Definition facet (type_ : string) (cfg : JsVal) (v : View) : Outcome unit * View :=
  let v :=
    match facetInstance v with
    | Some previous => withFacetInstance (Some (Facet_destroy previous)) v
    | None => v
    end in
  match getFacet type_ with
  | None => (Throw ("facet '" ++ type_ ++ "' is not exist!"), v)
  | Some Ctor =>
      (Ok (), withFacetInstance (Some (Ctor (Util.setProp cfg "type" (JStr type_)))) v)
  end.

(** [option(name, opt)] *)
Definition option (name : string) (opt : JsVal) (v : View) : Outcome unit * View :=
  if onPrototype name then
    (Throw ("Can't built in variable name " ++ dquote ++ name ++ dquote
            ++ ", please change another one."), v)
  else (Ok (), setOption (Util.splitDot "" name) opt v).

(** The configuration calls a caller can issue on a view. *)
Inductive Call : Type :=
| CallData (data_ : JsVal)
| CallFilter (field : string) (condition : JsVal)
| CallAxis (field axisOption : JsVal)
| CallLegend (field legendOption : JsVal)
| CallScale (field scaleOption : JsVal)
| CallTooltip (cfg : JsVal)
| CallCoordinate (type_ coordinateCfg : JsVal)
| CallFacet (type_ : string) (cfg : JsVal)
| CallAnimate (status : bool)
| CallOption (name : string) (opt : JsVal)
| CallLockTooltip
| CallUnlockTooltip.

(** The state a call leaves behind, whether it returned or threw. *)
Definition perform (c : Call) (v : View) : View :=
  match c with
  | CallData d => data d v
  | CallFilter f c => filter f c v
  | CallAxis f o => axis f o v
  | CallLegend f o => legend f o v
  | CallScale f o => scale f o v
  | CallTooltip cfg => tooltip cfg v
  | CallCoordinate t cfg => coordinate t cfg v
  | CallFacet t cfg => (facet t cfg v).2
  | CallAnimate b => animate b v
  | CallOption n o => (option n o v).2
  | CallLockTooltip => lockTooltip v
  | CallUnlockTooltip => unlockTooltip v
  end.

Definition performAll (calls : list Call) (v : View) : View :=
  foldl (fun acc c => perform c acc) v calls.

End Registries.

(** [getCoordinate()] and [isPointInPlot(point)] *)
Definition getCoordinate (v : View) : Datatypes.option Coordinate := coordinateInstance v.

Definition isPointInPlot (v : View) (point : Point) : bool :=
  isPointInCoordinate (getCoordinate v) point.

(** The event of the drawing engine ([GEvent]) and the view-level event
    object built from it ([Event], whose [x] and [y] are those of the
    engine's event). *)
Record GEvent : Type := { gname : string; gx : Q; gy : Q }.
Record Event : Type := { etype : string; ex : Q; ey : Q }.

Definition withType (type_ : string) (e : Event) : Event :=
  {| etype := type_; ex := ex e; ey := ey e |}.

(** [createViewEvent(evt)]: [e.type = name]. *)
Definition createViewEvent (evt : GEvent) : Event :=
  {| etype := gname evt; ex := gx evt; ey := gy evt |}.

(** Modelled from the spec: the members [MOUSE_ENTER] and [MOUSE_LEAVE] of
    [PLOT_EVENTS] ([constant.ts] is not among the sources); section 4.5
    names the two transition events [plot:mouseenter] and
    [plot:mouseleave]. *)
Definition PLOT_EVENTS_MOUSE_ENTER : string := "plot:mouseenter".
Definition PLOT_EVENTS_MOUSE_LEAVE : string := "plot:mouseleave".

Definition ALL_EVENTS : list string :=
  ["mousedown"; "mouseup"; "mousemove"; "mouseleave"; "mousewheel";
   "touchstart"; "touchmove"; "touchend"; "touchcancel";
   "click"; "dblclick"; "contextmenu"].

(** [ALL_EVENTS.includes(type)] *)
Definition includes (names : list string) (name : string) : bool :=
  existsb (String.eqb name) names.

(** [doPlotEvent(e)]: the event object and the view after the call. *)
Definition doPlotEvent (e : Event) (v : View) : Event * View :=
  let type_ := etype e in
  let point := {| x := ex e; y := ey e |} in
  if includes ALL_EVENTS type_ then
    let currentInPlot := isPointInPlot v point in
    let '(e, v) :=
      if currentInPlot then
        let TYPE := "plot:" ++ type_ in
        let e := withType TYPE e in
        let v := emit TYPE (Some (etype e)) v in
        if String.eqb type_ "mouseleave"
        then (e, withIsPreMouseInPlot false v)
        else (e, v)
      else (e, v) in
    if String.eqb type_ "mousemove" then
      let '(e, v) :=
        if isPreMouseInPlot v && negb currentInPlot then
          let e := withType PLOT_EVENTS_MOUSE_LEAVE e in
          (e, emit PLOT_EVENTS_MOUSE_LEAVE (Some (etype e)) v)
        else if negb (isPreMouseInPlot v) && currentInPlot then
          let e := withType PLOT_EVENTS_MOUSE_ENTER e in
          (e, emit PLOT_EVENTS_MOUSE_ENTER (Some (etype e)) v)
        else (e, v) in
      (e, withIsPreMouseInPlot currentInPlot v)
    else if String.eqb type_ "mouseleave" then
      if isPreMouseInPlot v then
        let e := withType PLOT_EVENTS_MOUSE_LEAVE e in
        let v := emit PLOT_EVENTS_MOUSE_LEAVE (Some (etype e)) v in
        (e, withIsPreMouseInPlot false v)
      else (e, v)
    else (e, v)
  else (e, v).

(** [name.includes(':')] *)
Fixpoint includesColon (name : string) : bool :=
  match name with
  | EmptyString => false
  | String c rest => Ascii.eqb c ":"%char || includesColon rest
  end.

(** [onCanvasEvent(evt)] *)
Definition onCanvasEvent (evt : GEvent) (v : View) : View :=
  let name := gname evt in
  if negb (includesColon name) then
    let e := createViewEvent evt in
    let '(e, v) := doPlotEvent e v in
    emit name (Some (etype e)) v
  else v.

(** The names emitted by a call that took the view from [before] to
    [after]: what the call appended to the log. *)
Definition newlyEmitted (before after : View) : list string :=
  emittedName <$> drop (List.length (emitted before)) (emitted after).

(** How many times [name] occurs in a list of emitted names. *)
Definition occurrences (name : string) (names : list string) : nat :=
  List.length (List.filter (String.eqb name) names).

(** A closed form of [doPlotEvent], proved equal to it below: the names it
    emits and the flag it leaves, from the event type, the flag before
    the call ([pre]) and the containment of the point ([cur]). *)
Definition plotNames (type_ : string) (pre cur : bool) : list string :=
  if includes ALL_EVENTS type_ then
    ((if cur then [("plot:" ++ type_)%string] else [])
     ++ (if String.eqb type_ "mousemove" then
           if pre && negb cur then ["plot:mouseleave"]
           else if negb pre && cur then ["plot:mouseenter"] else []
         else if String.eqb type_ "mouseleave" then
           if pre && negb cur then ["plot:mouseleave"] else []
         else []))%list
  else [].

Definition plotFlag (type_ : string) (pre cur : bool) : bool :=
  if includes ALL_EVENTS type_ then
    if String.eqb type_ "mousemove" then cur
    else if String.eqb type_ "mouseleave" then false
    else pre
  else pre.

(** A rendered view whose plot is the pixel box (0,0)-(100,100). *)
Definition renderedSample : View :=
  mkView "view1" (JObj [("data", JArr []); ("animate", JBool true)]) (Some []) ∅
         JUndefined
         (Some (rect {| x := 0; y := 0 |} {| x := 100; y := 100 |}))
         None false None [] [] [].

(** A view on which a facet is installed. *)
Definition facetedSample : View :=
  withFacetInstance (Some (Facet_new (JObj [("type", JStr "rect")]))) renderedSample.

End View.

(** ** [View.adjustCategoryScaleRange] *)

Module CategoryRange.
Import Coord.

(** The attributes of a scale the adjustment reads and writes.  [values]
    is [None] when the attribute is [undefined]. *)
Record Scale : Type := {
  field : string;
  values : option (list JsVal);
  isCategory : bool;
  isIdentity : bool;
  range : list Q;
}.

Definition withRange (range_ : list Q) (scale : Scale) : Scale :=
  {| field := field scale; values := values scale;
     isCategory := isCategory scale; isIdentity := isIdentity scale;
     range := range_ |}.

(** Scale objects live in a store and are referred to by address: the
    same scale can be the x scale of one geometry and the y scale of
    another. *)
Abbreviation Store := (gmap nat Scale).

(** A geometry, as far as [getXScale()] and [getYScale()] go. *)
Record Geometry : Type := {
  getXScale : option nat;
  getYScale : option nat;
}.

(** The members of the view the adjustment reads.  [themeObject] is the
    theme record; the member called [theme] is not a field but the
    method [theme(theme)], a function object. *)
Record View : Type := {
  geometries : list Geometry;
  coordinateInstance : Coordinate;
  scales : JsVal;
  themeObject : JsVal;
}.

Definition theme (v : View) : JsVal := JFun "theme".

(** [View.getXScale()]: the x scale of the first geometry, or [null]. *)
Definition View_getXScale (v : View) : option nat :=
  match geometries v with
  | g :: _ => getXScale g
  | [] => None
  end.

(** [uniq(arr)]: keeps the first occurrence of each element. *)
Fixpoint uniqFrom (seen arr : list (option nat)) : list (option nat) :=
  match arr with
  | [] => []
  | item :: rest =>
      if bool_decide (item ∈ seen) then uniqFrom seen rest
      else item :: uniqFrom (item :: seen) rest
  end.

Definition uniq (arr : list (option nat)) : list (option nat) := uniqFrom [] arr.

(** [View.getYScales()] *)
Definition View_getYScales (v : View) : list (option nat) :=
  uniq (List.map getYScale (geometries v)).

(** [[this.getXScale(), ...this.getYScales()].filter((e) => !!e)] *)
Definition xyScales (v : View) : list nat :=
  omap id (View_getXScale v :: View_getYScales v).

(** The number a value stands for in arithmetic.  Only numbers are
    modelled; [get] below can only return its default, a number. *)
Definition toNumber (value : JsVal) : Q :=
  match value with
  | JNum q => q
  | _ => 0
  end.

(** The body of the [each] callback: the range assigned to [scale], or
    [None] when the scale is left alone. *)
Definition adjustedRange (v : View) (scale : Scale) : option (list Q) :=
  let coordinate := coordinateInstance v in
  let scaleOptions := scales v in
  if isCategory scale || isIdentity scale then
    match values scale with
    | Some values_ =>
        if negb (truthy (Util.get scaleOptions [field scale; "range"] JUndefined)) then
          let count := inject_Z (Z.of_nat (List.length values_)) in
          Some
            (if Qeq_bool count 1 then [0.5; 1]%Q
             else if isFullCircle coordinate then
               if negb (isTransposed coordinate) then [0; 1 - 1 / count]%Q
               else
                 let widthRatio :=
                   toNumber (Util.get (theme v) (Util.splitDot "" "widthRatio.multiplePie")
                                      (JNum (1 / 1.3)%Q)) in
                 let offset := ((1 / count) * widthRatio)%Q in
                 [offset / 2; 1 - offset / 2]%Q
             else
               let offset := (1 / count / 2)%Q in
               [offset; 1 - offset]%Q)
        else None
    | None => None
    end
  else None.

(** [adjustCategoryScaleRange()]: [scale.range = range] on each of the x/y
    scales in turn. *)
Definition adjustCategoryScaleRange (v : View) (store : Store) : Store :=
  foldl
    (fun store ref =>
       match store !! ref with
       | Some scale =>
           match adjustedRange v scale with
           | Some range_ => <[ref := withRange range_ scale]> store
           | None => store
           end
       | None => store
       end)
    store (xyScales v).

(** A polar coordinate over the full circle, transposed (the coordinate
    of a multi-level pie). *)
Definition transposedFullCircle : Coordinate := {|
  type := "theta";
  isPolar := true;
  isTransposed := true;
  startAngle := (- Math_PI / 2)%Q;
  endAngle := (- Math_PI / 2 + Math_PI * 2)%Q;
  start := {| x := 0; y := 100 |};
  end_ := {| x := 100; y := 0 |};
  invert := fun point => point;
|}.

(** A view whose theme asks for a width ratio of 0.5 for multi-level
    pies, with one geometry whose x scale (at address 0) has two
    categories. *)
Definition pieView : View := {|
  geometries := [{| getXScale := Some 0%nat; getYScale := Some 1%nat |}];
  coordinateInstance := transposedFullCircle;
  scales := JUndefined;
  themeObject := JObj [("widthRatio", JObj [("multiplePie", JNum 0.5%Q)])];
|}.

Definition pieStore : Store :=
  <[0%nat := {| field := "type"; values := Some [JStr "a"; JStr "b"];
                isCategory := true; isIdentity := false; range := [0; 1]%Q |}]>
  (<[1%nat := {| field := "value"; values := None;
                 isCategory := false; isIdentity := false; range := [0; 1]%Q |}]> ∅).

End CategoryRange.

(** ** [View]: scale creation through the root view *)

Module Sharing.

(** What scale creation reads from a view object: its [id], its
    [options.scales] and its geometries. *)
Record Info : Type := {
  id : string;
  scales : JsVal;
  geometries : list View.Geometry;
}.

(** A view together with its chain of ancestors: [parent] is set once, by
    the constructor, so the chain is finite and ends in the root. *)
Inductive View : Type :=
| Root (info : Info)
| Child (info : Info) (parent_ : View).

Definition info (v : View) : Info :=
  match v with
  | Root i => i
  | Child i _ => i
  end.

Definition parent (v : View) : option View :=
  match v with
  | Root _ => None
  | Child _ p => Some p
  end.

(** [getRootView()]: walks [parent] until there is none. *)
Fixpoint getRootView (v : View) : View :=
  match v with
  | Child _ p => getRootView p
  | Root _ => v
  end.

(** Every view object owns a [scalePool]; the pools are addressed by the
    owner's [id].  [fresh] is the identity of the next object created. *)
Record World : Type := {
  pools : gmap string ScalePool.t;
  fresh : nat;
}.

(** [view.scalePool] *)
Definition scalePool (v : View) (w : World) : ScalePool.t :=
  default ∅ (pools w !! id (info v)).

(** [getScaleKey(field)]: [`${this.id}-${field}`] *)
Definition getScaleKey (v : View) (field : string) : string :=
  id (info v) ++ "-" ++ field.

(** [key ? key : this.getScaleKey(field)] *)
Definition defaultKey (v : View) (field : string) (key : option string) : string :=
  match key with
  | Some k => if truthy (JStr k) then k else getScaleKey v field
  | None => getScaleKey v field
  end.

(** The properties an object spread [{ ...value }] copies. *)
Definition spreadProps (value : JsVal) : list (string * JsVal) :=
  match value with
  | JObj props => props
  | _ => []
  end.

(** [createScale(field, data, scaleDef, key)] *)
Fixpoint createScale (v : View) (field : string) (data : list (gmap string JsVal))
    (scaleDef : JsVal) (key : option string) (w : World) : ScalePool.Scale * World :=
  let currentScaleDef := Util.get (scales (info v)) [field] JUndefined in
  let mergedScaleDef := View.spread (spreadProps currentScaleDef) (spreadProps scaleDef) in
  let defaultKey_ := defaultKey v field key in
  match v with
  | Child _ parent_ =>
      createScale parent_ field data (JObj mergedScaleDef) (Some defaultKey_) w
  | Root _ =>
      let '(scale, pool, fresh_) :=
        ScalePool.createScale field data mergedScaleDef defaultKey_
                              (scalePool v w) (fresh w) in
      (scale, {| pools := <[id (info v) := pool]> (pools w); fresh := fresh_ |})
  end.

(** [getScaleByField(field, key)] *)
Definition getScaleByField (v : View) (field : string) (key : option string)
    (w : World) : option ScalePool.Scale :=
  let defaultKey_ := defaultKey v field key in
  ScalePool.getScale defaultKey_ (scalePool (getRootView v) w).

(** [uniq] on field names, keeping first occurrences. *)
Fixpoint uniqFrom (seen arr : list string) : list string :=
  match arr with
  | [] => []
  | item :: rest =>
      if bool_decide (item ∈ seen) then uniqFrom seen rest
      else item :: uniqFrom (item :: seen) rest
  end.

(** [getScaleFields()] and [getGroupedFields()] *)
Definition getScaleFields (v : View) : list string :=
  uniqFrom [] (concat (View.scaleFields <$> geometries (info v))).

Definition getGroupedFields (v : View) : list string :=
  uniqFrom [] (concat (View.groupFields <$> geometries (info v))).

(** [createOrUpdateScales()]; [data] is [options.data]. *)
Definition createOrUpdateScales (v : View) (data filteredData : list (gmap string JsVal))
    (w : World) : World :=
  foldl
    (fun w field =>
       let scaleDef := Util.get (scales (info v)) [field] JUndefined in
       (createScale v field
          (if View.includes (getGroupedFields v) field then data else filteredData)
          scaleDef None w).2)
    w (getScaleFields v).

(** [getGeometryScales()]: the table [geometry.scales] is set to. *)
Definition getGeometryScales (v : View) (w : World)
  : list (string * option ScalePool.Scale) :=
  (fun field => (field, getScaleByField v field None w)) <$> getScaleFields v.

(** The scale part of [initGeometries()]: the scales are created or
    updated, then every geometry is handed [getGeometryScales()]. *)
Definition initGeometries (v : View) (data filteredData : list (gmap string JsVal))
    (w : World) : list (View.Geometry * list (string * option ScalePool.Scale)) * World :=
  let w := createOrUpdateScales v data filteredData w in
  ((fun geometry => (geometry, getGeometryScales v w)) <$> geometries (info v), w).

(** [geometry.scales[field]] *)
Definition scaleOf (table : list (string * option ScalePool.Scale)) (field : string)
  : option ScalePool.Scale :=
  match List.find (fun entry => String.eqb entry.1 field) table with
  | Some entry => entry.2
  | None => None
  end.

(** The pool hands out each identity once: its instances were created
    before [fresh], and two keys never hold the same instance. *)
Definition poolOk (pool : ScalePool.t) (fresh_ : nat) : Prop :=
  (∀ key scale, pool !! key = Some scale → (ScalePool.oid scale < fresh_)%nat)
  ∧ (∀ key1 key2 scale1 scale2,
       pool !! key1 = Some scale1 → pool !! key2 = Some scale2 →
       ScalePool.oid scale1 = ScalePool.oid scale2 → key1 = key2).

(** A chart with two sibling views under one root; the first has two
    geometries that both use the field [year]. *)
Definition chart : View := Root {| id := "view0"; scales := JUndefined; geometries := [] |}.

Definition left_ : View :=
  Child {| id := "view1"; scales := JUndefined;
           geometries := [ {| View.scaleFields := ["year"; "value"];
                              View.groupFields := [] |};
                           {| View.scaleFields := ["year"; "count"];
                              View.groupFields := [] |} ] |}
        chart.

Definition right_ : View :=
  Child {| id := "view2"; scales := JUndefined;
           geometries := [ {| View.scaleFields := ["year"; "value"];
                              View.groupFields := [] |} ] |}
        chart.

Definition emptyWorld : World := {| pools := ∅; fresh := 0 |}.

End Sharing.

(** ** [ScaleDef]: the wrapper around a scale of [@antv/scale] *)

Module ScaleDef.

(** The values a scale takes as input: numbers, strings and dates (a
    date is given by its time value). *)
Inductive Input : Type :=
| Num (q : Q)
| Str (s : string)
| Date (time : Q).

(** [if (min)]: an absent value, the number 0 and the empty string are
    falsy. *)
Definition truthyInput (value : option Input) : bool :=
  match value with
  | None => false
  | Some (Num q) => negb (Qeq_bool q 0)
  | Some (Str s) => negb (String.eqb s "")
  | Some (Date _) => true
  end.

(** A tick method after resolution: [() => ticks], or a function known by
    its name (a built-in of the library such as [d3Ticks], or one the
    user supplied). *)
Inductive TickFn : Type :=
| ConstantTicks (ticks : list Input)
| NamedTicks (name : string).

(** The option [tickMethod]: a function or the name of a built-in. *)
Inductive TickMethodOption : Type :=
| TickFunction (f : TickFn)
| TickName (name : string).

(** [ScaleDefOptions]; an absent property is [None]. *)
Record ScaleDefOptions : Type := {
  type : option string;
  domain : option (list Input);
  range : option (list Q);
  min : option Input;
  max : option Input;
  transform : option (Input → Input);
  formatter : option (Input → nat → string);
  compare : option (Input → Input → Q);
  mask : option string;
  ticks : option (list Input);
  tickMethod : option TickMethodOption;
}.

Definition noOptions : ScaleDefOptions :=
  {| type := None; domain := None; range := None; min := None; max := None;
     transform := None; formatter := None; compare := None; mask := None;
     ticks := None; tickMethod := None |}.

Definition orElse {A} (b a : option A) : option A :=
  match b with
  | Some _ => b
  | None => a
  end.

(** [{ ...a, ...b }] *)
Definition spread (a b : ScaleDefOptions) : ScaleDefOptions :=
  {| type := orElse (type b) (type a);
     domain := orElse (domain b) (domain a);
     range := orElse (range b) (range a);
     min := orElse (min b) (min a);
     max := orElse (max b) (max a);
     transform := orElse (transform b) (transform a);
     formatter := orElse (formatter b) (formatter a);
     compare := orElse (compare b) (compare a);
     mask := orElse (mask b) (mask a);
     ticks := orElse (ticks b) (ticks a);
     tickMethod := orElse (tickMethod b) (tickMethod a) |}.

Definition withDomain (d : option (list Input)) (o : ScaleDefOptions) : ScaleDefOptions :=
  {| type := type o; domain := d; range := range o; min := min o; max := max o;
     transform := transform o; formatter := formatter o; compare := compare o;
     mask := mask o; ticks := ticks o; tickMethod := tickMethod o |}.

Definition withMinMax (min_ max_ : option Input) (o : ScaleDefOptions) : ScaleDefOptions :=
  {| type := type o; domain := domain o; range := range o; min := min_; max := max_;
     transform := transform o; formatter := formatter o; compare := compare o;
     mask := mask o; ticks := ticks o; tickMethod := tickMethod o |}.

Definition withTickMethod (m : TickMethodOption) (o : ScaleDefOptions) : ScaleDefOptions :=
  {| type := type o; domain := domain o; range := range o; min := min o; max := max o;
     transform := transform o; formatter := formatter o; compare := compare o;
     mask := mask o; ticks := ticks o; tickMethod := Some m |}.

(** What the wrapper needs from outside: the scales of [@antv/scale] as
    built by [createScaleByType], the date and text conversions of the
    language, and [fecha]'s [format]. *)
Class Library : Type := {
  (** the options of a scale just built by [createScaleByType(type)] *)
  createdOptions : string → ScaleDefOptions;
  (** ['getTicks' in scale] *)
  hasGetTicks : string → bool;
  (** [scale.getTicks()] and [scale.map(x)] of a scale of the given type
      holding the given options *)
  scaleGetTicks : string → ScaleDefOptions → list Input;
  scaleMap : string → ScaleDefOptions → Input → Q;
  (** [(scale as Time).getFormatter()] *)
  timeFormatter : ScaleDefOptions → Input → nat → string;
  (** [format(d, mask)], [new Date(d)] and [`${value}`] *)
  fechaFormat : Input → string → string;
  newDate : string → Input;
  toText : Input → string;
}.

Section Wrapper.
Context `{Library}.

(** The underlying scale: the type it was created for and its options.
    [update] merges the new options over the ones it holds. *)
Record Scale : Type := {
  kind : string;
  held : ScaleDefOptions;
}.

Definition createScaleByType (type_ : string) : Scale :=
  {| kind := type_; held := createdOptions type_ |}.

Definition Scale_update (options_ : ScaleDefOptions) (scale_ : Scale) : Scale :=
  {| kind := kind scale_; held := spread (held scale_) options_ |}.

(** The fields of a [ScaleDef]; [scale] and [tickValues] are [undefined]
    until the first [update]. *)
Record t : Type := {
  scale : option Scale;
  options : ScaleDefOptions;
  tickValues : option (list Input);
  field : option string;
}.

Definition withScale (s : Scale) (sd : t) : t :=
  {| scale := Some s; options := options sd;
     tickValues := tickValues sd; field := field sd |}.

Definition withOptions (o : ScaleDefOptions) (sd : t) : t :=
  {| scale := scale sd; options := o;
     tickValues := tickValues sd; field := field sd |}.

Definition withTickValues (l : list Input) (sd : t) : t :=
  {| scale := scale sd; options := options sd;
     tickValues := Some l; field := field sd |}.

(** [this.scale], whose methods cannot be called while it is
    [undefined]. *)
Definition theScale (sd : t) : Outcome Scale :=
  match scale sd with
  | Some s => Ok s
  | None => Throw "TypeError: this.scale is undefined"
  end.

(** [belongTo(...types)] *)
Definition belongTo (types : list string) (sd : t) : bool :=
  match type (options sd) with
  | Some type_ => existsb (String.eqb type_) types
  | None => false
  end.

Definition isContinuous (sd : t) : bool :=
  belongTo ["linear"; "log"; "pow"; "sqrt"; "time"] sd.

Definition isCategory (sd : t) : bool :=
  belongTo ["ordinal"; "band"; "point"; "cat"; "category"; "timeCat"] sd.

Definition isIdentity (sd : t) : bool := belongTo ["identity"] sd.

(** [getOptions()]: [{ ...scaleOptions, ...this.options }] *)
Definition getOptions (sd : t) : Outcome ScaleDefOptions :=
  s ← theScale sd;
  Ok (spread (held s) (options sd)).

(** [updateScaleType(updateOptions)] *)
Definition updateScaleType (updateOptions : ScaleDefOptions) (sd : t) : t :=
  match type updateOptions with
  | None => sd
  | Some type_ =>
      if String.eqb type_ "" then sd
      else if bool_decide (Some type_ = type (options sd)) then sd
      else withScale (createScaleByType type_) sd
  end.

(** [(d) => (typeof d === 'string' ? new Date(d) : d)] *)
Definition dateTransform (d : Input) : Input :=
  match d with
  | Str s => newDate s
  | other => other
  end.

(** [getDefaultOptions()] *)
Definition getDefaultOptions (sd : t) : Outcome ScaleDefOptions :=
  if belongTo ["time"] sd then
    s ← theScale sd;
    Ok {| type := None; domain := None; range := None; min := None; max := None;
          transform := Some dateTransform;
          formatter := Some (timeFormatter (held s));
          compare := None; mask := None; ticks := None; tickMethod := None |}
  else if belongTo ["timeCat"] sd then
    let formatter_ :=
      match mask (options sd) with
      | Some mask_ =>
          if String.eqb mask_ "" then (fun d (_ : nat) => toText d)
          else (fun d (_ : nat) => fechaFormat d mask_)
      | None => (fun d (_ : nat) => toText d)
      end in
    let compare_ (a b : Input) : Q :=
      match a, b with
      | Date ta, Date tb => (ta - tb)%Q
      | _, _ => 0%Q
      end in
    Ok {| type := None; domain := None; range := None; min := None; max := None;
          transform := Some dateTransform;
          formatter := Some formatter_;
          compare := Some compare_; mask := None; ticks := None; tickMethod := None |}
  else
    Ok {| type := None; domain := None; range := None; min := None; max := None;
          transform := Some (fun d => d);
          formatter := None;
          compare := None; mask := None; ticks := None; tickMethod := None |}.

(** [updateOptions(updateOptions)] *)
Definition updateOptions (updateOptions_ : ScaleDefOptions) (sd : t) : Outcome t :=
  let sd := withOptions (spread (options sd) updateOptions_) sd in
  defaultOptions ← getDefaultOptions sd;
  Ok (withOptions (spread defaultOptions (options sd)) sd).

(** [array[index] = value] for the two indices the code writes: index 0,
    which extends an empty array, and [last = length - 1], which is no
    element of an empty array. *)
Definition writeFirst (value : Input) (array : list Input) : list Input :=
  match array with
  | [] => [value]
  | _ :: rest => value :: rest
  end.

Definition writeAt (index : nat) (value : Input) (array : list Input) : list Input :=
  <[index := value]> array.

(** [generateDomain(updateOptions)].  Without [updateOptions.domain] the
    array written to is the one [getOption('domain')] returned, that is
    [this.options.domain] itself when the options have one: the second
    component is [this.options] after the writes.  ([transform] is
    present in the options from the first [updateOptions] on.) *)
Definition generateDomain (updateOptions_ : ScaleDefOptions) (sd : t)
  : Outcome (list Input * ScaleDefOptions) :=
  all ← getOptions sd;
  match transform all with
  | None => Throw "TypeError: transform is not a function"
  | Some transform_ =>
      let override (array : list Input) : list Input :=
        let last := List.length array in
        let array :=
          if truthyInput (min updateOptions_)
          then writeFirst (transform_ (default (Num 0) (min updateOptions_))) array
          else array in
        if truthyInput (max updateOptions_)
        then match last with
             | O => array
             | S last_ => writeAt last_ (transform_ (default (Num 0) (max updateOptions_))) array
             end
        else array in
      match domain updateOptions_ with
      | Some domain_ => Ok (override (transform_ <$> domain_), options sd)
      | None =>
          match domain all with
          | None => Throw "TypeError: transformedDomain is undefined"
          | Some stored =>
              let written := override stored in
              Ok (written,
                  match domain (options sd) with
                  | Some _ => withDomain (Some written) (options sd)
                  | None => options sd
                  end)
          end
      end
  end.

(** [generateTickMethod()] *)
Definition generateTickMethod (sd : t) : TickFn :=
  let nameTickMethod (name : string) : option TickFn :=
    if String.eqb name "d3-ticks" then Some (NamedTicks "d3Ticks")
    else if String.eqb name "wilkinson-extended" then Some (NamedTicks "wilkinsonExtended")
    else if String.eqb name "r-pretty" then Some (NamedTicks "rPretty")
    else if String.eqb name "strick-count" then Some (NamedTicks "strickCount")
    else if String.eqb name "d3-log" then Some (NamedTicks "d3Log")
    else if String.eqb name "d3-time" then Some (NamedTicks "d3Time")
    else None in
  let typeTickMethod : TickFn :=
    match type (options sd) with
    | Some type_ =>
        if String.eqb type_ "log" then NamedTicks "d3Log"
        else if String.eqb type_ "time" then NamedTicks "d3Time"
        else NamedTicks "d3Ticks"
    | None => NamedTicks "d3Ticks"
    end in
  match ticks (options sd) with
  | Some ticks_ => ConstantTicks ticks_
  | None =>
      match tickMethod (options sd) with
      | Some (TickFunction f) => f
      | Some (TickName name) =>
          match nameTickMethod name with
          | Some f => f
          | None => typeTickMethod
          end
      | None => typeTickMethod
      end
  end.

(** [updateScaleOptions(updateOptions)] *)
Definition updateScaleOptions (updateOptions_ : ScaleDefOptions) (sd : t) : Outcome t :=
  generated ← generateDomain updateOptions_ sd;
  let sd := withOptions generated.2 sd in
  let options_ :=
    withTickMethod (TickFunction (generateTickMethod sd))
                   (withDomain (Some generated.1) (options sd)) in
  s ← theScale sd;
  Ok (withScale (Scale_update options_ s) sd).

(** [updateExtent()] *)
Definition updateExtent (sd : t) : Outcome t :=
  if negb (isContinuous sd) then Ok sd
  else
    all ← getOptions sd;
    match domain all with
    | None => Throw "TypeError: domain is undefined"
    | Some domain_ =>
        let min_ := head domain_ in
        let max_ := last domain_ in
        Ok (withOptions (withMinMax min_ max_ (options sd)) sd)
    end.

(** [calculateTickValues()] *)
Definition calculateTickValues (sd : t) : Outcome (list Input) :=
  s ← theScale sd;
  if hasGetTicks (kind s) then Ok (scaleGetTicks (kind s) (held s))
  else match domain (held s) with
       | Some domain_ => Ok domain_
       | None => Throw "TypeError: tickValues is undefined"
       end.

(** [updateTicks()] *)
Definition updateTicks (sd : t) : Outcome t :=
  all ← getOptions sd;
  tickValues_ ← calculateTickValues sd;
  match transform all with
  | Some transform_ => Ok (withTickValues (transform_ <$> tickValues_) sd)
  | None => Throw "TypeError: transform is not a function"
  end.

(** [update(updateOptions)] *)
Definition update (updateOptions_ : ScaleDefOptions) (sd : t) : Outcome t :=
  let sd := updateScaleType updateOptions_ sd in
  sd ← updateOptions updateOptions_ sd;
  sd ← updateScaleOptions updateOptions_ sd;
  sd ← updateExtent sd;
  updateTicks sd.

(** [new ScaleDef(options, field)] *)
Definition new (options_ : ScaleDefOptions) (field_ : option string) : Outcome t :=
  let blank := {| scale := None; options := noOptions;
                  tickValues := None; field := None |} in
  sd ← update (spread {| type := Some "identity"; domain := None; range := None;
                         min := None; max := None; transform := None;
                         formatter := None; compare := None; mask := None;
                         ticks := None; tickMethod := None |}
                      options_) blank;
  Ok {| scale := scale sd; options := options sd;
        tickValues := tickValues sd; field := field_ |}.

(** [getText(value, index)] *)
Definition getText (sd : t) (value : Input) (index : nat) : string :=
  match formatter (options sd) with
  | Some formatter_ => formatter_ value index
  | None => toText value
  end.

(** [map(v)] *)
Definition map (sd : t) (v : Input) : Outcome Q :=
  let transform_ := default (fun x => x) (transform (options sd)) in
  let input := transform_ v in
  s ← theScale sd;
  Ok (scaleMap (kind s) (held s) input).

(** One entry of [getTicks()]. *)
Record Tick : Type := {
  text : string;
  tickValue : Input;
  value : Q;
}.

Fixpoint ticksFrom (sd : t) (index : nat) (values : list Input) : Outcome (list Tick) :=
  match values with
  | [] => Ok []
  | value_ :: rest =>
      mapped ← map sd value_;
      others ← ticksFrom sd (S index) rest;
      Ok ({| text := getText sd value_ index; tickValue := value_; value := mapped |}
            :: others)
  end.

(** [getTicks()] *)
Definition getTicks (sd : t) : Outcome (list Tick) :=
  match tickValues sd with
  | Some values => ticksFrom sd 0 values
  | None => Throw "TypeError: this.tickValues is undefined"
  end.

End Wrapper.

End ScaleDef.

(** ** A linear scale to evaluate [ScaleDef] on

    The linear scale of [@antv/scale] over a two-point numeric domain:
    [map] interpolates from the domain to the range (by default [0, 1]),
    and [getTicks()] calls the tick method it was given.  Tick methods
    other than [() => ticks], number formatting and date parsing are not
    modelled. *)

Module Linear.
Import ScaleDef.

Definition created : ScaleDefOptions :=
  {| type := None; domain := Some [Num 0; Num 1]; range := Some [0; 1]%Q;
     min := None; max := None; transform := None; formatter := None;
     compare := None; mask := None; ticks := None; tickMethod := None |}.

Definition interpolate (options_ : ScaleDefOptions) (x : Input) : Q :=
  match domain options_, range options_, x with
  | Some [Num d0; Num d1], Some [r0; r1], Num v =>
      (r0 + (v - d0) / (d1 - d0) * (r1 - r0))%Q
  | _, _, _ => 0%Q
  end.

Definition getTicks (options_ : ScaleDefOptions) : list Input :=
  match tickMethod options_ with
  | Some (TickFunction (ConstantTicks ticks_)) => ticks_
  | _ => default [] (domain options_)
  end.

Definition library : Library := {|
  createdOptions := fun _ => created;
  hasGetTicks := fun _ => true;
  scaleGetTicks := fun _ => getTicks;
  scaleMap := fun _ => interpolate;
  timeFormatter := fun _ _ _ => "";
  fechaFormat := fun _ _ => "";
  newDate := fun _ => Date 0;
  toText := fun value_ => match value_ with Str s => s | _ => "" end;
|}.

(** [new ScaleDef({ type: 'linear', domain: [5, 10] })] *)
Definition fiveToTen : ScaleDefOptions :=
  {| type := Some "linear"; domain := Some [Num 5; Num 10]; range := None;
     min := None; max := None; transform := None; formatter := None;
     compare := None; mask := None; ticks := None; tickMethod := None |}.

(** [{ min: 0 }] *)
Definition minZero : ScaleDefOptions := withMinMax (Some (Num 0)) None noOptions.

(** [new ScaleDef({ type: 'linear', domain: [0, 10], min: 2, ticks: [2, 6, 10] })] *)
Definition fromTwo : ScaleDefOptions :=
  {| type := Some "linear"; domain := Some [Num 0; Num 10]; range := None;
     min := Some (Num 2); max := None; transform := None; formatter := None;
     compare := None; mask := None; ticks := Some [Num 2; Num 6; Num 10];
     tickMethod := None |}.

End Linear.

(** ** [View.createView]: what a child view shares with its parent

    Whether two views hold the same object or two copies of it is a fact
    about references, so option values live in a store here: a value is a
    primitive or the address of an object, and an object (an array is an
    object whose keys are its indices) maps property names to values. *)

Module Cloning.

Inductive Val : Type :=
| VUndefined
| VNull
| VBool (b : bool)
| VNum (q : Q)
| VStr (s : string)
| VFun (name : string)
| VRef (address : nat).

Record Obj : Type := {
  isArray : bool;
  props : list (string * Val);
}.

Abbreviation Heap := (gmap nat Obj).

(** [clone(obj)] of [@antv/util]: primitives and functions are returned
    as they are; an array or an object is rebuilt, property by property,
    from the clones of its values.  [fuel] bounds the depth of the
    recursion (the library recurses without end on a cyclic value), and
    [None] is a recursion deeper than [fuel] or a dangling address.  The
    new object gets an unused address. *)
Fixpoint clone (fuel : nat) (obj : Val) (h : Heap) : option (Val * Heap) :=
  match obj with
  | VRef address =>
      match fuel with
      | O => None
      | S fuel =>
          o ← h !! address;
          let cloneProps :=
            fix cloneProps (entries : list (string * Val)) (h : Heap)
              : option (list (string * Val) * Heap) :=
              match entries with
              | [] => Some ([], h)
              | (k, value) :: rest =>
                  r ← clone fuel value h;
                  rs ← cloneProps rest r.2;
                  Some ((k, r.1) :: rs.1, rs.2)
              end in
          r ← cloneProps (props o) h;
          let rst := fresh (dom r.2) in
          Some (VRef rst, <[rst := {| isArray := isArray o; props := r.1 |}]> r.2)
      end
  | _ => Some (obj, h)
  end.

(** The clones of the values of a property list, as [clone] computes
    them. *)
Fixpoint cloneProps (fuel : nat) (entries : list (string * Val)) (h : Heap)
  : option (list (string * Val) * Heap) :=
  match entries with
  | [] => Some ([], h)
  | (k, value) :: rest =>
      r ← clone fuel value h;
      rs ← cloneProps fuel rest r.2;
      Some ((k, r.1) :: rs.1, rs.2)
  end.

(** [obj[key]] on a property list *)
Fixpoint getp (entries : list (string * Val)) (key : string) : Val :=
  match entries with
  | [] => VUndefined
  | (k, v) :: rest => if String.eqb k key then v else getp rest key
  end.

Fixpoint setp (entries : list (string * Val)) (key : string) (value : Val)
  : list (string * Val) :=
  match entries with
  | [] => [(key, value)]
  | (k, v) :: rest =>
      if String.eqb k key then (k, value) :: rest
      else (k, v) :: setp rest key value
  end.

(** [{ ...a, ...b }] *)
Definition spread (a b : list (string * Val)) : list (string * Val) :=
  foldl (fun acc kv => setp acc kv.1 kv.2) a b.

(** The members of a view that [createView] reads or sets.  The options
    record is the view's own object; [coordinateOption] is what
    [coordinateController.getOption()] returns; [views] holds the options
    of the children. *)
Inductive View : Type := mkView {
  options : list (string * Val);
  coordinateOption : Val;
  visible : Val;
  views : list View;
}.

(** The part of [cfg] that reaches the child's state. *)
Record ViewCfg : Type := {
  cfgVisible : Val;
  cfgOptions : list (string * Val);
}.

(** [createView(cfg)]: the child, the parent after [this.views.push(v)]
    and the store.  The class initialiser [{ data: [], animate: true }]
    allocates its empty array before the options passed in are spread
    over it. *)
Definition createView (fuel : nat) (cfg : ViewCfg) (this : View) (h : Heap)
  : option (View * View * Heap) :=
  scales ← clone fuel (getp (options this) "scales") h;
  axes ← clone fuel (getp (options this) "axes") scales.2;
  coordinate ← clone fuel (coordinateOption this) axes.2;
  tooltip ← clone fuel (getp (options this) "tooltip") coordinate.2;
  legends ← clone fuel (getp (options this) "legends") tooltip.2;
  let h := legends.2 in
  let sharedOptions :=
    [("data", getp (options this) "data");
     ("scales", scales.1);
     ("axes", axes.1);
     ("coordinate", coordinate.1);
     ("tooltip", tooltip.1);
     ("legends", legends.1);
     ("animate", getp (options this) "animate");
     ("visible", visible this)] in
  let passed := spread sharedOptions (cfgOptions cfg) in
  let emptyData := fresh (dom h) in
  let h := <[emptyData := {| isArray := true; props := [] |}]> h in
  let own := spread [("data", VRef emptyData); ("animate", VBool true)] passed in
  let v := {| options := own;
              coordinateOption := getp own "coordinate";
              visible := cfgVisible cfg;
              views := [] |} in
  Some (v,
        {| options := options this; coordinateOption := coordinateOption this;
           visible := visible this; views := (views this ++ [v])%list |},
        h).

(** The addresses that can be reached from a value by following
    properties. *)
Inductive reach (h : Heap) : Val → nat → Prop :=
| reach_here address : reach h (VRef address) address
| reach_prop address o k value target :
    h !! address = Some o →
    (k, value) ∈ props o →
    reach h value target →
    reach h (VRef address) target.

(** [copy] is a copy of [original], [depth] levels deep: equal
    primitives, and objects with the same keys whose values are copies. *)
Fixpoint copyOf (depth : nat) (h : Heap) (original : Val) (h' : Heap) (copy : Val) : Prop :=
  match original with
  | VRef a =>
      match depth, copy with
      | S depth, VRef a' =>
          ∃ o o', h !! a = Some o ∧ h' !! a' = Some o'
                  ∧ isArray o = isArray o'
                  ∧ Forall2 (fun p p' => p.1 = p'.1 ∧ copyOf depth h p.2 h' p'.2)
                            (props o) (props o')
      | _, _ => False
      end
  | _ => copy = original
  end.

(** A set of addresses whose objects only refer to addresses of the
    set. *)
Definition closedRegion (h : Heap) (region : gset nat) : Prop :=
  ∀ a, a ∈ region →
    ∃ o, h !! a = Some o ∧ ∀ k b, (k, VRef b) ∈ props o → b ∈ region.

Definition inRegion (region : gset nat) (value : Val) : Prop :=
  match value with
  | VRef a => a ∈ region
  | _ => True
  end.

(** What a successful [clone] returns: the store has only grown, the
    result is a copy of the argument, and whatever the result refers to
    was allocated by the call. *)
Definition cloneResult (fuel : nat) (h : Heap) (original : Val)
    (h' : Heap) (copy : Val) : Prop :=
  h ⊆ h' ∧ copyOf fuel h' original h' copy
  ∧ ∃ region, region ## dom h ∧ closedRegion h' region ∧ inRegion region copy.

(** A value no deeper than [depth]: enough fuel for [clone]. *)
Fixpoint depthWithin (depth : nat) (h : Heap) (value : Val) : Prop :=
  match value with
  | VRef a =>
      match depth with
      | O => False
      | S depth => ∃ o, h !! a = Some o ∧ Forall (λ p, depthWithin depth h p.2) (props o)
      end
  | _ => True
  end.

(** A parent whose data and scale options are objects of the store. *)
Definition sampleHeap : Heap :=
  <[0%nat := {| isArray := true; props := [("0", VRef 1%nat)] |}]>
  (<[1%nat := {| isArray := false; props := [("year", VStr "1991"); ("value", VNum 13)] |}]>
  (<[2%nat := {| isArray := false; props := [("value", VRef 3%nat)] |}]>
  (<[3%nat := {| isArray := false; props := [("min", VNum 0); ("max", VNum 100)] |}]> ∅))).

Definition sampleParent : View :=
  {| options := [("data", VRef 0%nat); ("animate", VBool true); ("scales", VRef 2%nat)];
     coordinateOption := VUndefined;
     visible := VBool true;
     views := [] |}.

Definition noCfg : ViewCfg := {| cfgVisible := VUndefined; cfgOptions := [] |}.

End Cloning.

(** ** [View.filterFieldData] *)

Module FieldFilter.
Import Filter.

(** What [get(filters, field)] finds. *)
Inductive Found : Type :=
| Condition (condition : FilterCondition)
| NoCondition
| Other.

Section Lookup.

(** The names under which every object inherits a member: the names of
    the members of [Object.prototype]. *)
Variable inherited : string → bool.

(** [get(filters, field)]: the field name is split at its dots and the
    segments are read one after the other, starting from [filters].
    The first segment finds a filter of [filters] ([filters !! key]), or
    else nothing: the walk then stops with [undefined] ([NoCondition]).
    A further segment would be read off the filter function found.
    What a property of a function is lies outside this model, and so
    does a first segment under which objects inherit a member, which
    [filters] and every datum then answer with: [Other]. *)
Definition getCondition (filters : gmap string FilterCondition) (field : string)
  : Found :=
  match Util.splitDot "" field with
  | [] => Other
  | key :: rest =>
      if inherited key then Other
      else
        match filters !! key with
        | Some condition =>
            match rest with
            | [] => Condition condition
            | _ :: _ => Other
            end
        | None => NoCondition
        end
  end.

(** [View.filterFieldData(field, data)], with [this.options.filters] as
    argument; [None] where [get] finds something other than a filter or
    [undefined]. *)
Definition filterFieldData (filters : gmap string FilterCondition)
    (field : string) (data : list Datum) : option (Outcome (list Datum)) :=
  match getCondition filters field with
  | NoCondition => Some (Ok data)
  | Condition condition =>
      Some (filterArr (fun datum => Ok (condition (prop datum field) datum)) data)
  | Other => None
  end.

End Lookup.

(** Whether a name contains a dot. *)
Fixpoint hasDot (name : string) : bool :=
  match name with
  | EmptyString => false
  | String c rest => Ascii.eqb c "."%char || hasDot rest
  end.

(** The part of a name before its first dot. *)
Definition firstSegment (name : string) : string :=
  match Util.splitDot "" name with
  | key :: _ => key
  | [] => ""
  end.

(** The members of [Object.prototype]: those of the language standard,
    with its legacy accessors. *)
Definition objectPrototypeNames : list string :=
  ["constructor"; "hasOwnProperty"; "isPrototypeOf"; "propertyIsEnumerable";
   "toLocaleString"; "toString"; "valueOf"; "__proto__";
   "__defineGetter__"; "__defineSetter__"; "__lookupGetter__"; "__lookupSetter__"].

Definition onObjectPrototype (name : string) : bool :=
  existsb (String.eqb name) objectPrototypeNames.

End FieldFilter.

(** ** [View.calculateViewBBox] *)

Module ViewBox.
Import Coord.

(** [new BBox(x, y, width, height)] ([util/bbox.ts] is not among the
    sources): the four numbers it is built from. *)
Record BBox : Type := {
  bx : Q;
  by_ : Q;
  width : Q;
  height : Q;
}.

(** [Region]: the corners of the view, as fractions of its parent. *)
Record Region : Type := {
  start : Point;
  end_ : Point;
}.

(** The [region] a view gets when its configuration gives none. *)
Definition wholeRegion : Region :=
  {| start := {| x := 0; y := 0 |}; end_ := {| x := 1; y := 1 |} |}.

(** [calculateViewBBox()]: [parent] is the parent's [coordinateBBox]
    when there is a parent; the canvas size is used otherwise.  The
    result is assigned to [viewBBox] and to [coordinateBBox]. *)
Definition calculateViewBBox (parent : option BBox) (canvasWidth canvasHeight : Q)
    (region : Region) : BBox :=
  let '(x_, y_, width_, height_) :=
    match parent with
    | Some bbox => (bx bbox, by_ bbox, width bbox, height bbox)
    | None => (0, 0, canvasWidth, canvasHeight)%Q
    end in
  {| bx := (x_ + width_ * x (start region))%Q;
     by_ := (y_ + height_ * y (start region))%Q;
     width := (width_ * (x (end_ region) - x (start region)))%Q;
     height := (height_ * (y (end_ region) - y (start region)))%Q |}.

(** Two boxes with equal numbers. *)
Definition sameBox (a b : BBox) : Prop :=
  (bx a == bx b ∧ by_ a == by_ b ∧ width a == width b ∧ height a == height b)%Q.

(** [inner] starts at or after the origin of [outer], and is neither
    wider nor higher than it. *)
Definition placedIn (inner outer : BBox) : Prop :=
  (bx outer <= bx inner ∧ by_ outer <= by_ inner
   ∧ 0 <= width inner ∧ width inner <= width outer
   ∧ 0 <= height inner ∧ height inner <= height outer)%Q.

(** A region inside the unit square, with its start before its end. *)
Definition properRegion (region : Region) : Prop :=
  (0 <= x (start region) ∧ x (start region) <= x (end_ region) ∧ x (end_ region) <= 1
   ∧ 0 <= y (start region) ∧ y (start region) <= y (end_ region) ∧ y (end_ region) <= 1)%Q.

End ViewBox.

(** ** [util/graphics.ts] *)

Module Graphics.
Import Coord.

Record PointsBox : Type := {
  minX : Q;
  maxX : Q;
  minY : Q;
  maxY : Q;
  centerX : Q;
  centerY : Q;
}.

(** [a > b] *)
Definition gt (a b : Q) : bool := negb (Qle_bool a b).

(** [a < b] *)
Definition lt (a b : Q) : bool := negb (Qle_bool b a).

(** [getPointsBox(points)]; [None] is the [null] returned for an empty
    array. *)
Definition getPointsBox (points : list Point) : option PointsBox :=
  match points with
  | [] => None
  | first :: _ =>
      let '(minX_, maxX_, minY_, maxY_) :=
        foldl
          (fun '(minX_, maxX_, minY_, maxY_) point =>
             (if gt minX_ (x point) then x point else minX_,
              if lt maxX_ (x point) then x point else maxX_,
              if gt minY_ (y point) then y point else minY_,
              if lt maxY_ (y point) then y point else maxY_))
          (x first, x first, y first, y first) points in
      Some {| minX := minX_; maxX := maxX_; minY := minY_; maxY := maxY_;
              centerX := ((minX_ + maxX_) / 2)%Q;
              centerY := ((minY_ + maxY_) / 2)%Q |}
  end.

(** [getAngle(shapeModel, coordinate)], with [shapeModel.points] as
    argument: the pair of [startAngle] and [endAngle]. *)
Definition getAngle (points : list Point) (coordinate : Coordinate) : Outcome (Q * Q) :=
  match getPointsBox points with
  | None => Throw "TypeError: box is null"
  | Some box =>
      let diffAngle := (endAngle coordinate - startAngle coordinate)%Q in
      let '(endAngle_, startAngle_) :=
        if isTransposed coordinate
        then (maxY box * diffAngle, minY box * diffAngle)%Q
        else (maxX box * diffAngle, minX box * diffAngle)%Q in
      Ok ((startAngle_ + startAngle coordinate)%Q, (endAngle_ + startAngle coordinate)%Q)
  end.

(** An argument of [getPolygonCentroid]: a number or an array of
    numbers. *)
Inductive Coordinates : Type :=
| Single (value : Q)
| Many (values : list Q).

(** Arithmetic on numbers that may be [NaN] ([None]): reading an array
    past its end gives [undefined], and every operation on it [NaN]. *)
Definition lift2 (op : Q → Q → Q) (a b : option Q) : option Q :=
  match a, b with
  | Some a, Some b => Some (op a b)
  | _, _ => None
  end.

(** One round of the [while] loop, for the index [i]; the state is
    [(current, k, x, y)]. *)
Definition centroidStep (xs ys : list Q)
    (state : nat * option Q * option Q * option Q) (i : nat)
  : nat * option Q * option Q * option Q :=
  let '(current, k, x_, y_) := state in
  let former := current in
  let current := i in
  let diff :=
    lift2 Qminus (lift2 Qmult (xs !! former) (ys !! current))
                 (lift2 Qmult (xs !! current) (ys !! former)) in
  (current,
   lift2 Qplus k diff,
   lift2 Qplus x_ (lift2 Qmult (lift2 Qplus (xs !! former) (xs !! current)) diff),
   lift2 Qplus y_ (lift2 Qmult (lift2 Qplus (ys !! former) (ys !! current)) diff)).

(** [x / k], when it is a finite number: not when an operand is [NaN] or
    when [k] is 0. *)
Definition finiteQuotient (a k : option Q) : option Q :=
  match a, k with
  | Some a, Some k => if Qeq_bool k 0 then None else Some (a / k)%Q
  | _, _ => None
  end.

(** [getPolygonCentroid(xs, ys)].  [None] stands for a result that is
    not a pair of finite numbers.  When only one argument is a number
    the loop does not run or reads [undefined], and the result is
    [NaN]. *)
Definition getPolygonCentroid (xs ys : Coordinates) : option (Q * Q) :=
  match xs, ys with
  | Single x_, Single y_ => Some (x_, y_)
  | Many xs, Many ys =>
      let '(_, k, x_, y_) :=
        foldl (centroidStep xs ys)
              (List.length xs - 1, Some 0%Q, Some 0%Q, Some 0%Q)%nat
              (seq 0 (List.length xs)) in
      let k := lift2 Qmult k (Some 3%Q) in
      match finiteQuotient x_ k, finiteQuotient y_ k with
      | Some cx, Some cy => Some (cx, cy)
      | _, _ => None
      end
  | _, _ => None
  end.

End Graphics.

(** ** The tooltip controller: duplicates among tooltip items *)

Module TooltipItems.

(** The values of the four attributes [uniq] compares: strings, numbers
    or [undefined]. *)
Inductive Attr : Type :=
| AUndefined
| ANum (q : Q)
| AStr (s : string).

(** [a === b] *)
Definition strictEq (a b : Attr) : bool :=
  match a, b with
  | AUndefined, AUndefined => true
  | ANum p, ANum q => Qeq_bool p q
  | AStr s, AStr t => String.eqb s t
  | _, _ => false
  end.

Record Item : Type := {
  color : Attr;
  name : Attr;
  value : Attr;
  title : Attr;
}.

(** The condition of [find] in [uniq]. *)
Definition sameItem (subItem item : Item) : bool :=
  strictEq (color subItem) (color item)
  && strictEq (name subItem) (name item)
  && strictEq (value subItem) (value item)
  && strictEq (title subItem) (title item).

(** [uniq(items)]: an item is pushed unless an item already pushed has
    the same colour, name, value and title. *)
Definition uniq (items : list Item) : list Item :=
  foldl
    (fun uniqItems item =>
       match List.find (fun subItem => sameItem subItem item) uniqItems with
       | Some _ => uniqItems
       | None => (uniqItems ++ [item])%list
       end)
    [] items.

(** No two items of the list are the same in the four attributes. *)
Definition distinctItems (items : list Item) : Prop :=
  ∀ i j a b, (i < j)%nat → items !! i = Some a → items !! j = Some b →
             sameItem a b = false.

End TooltipItems.


(** ** [View]: a sequence of canvas events, and the tree of views *)

Module ViewRuns.
Import Coord View.

(** The canvas events of a list, handled one after the other. *)
Definition handleAll (events : list GEvent) (v : View) : View :=
  foldl (fun acc evt => onCanvasEvent evt acc) v events.

(** The last of the events [plot:mouseenter] and [plot:mouseleave] in a
    list of emitted names: [Some true] for an enter, [Some false] for a
    leave, [None] when there is neither. *)
Definition transitionStep (last : Datatypes.option bool) (name : string)
  : Datatypes.option bool :=
  if String.eqb name PLOT_EVENTS_MOUSE_ENTER then Some true
  else if String.eqb name PLOT_EVENTS_MOUSE_LEAVE then Some false
  else last.

Definition lastTransition (names : list string) : Datatypes.option bool :=
  foldl transitionStep None names.

(** The flag [isPreMouseInPlot] is set exactly when the last transition
    the view emitted is an enter. *)
Definition flagAgrees (v : View) : Prop :=
  isPreMouseInPlot v
  = match lastTransition (emittedName <$> emitted v) with
    | Some true => true
    | _ => false
    end.

(** A view and the views below it, parents first. *)
Fixpoint descendants (v : View) : list View :=
  match v with
  | mkView _ _ _ _ _ _ _ _ _ _ views_ _ =>
      v :: concat (List.map descendants views_)
  end.

(** What [clear()] appends to the log of a view. *)
Definition clearEvents : list Emission :=
  [{| emittedName := BEFORE_CLEAR; emittedType := None |};
   {| emittedName := AFTER_CLEAR; emittedType := None |}].

(** The filter conditions of a view are held by a plain object in which
    a field occurs once, or there are none yet ([options.filters] is
    [undefined] or [null]). *)
Definition plainFilters (v : View) : Prop :=
  (∃ props, options v = JObj props)
  ∧ match Util.getProp (options v) "filters" with
    | JObj filters => NoDup filters.*1
    | JUndefined | JNull => True
    | _ => False
    end.

(** [get(this.options, ['filters', field])], for names under which
    objects inherit no member ([inherited] tells the names of the
    members of [Object.prototype]).  Under an inherited name an object
    without such a property answers with the inherited member, which is
    not modelled: [None]. *)
Definition filterOf (inherited : string → bool) (v : View) (field : string)
  : Datatypes.option JsVal :=
  if inherited "filters" || inherited field then None
  else Some (Util.get (options v) ["filters"; field] JUndefined).

End ViewRuns.

(** ** [getReplaceAttrs] of [util/graphics.ts] *)

Module ReplaceAttrs.

(** The attributes of a shape: the own properties of the object
    [shape.attr()] returns.  A property can be present with the value
    [undefined]. *)
Abbreviation Attrs := (gmap string JsVal).

(** [attrs[k]] *)
Definition read (attrs : Attrs) (k : string) : JsVal := default JUndefined (attrs !! k).



End ReplaceAttrs.

(** ** [View.createScale]: the scale definitions of a chain of views *)

Module ScaleDefMerge.
Import Sharing.

(** The definitions configured for [field] on a view and on its
    ancestors, the view's own first: [get(this.options.scales, [field])]
    at each level, as the properties a spread copies. *)
Fixpoint configured (v : View) (field : string) : list (list (string * JsVal)) :=
  spreadProps (Util.get (scales (info v)) [field] JUndefined)
  :: match v with
     | Child _ parent_ => configured parent_ field
     | Root _ => []
     end.

(** The value of the property [name] in the first of the property lists
    that has it. *)
Fixpoint resolve (layers : list (list (string * JsVal))) (name : string) : JsVal :=
  match layers with
  | [] => JUndefined
  | layer :: rest =>
      if bool_decide (name ∈ layer.*1) then Util.lookupProp layer name
      else resolve rest name
  end.

(** Objects have each property once. *)
Definition plainLayers (layers : list (list (string * JsVal))) : Prop :=
  Forall (fun layer => NoDup layer.*1) layers.

End ScaleDefMerge.

(** ** [View.adjustCategoryScaleRange]: the effect on one scale *)

Module CategoryRangeEffect.
Import CategoryRange.

(** The scale after the body of the [each] callback. *)
Definition adjust (v : View) (scale : Scale) : Scale :=
  match adjustedRange v scale with
  | Some range_ => withRange range_ scale
  | None => scale
  end.

End CategoryRangeEffect.

(** ** [ScaleDef], with properties that are present and [undefined]

    An options object can have a property whose value is [undefined]:
    [{ transform: undefined }] is not [{}], for an object spread copies
    the property, and it then hides the one it is spread over.  Here a
    property is absent, or present with a value that can be
    [undefined], and the class is embedded over such options. *)

Module ScaleDefProps.

Abbreviation Input := ScaleDef.Input.

(** A property of an options object: [None] when the object does not
    have it, [Some None] when it has it with the value [undefined]. *)
Definition Slot (A : Type) : Type := option (option A).

Definition absent {A} : Slot A := None.
Definition undefined_ {A} : Slot A := Some None.
Definition present {A} (a : A) : Slot A := Some (Some a).

(** [options.name] *)
Definition read {A} (slot : Slot A) : option A :=
  match slot with
  | Some value => value
  | None => None
  end.

(** The property [name] of [{ ...a, ...b }], from that of [b] and that
    of [a]. *)
Definition over {A} (b a : Slot A) : Slot A :=
  match b with
  | Some _ => b
  | None => a
  end.

(** A tick method after resolution: [() => ticks], a function known by
    its name (a built-in of the library, or one the user supplied), or
    the member every object inherits under a name. *)
Inductive TickFn : Type :=
| ConstantTicks (ticks : list Input)
| NamedTicks (name : string)
| InheritedMember (name : string).

(** The option [tickMethod]: a function or a string. *)
Inductive TickMethodOption : Type :=
| TickFunction (f : TickFn)
| TickName (name : string).

(** [ScaleDefOptions].  A [transform] is a function of the value: the
    index and the array that [Array.map] passes along are not looked
    at. *)
Record ScaleDefOptions : Type := {
  type : Slot string;
  domain : Slot (list Input);
  range : Slot (list Q);
  min : Slot Input;
  max : Slot Input;
  transform : Slot (Input → Input);
  formatter : Slot (Input → nat → string);
  compare : Slot (Input → Input → Q);
  mask : Slot string;
  ticks : Slot (list Input);
  tickMethod : Slot TickMethodOption;
}.

(** [{}] *)
Definition noOptions : ScaleDefOptions :=
  {| type := absent; domain := absent; range := absent; min := absent; max := absent;
     transform := absent; formatter := absent; compare := absent; mask := absent;
     ticks := absent; tickMethod := absent |}.

(** [{ ...a, ...b }] *)
Definition spread (a b : ScaleDefOptions) : ScaleDefOptions :=
  {| type := over (type b) (type a);
     domain := over (domain b) (domain a);
     range := over (range b) (range a);
     min := over (min b) (min a);
     max := over (max b) (max a);
     transform := over (transform b) (transform a);
     formatter := over (formatter b) (formatter a);
     compare := over (compare b) (compare a);
     mask := over (mask b) (mask a);
     ticks := over (ticks b) (ticks a);
     tickMethod := over (tickMethod b) (tickMethod a) |}.

Definition withDomain (d : Slot (list Input)) (o : ScaleDefOptions) : ScaleDefOptions :=
  {| type := type o; domain := d; range := range o; min := min o; max := max o;
     transform := transform o; formatter := formatter o; compare := compare o;
     mask := mask o; ticks := ticks o; tickMethod := tickMethod o |}.

Definition withMinMax (min_ max_ : Slot Input) (o : ScaleDefOptions) : ScaleDefOptions :=
  {| type := type o; domain := domain o; range := range o; min := min_; max := max_;
     transform := transform o; formatter := formatter o; compare := compare o;
     mask := mask o; ticks := ticks o; tickMethod := tickMethod o |}.

Definition withTickMethod (m : TickMethodOption) (o : ScaleDefOptions) : ScaleDefOptions :=
  {| type := type o; domain := domain o; range := range o; min := min o; max := max o;
     transform := transform o; formatter := formatter o; compare := compare o;
     mask := mask o; ticks := ticks o; tickMethod := present m |}.

(** What the wrapper needs from outside: [createScaleByType] of
    [util/scale.ts] and the scales of [@antv/scale] it builds, the date
    and text conversions of the language, [fecha]'s [format], and the
    names of the members every object inherits.  The methods of a scale
    are taken to return, and so are the functions the options hold. *)
Class Scales : Type := {
  (** whether [createScaleByType(type)] returns a scale *)
  creates : string → bool;
  (** the options of the scale it returns *)
  createdOptions : string → ScaleDefOptions;
  (** the options of a scale of the given type after [scale.update(options)],
      from the options it held and the ones passed *)
  updatedOptions : string → ScaleDefOptions → ScaleDefOptions → ScaleDefOptions;
  (** ['getTicks' in scale], and whether the scale has [getFormatter] *)
  hasGetTicks : string → bool;
  hasGetFormatter : string → bool;
  (** [scale.getTicks()], [scale.map(x)] and [scale.getFormatter()] of a
      scale of the given type holding the given options *)
  scaleGetTicks : string → ScaleDefOptions → list Input;
  scaleMap : string → ScaleDefOptions → Input → Q;
  getFormatter : string → ScaleDefOptions → Input → nat → string;
  (** [format(d, mask)], [new Date(d)] and [`${value}`] *)
  fechaFormat : Input → string → string;
  newDate : string → Input;
  toText : Input → string;
  (** the names of the members of [Object.prototype] *)
  inherited : string → bool;
}.

Section Wrapper.
Context `{Scales}.

(** The underlying scale: the type it was created for and the options
    its [getOptions()] answers with. *)
Record Scale : Type := {
  kind : string;
  held : ScaleDefOptions;
}.

(** [createScaleByType(type)], which returns a scale or does not
    return. *)
Definition createScaleByType (type_ : string) : Outcome Scale :=
  if creates type_ then Ok {| kind := type_; held := createdOptions type_ |}
  else Throw "createScaleByType: no scale of this type".

(** [scale.update(options)] *)
Definition Scale_update (options_ : ScaleDefOptions) (scale_ : Scale) : Scale :=
  {| kind := kind scale_;
     held := updatedOptions (kind scale_) (held scale_) options_ |}.

(** The fields of a [ScaleDef]; [scale] and [tickValues] are [undefined]
    until the first [update]. *)
Record t : Type := {
  scale : option Scale;
  options : ScaleDefOptions;
  tickValues : option (list Input);
  field : option string;
}.

Definition withScale (s : Scale) (sd : t) : t :=
  {| scale := Some s; options := options sd;
     tickValues := tickValues sd; field := field sd |}.

Definition withOptions (o : ScaleDefOptions) (sd : t) : t :=
  {| scale := scale sd; options := o;
     tickValues := tickValues sd; field := field sd |}.

Definition withTickValues (l : list Input) (sd : t) : t :=
  {| scale := scale sd; options := options sd;
     tickValues := Some l; field := field sd |}.

(** [this.scale], whose methods cannot be called while it is
    [undefined]. *)
Definition theScale (sd : t) : Outcome Scale :=
  match scale sd with
  | Some s => Ok s
  | None => Throw "TypeError: this.scale is undefined"
  end.

(** [belongTo(...types)]: [args.includes(this.options.type)] *)
Definition belongTo (types : list string) (sd : t) : bool :=
  match read (type (options sd)) with
  | Some type_ => existsb (String.eqb type_) types
  | None => false
  end.

Definition isContinuous (sd : t) : bool :=
  belongTo ["linear"; "log"; "pow"; "sqrt"; "time"] sd.

Definition isCategory (sd : t) : bool :=
  belongTo ["ordinal"; "band"; "point"; "cat"; "category"; "timeCat"] sd.

Definition isIdentity (sd : t) : bool := belongTo ["identity"] sd.

(** [getOptions()]: [{ ...scaleOptions, ...this.options }] *)
Definition getOptions (sd : t) : Outcome ScaleDefOptions :=
  s ← theScale sd;
  Ok (spread (held s) (options sd)).

(** [updateScaleType(updateOptions)]: [if (!type) return;] returns for
    [undefined] and for the empty string. *)
Definition updateScaleType (updateOptions : ScaleDefOptions) (sd : t) : Outcome t :=
  match read (type updateOptions) with
  | None => Ok sd
  | Some type_ =>
      if String.eqb type_ "" then Ok sd
      else if bool_decide (Some type_ = read (type (options sd))) then Ok sd
      else s ← createScaleByType type_; Ok (withScale s sd)
  end.

(** [(d) => (typeof d === 'string' ? new Date(d) : d)] *)
Definition dateTransform (d : Input) : Input :=
  match d with
  | ScaleDef.Str s => newDate s
  | other => other
  end.

(** [getDefaultOptions()] *)
Definition getDefaultOptions (sd : t) : Outcome ScaleDefOptions :=
  if belongTo ["time"] sd then
    s ← theScale sd;
    if hasGetFormatter (kind s) then
      Ok {| type := absent; domain := absent; range := absent; min := absent;
            max := absent;
            transform := present dateTransform;
            formatter := present (getFormatter (kind s) (held s));
            compare := absent; mask := absent; ticks := absent; tickMethod := absent |}
    else Throw "TypeError: this.scale.getFormatter is not a function"
  else if belongTo ["timeCat"] sd then
    let formatter_ :=
      match read (mask (options sd)) with
      | Some mask_ =>
          if String.eqb mask_ "" then (fun d (_ : nat) => toText d)
          else (fun d (_ : nat) => fechaFormat d mask_)
      | None => (fun d (_ : nat) => toText d)
      end in
    let compare_ (a b : Input) : Q :=
      match a, b with
      | ScaleDef.Date ta, ScaleDef.Date tb => (ta - tb)%Q
      | _, _ => 0%Q
      end in
    Ok {| type := absent; domain := absent; range := absent; min := absent;
          max := absent;
          transform := present dateTransform;
          formatter := present formatter_;
          compare := present compare_; mask := absent; ticks := absent;
          tickMethod := absent |}
  else
    Ok {| type := absent; domain := absent; range := absent; min := absent;
          max := absent;
          transform := present (fun d => d);
          formatter := absent;
          compare := absent; mask := absent; ticks := absent; tickMethod := absent |}.

(** [updateOptions(updateOptions)] *)
Definition updateOptions (updateOptions_ : ScaleDefOptions) (sd : t) : Outcome t :=
  let sd := withOptions (spread (options sd) updateOptions_) sd in
  defaultOptions ← getDefaultOptions sd;
  Ok (withOptions (spread defaultOptions (options sd)) sd).

(** [transform(x)], with the value read off the options. *)
Definition call (transform_ : option (Input → Input)) (x : Input) : Outcome Input :=
  match transform_ with
  | Some f => Ok (f x)
  | None => Throw "TypeError: transform is not a function"
  end.

(** [generateDomain(updateOptions)].  Without [updateOptions.domain] the
    array written to is the one [getOption('domain')] returned, that is
    [this.options.domain] itself when the options have one: the second
    component is [this.options] after the writes.  [last] is computed
    before the writes; index [-1] is no element of an array. *)
Definition generateDomain (updateOptions_ : ScaleDefOptions) (sd : t)
  : Outcome (list Input * ScaleDefOptions) :=
  all ← getOptions sd;
  let transform_ := read (transform all) in
  '(array, own) ←
    (match read (domain updateOptions_) with
     | Some domain_ =>
         match transform_ with
         | Some f => Ok (f <$> domain_, false)
         | None => Throw "TypeError: undefined is not a function"
         end
     | None =>
         match read (domain all) with
         | Some stored =>
             Ok (stored, match read (domain (options sd)) with
                         | Some _ => true
                         | None => false
                         end)
         | None => Throw "TypeError: transformedDomain is undefined"
         end
     end : Outcome (list Input * bool));
  let last := List.length array in
  afterMin ←
    (if ScaleDef.truthyInput (read (min updateOptions_))
     then x ← call transform_ (default (ScaleDef.Num 0) (read (min updateOptions_)));
          Ok (ScaleDef.writeFirst x array)
     else Ok array : Outcome (list Input));
  afterMax ←
    (if ScaleDef.truthyInput (read (max updateOptions_))
     then x ← call transform_ (default (ScaleDef.Num 0) (read (max updateOptions_)));
          Ok match last with
             | O => afterMin
             | S last_ => ScaleDef.writeAt last_ x afterMin
             end
     else Ok afterMin : Outcome (list Input));
  Ok (afterMax,
      if (own : bool) then withDomain (present afterMax) (options sd) else options sd).

(** [generateTickMethod()].  The two tables are objects: under a name
    that is none of their keys they answer with the member objects
    inherit under it, if there is one. *)
Definition generateTickMethod (sd : t) : TickFn :=
  let nameTickMethod (name : string) : option TickFn :=
    if String.eqb name "d3-ticks" then Some (NamedTicks "d3Ticks")
    else if String.eqb name "wilkinson-extended" then Some (NamedTicks "wilkinsonExtended")
    else if String.eqb name "r-pretty" then Some (NamedTicks "rPretty")
    else if String.eqb name "strick-count" then Some (NamedTicks "strickCount")
    else if String.eqb name "d3-log" then Some (NamedTicks "d3Log")
    else if String.eqb name "d3-time" then Some (NamedTicks "d3Time")
    else if inherited name then Some (InheritedMember name)
    else None in
  let typeTickMethod : TickFn :=
    match read (type (options sd)) with
    | Some type_ =>
        if String.eqb type_ "log" then NamedTicks "d3Log"
        else if String.eqb type_ "time" then NamedTicks "d3Time"
        else if inherited type_ then InheritedMember type_
        else NamedTicks "d3Ticks"
    | None => NamedTicks "d3Ticks"
    end in
  match read (ticks (options sd)) with
  | Some ticks_ => ConstantTicks ticks_
  | None =>
      match read (tickMethod (options sd)) with
      | Some (TickFunction f) => f
      | Some (TickName name) =>
          match nameTickMethod name with
          | Some f => f
          | None => typeTickMethod
          end
      | None => typeTickMethod
      end
  end.

(** [updateScaleOptions(updateOptions)] *)
Definition updateScaleOptions (updateOptions_ : ScaleDefOptions) (sd : t) : Outcome t :=
  generated ← generateDomain updateOptions_ sd;
  let sd := withOptions generated.2 sd in
  let options_ :=
    withTickMethod (TickFunction (generateTickMethod sd))
                   (withDomain (present generated.1) (options sd)) in
  s ← theScale sd;
  Ok (withScale (Scale_update options_ s) sd).

(** [updateExtent()]: [this.options.max = max; this.options.min = min],
    where [domain[0]] of an empty array is [undefined]. *)
Definition updateExtent (sd : t) : Outcome t :=
  if negb (isContinuous sd) then Ok sd
  else
    all ← getOptions sd;
    match read (domain all) with
    | None => Throw "TypeError: domain is undefined"
    | Some domain_ =>
        Ok (withOptions (withMinMax (Some (head domain_)) (Some (last domain_))
                                    (options sd)) sd)
    end.

(** [calculateTickValues()]: the ticks of the scale, or its [domain],
    which can be [undefined]. *)
Definition calculateTickValues (sd : t) : Outcome (option (list Input)) :=
  s ← theScale sd;
  if hasGetTicks (kind s) then Ok (Some (scaleGetTicks (kind s) (held s)))
  else Ok (read (domain (held s))).

(** [updateTicks()] *)
Definition updateTicks (sd : t) : Outcome t :=
  all ← getOptions sd;
  tickValues_ ← calculateTickValues sd;
  match tickValues_ with
  | None => Throw "TypeError: tickValues is undefined"
  | Some values =>
      match read (transform all) with
      | Some f => Ok (withTickValues (f <$> values) sd)
      | None => Throw "TypeError: undefined is not a function"
      end
  end.

(** [update(updateOptions)] *)
Definition update (updateOptions_ : ScaleDefOptions) (sd : t) : Outcome t :=
  sd ← updateScaleType updateOptions_ sd;
  sd ← updateOptions updateOptions_ sd;
  sd ← updateScaleOptions updateOptions_ sd;
  sd ← updateExtent sd;
  updateTicks sd.

(** The fields of the class before the constructor body runs. *)
Definition blank : t :=
  {| scale := None; options := noOptions; tickValues := None; field := None |}.

(** [{ type: 'identity', ...options }] *)
Definition initial (options_ : ScaleDefOptions) : ScaleDefOptions :=
  spread {| type := present "identity"; domain := absent; range := absent;
            min := absent; max := absent; transform := absent;
            formatter := absent; compare := absent; mask := absent;
            ticks := absent; tickMethod := absent |}
         options_.

(** [new ScaleDef(options, field)]:
    [this.update({ type: 'identity', ...options }); this.field = field] *)
Definition new (options_ : ScaleDefOptions) (field_ : option string) : Outcome t :=
  sd ← update (initial options_) blank;
  Ok {| scale := scale sd; options := options sd;
        tickValues := tickValues sd; field := field_ |}.

(** [getText(value, index)] *)
Definition getText (sd : t) (value : Input) (index : nat) : string :=
  match read (formatter (options sd)) with
  | Some formatter_ => formatter_ value index
  | None => toText value
  end.

(** [map(v)] *)
Definition map (sd : t) (v : Input) : Outcome Q :=
  let transform_ := default (fun x => x) (read (transform (options sd))) in
  let input := transform_ v in
  s ← theScale sd;
  Ok (scaleMap (kind s) (held s) input).

(** One entry of [getTicks()]. *)
Record Tick : Type := {
  text : string;
  tickValue : Input;
  value : Q;
}.

Fixpoint ticksFrom (sd : t) (index : nat) (values : list Input) : Outcome (list Tick) :=
  match values with
  | [] => Ok []
  | value_ :: rest =>
      mapped ← map sd value_;
      others ← ticksFrom sd (S index) rest;
      Ok ({| text := getText sd value_ index; tickValue := value_; value := mapped |}
            :: others)
  end.

(** [getTicks()] *)
Definition getTicks (sd : t) : Outcome (list Tick) :=
  match tickValues sd with
  | Some values => ticksFrom sd 0 values
  | None => Throw "TypeError: this.tickValues is undefined"
  end.

(** Every scale [createScaleByType] returns has a domain, as the scales
    of [@antv/scale] do, and has one after an update that passes one;
    and its time scale has [getFormatter]. *)
Definition wellBuilt : Prop :=
  (∀ type_, creates type_ = true → is_Some (read (domain (createdOptions type_))))
  ∧ (∀ type_ held_ passed, is_Some (read (domain passed)) →
       is_Some (read (domain (updatedOptions type_ held_ passed))))
  ∧ hasGetFormatter "time" = true.

(** Neither the [type] nor the [tickMethod] of the options is the name
    of a member that objects inherit. *)
Definition plainNames (options_ : ScaleDefOptions) : Prop :=
  (∀ type_, read (type options_) = Some type_ → inherited type_ = false)
  ∧ (∀ name, read (tickMethod options_) = Some (TickName name) →
             inherited name = false).

(** The state a [ScaleDef] is in between two updates: it holds a scale
    that has a domain; its options have a transform, and no [domain]
    that is [undefined]; when they name a type, the scale is of that
    type; and they name no member that objects inherit. *)
Definition constructed (sd : t) : Prop :=
  ∃ s f,
    scale sd = Some s
    ∧ is_Some (read (domain (held s)))
    ∧ transform (options sd) = present f
    ∧ domain (options sd) ≠ undefined_
    ∧ (∀ type_, read (type (options sd)) = Some type_ → type_ ≠ "" → kind s = type_)
    ∧ plainNames (options sd).

(** Options that pass no [transform] or [domain] that is [undefined],
    name no type for which no scale is built, and name no member that
    objects inherit. *)
Definition accepted (updateOptions_ : ScaleDefOptions) : Prop :=
  transform updateOptions_ ≠ undefined_
  ∧ domain updateOptions_ ≠ undefined_
  ∧ (∀ type_, read (type updateOptions_) = Some type_ → type_ ≠ "" →
              creates type_ = true)
  ∧ plainNames updateOptions_.

(** [getOption('domain')] *)
Definition domainOf (sd : t) : option (list Input) :=
  match getOptions sd with
  | Ok all => read (domain all)
  | Throw _ => None
  end.

End Wrapper.

(** Scales over a numeric domain, for every type name but [nominal]:
    built with the domain [0, 1]; [update] merges the options passed
    over the ones held; [map] interpolates between the ends of a
    two-point domain, and [getTicks()] answers with the domain. *)
Definition linearScales : Scales := {|
  creates := fun type_ => negb (String.eqb type_ "nominal");
  createdOptions := fun _ =>
    withDomain (present [ScaleDef.Num 0; ScaleDef.Num 1]) noOptions;
  updatedOptions := fun _ held_ passed => spread held_ passed;
  hasGetTicks := fun _ => true;
  hasGetFormatter := fun type_ => String.eqb type_ "time";
  scaleGetTicks := fun _ options_ => default [] (read (domain options_));
  scaleMap := fun _ options_ x =>
    match read (domain options_), x with
    | Some [ScaleDef.Num d0; ScaleDef.Num d1], ScaleDef.Num v => ((v - d0) / (d1 - d0))%Q
    | _, _ => 0%Q
    end;
  getFormatter := fun _ _ _ _ => "";
  fechaFormat := fun _ _ => "";
  newDate := fun _ => ScaleDef.Date 0;
  toText := fun value_ => match value_ with ScaleDef.Str s => s | _ => "" end;
  inherited := FieldFilter.onObjectPrototype;
|}.

(** A linear scale definition between two updates. *)
Definition linearSample : t :=
  {| scale := Some {| kind := "linear";
                      held := withDomain (present [ScaleDef.Num 5; ScaleDef.Num 10])
                                         noOptions |};
     options := {| type := present "linear";
                   domain := present [ScaleDef.Num 5; ScaleDef.Num 10];
                   range := absent; min := present (ScaleDef.Num 5);
                   max := present (ScaleDef.Num 10);
                   transform := present (fun d => d); formatter := absent;
                   compare := absent; mask := absent; ticks := absent;
                   tickMethod := absent |};
     tickValues := Some [ScaleDef.Num 5; ScaleDef.Num 10];
     field := None |}.

(** [{ min: 0 }], [{ type: 'time' }] and [{ transform: undefined }] *)
Definition minZero : ScaleDefOptions :=
  withMinMax (present (ScaleDef.Num 0)) absent noOptions.

Definition toTime : ScaleDefOptions :=
  {| type := present "time"; domain := absent; range := absent; min := absent;
     max := absent; transform := absent; formatter := absent; compare := absent;
     mask := absent; ticks := absent; tickMethod := absent |}.

Definition transformUndefined : ScaleDefOptions :=
  {| type := absent; domain := absent; range := absent; min := absent;
     max := absent; transform := undefined_; formatter := absent; compare := absent;
     mask := absent; ticks := absent; tickMethod := absent |}.

End ScaleDefProps.

(** ** [View.createView]: options passed in the configuration *)

Module CreateViewCfg.
Import Cloning.

(** The options that [initOptions()] reads: for every entry of them the
    constructor of a view creates a geometry, an interaction, a child
    view or an annotation. *)
Definition initOptionNames : list string :=
  ["geometries"; "interactions"; "views"; "annotations"].

(** The options have none of these properties, so that [initOptions()]
    runs over four empty arrays. *)
Definition nothingToCreate (options_ : list (string * Val)) : bool :=
  forallb (fun name => bool_decide (name ∉ options_.*1)) initOptionNames.

(** [createView(cfg)] for a child whose [initOptions()] has nothing to
    create.  A child with one of the four options builds geometries,
    interactions, views or annotations of its own, which are not
    modelled here: the answer is then [None], as it is when [clone]
    runs out of fuel. *)
Definition createView (fuel : nat) (cfg : ViewCfg) (this : View) (h : Heap)
  : option (View * View * Heap) :=
  created ← Cloning.createView fuel cfg this h;
  if nothingToCreate (options created.1.1) then Some created else None.


End CreateViewCfg.

(** ** The tooltip controller: one title per tooltip *)

Module TooltipTitle.
Import TooltipItems.

(** A tooltip item with the [x] and [y] that [getTooltipItems] sets on
    it from its mapping data. *)
Record Placed : Type := {
  item : Item;
  ix : Q;
  iy : Q;
}.

Section Nearest.

(** [vec2.distance] of [@antv/matrix-util]. *)
Variable distance : Q * Q → Q * Q → Q.

(** [a.title === b.title] *)
Definition sameTitle (a b : Placed) : bool :=
  strictEq (title (item a)) (title (item b)).

(** The [forEach] that looks for the nearest item: the state is
    [nearestItem] and [nearestDistance], which starts at [Infinity]
    ([None]). *)
Definition nearest (point : Q * Q) (first : Placed) (items : list Placed) : Placed :=
  (foldl
     (fun '(nearestItem, nearestDistance) it =>
        let d := distance point (ix it, iy it) in
        if match nearestDistance with
           | None => true
           | Some bound => negb (Qle_bool bound d)
           end
        then (it, Some d)
        else (nearestItem, nearestDistance))
     (first, None) items).1.

(** The end of [getTooltipItems(point)], from [if (items.length)] on. *)
Definition keepOneTitle (point : Q * Q) (items : list Placed) : list Placed :=
  match items with
  | [] => []
  | first :: _ =>
      if negb (forallb (fun it => sameTitle it first) items) then
        let nearestItem := nearest point first items in
        List.filter (fun it => sameTitle it nearestItem) items
      else items
  end.

End Nearest.

End TooltipTitle.
(* ================================================================== *)
(** * Theorems *)
(* ================================================================== *)

(** ** [View.filterData] *)

Section FilterFacts.
Import Filter.
Implicit Types (filters : gmap string FilterCondition) (datum : Datum).

Lemma filter_passes_empty (data : list Datum) : filter (passes ∅) data = data.
Proof.
  induction data as [|row data IH]; [done|].
  rewrite filter_cons_True by apply map_Forall_empty. by rewrite IH.
Qed.

Lemma every_entries filters datum (entries : list (string * FilterCondition)) :
  (∀ f c, (f, c) ∈ entries → filters !! f = Some c) →
  every (callCondition filters datum) entries.*1
  = Ok (bool_decide (Forall (fun fc => fc.2 (prop datum fc.1) datum = true) entries)).
Proof.
  induction entries as [|[f c] entries IH]; intros Hin.
  - done.
  - assert (callCondition filters datum f = Ok (c (prop datum f) datum)) as Hcall.
    { unfold callCondition. by rewrite (Hin f c) by left. }
    rewrite fmap_cons. cbn [every fst]. rewrite Hcall. cbn [mbind Outcome_bind].
    destruct (c (prop datum f) datum) eqn:Hc.
    + rewrite IH by (intros; apply Hin; by right).
      f_equal. apply bool_decide_ext. rewrite Forall_cons. simpl. tauto.
    + f_equal. symmetry. apply bool_decide_eq_false_2.
      rewrite Forall_cons. simpl. intros [? _]. congruence.
Qed.

Lemma every_keys filters datum :
  every (callCondition filters datum) (keys filters)
  = Ok (bool_decide (passes filters datum)).
Proof.
  unfold keys. rewrite every_entries.
  - f_equal. apply bool_decide_ext. unfold passes.
    rewrite map_Forall_to_list. apply Forall_iff. by intros [f c].
  - intros f c. apply elem_of_map_to_list.
Qed.

Lemma filterArr_filter filters (data : list Datum) :
  filterArr (fun datum => every (callCondition filters datum) (keys filters)) data
  = Ok (filter (passes filters) data).
Proof.
  induction data as [|row data IH]; simpl; [done|].
  rewrite every_keys, IH. simpl. f_equal.
  rewrite filter_cons.
  case_decide; [rewrite bool_decide_eq_true_2|rewrite bool_decide_eq_false_2]; done.
Qed.

(** With the filter on [year] three of the four rows remain, in order;
    without a filter the data is returned as it is. *)
Example filterData_sample :
  filterData {["year" := not1991]} sampleData
  = Ok [row "1992" 34; row "1993" 5; row "1994" 34]
  ∧ filterData ∅ sampleData = Ok sampleData.
Proof. split; vm_compute; reflexivity. Qed.

(** C1. [filterData] keeps exactly the rows that every configured predicate
    accepts (its argument being the row's value for the predicate's field
    and the row), in input order; the result is a sub-list of the input,
    of at most the same length, and is the input itself when no filter is
    configured. *)
Theorem filterData_keeps_passing_rows filters (data : list Datum) :
  ∃ rows : list Datum,
    filterData filters data = Ok rows
    ∧ rows = filter (passes filters) data
    ∧ (∀ row, row ∈ rows ↔ row ∈ data ∧
         ∀ field condition, filters !! field = Some condition →
                            condition (prop row field) row = true)
    ∧ rows `sublist_of` data
    ∧ (List.length rows ≤ List.length data)%nat
    ∧ (filters = ∅ → rows = data).
Proof.
  exists (filter (passes filters) data).
  assert (Hrun : filterData filters data = Ok (filter (passes filters) data)).
  { unfold filterData. destruct (Nat.eqb_spec (size filters) 0) as [Hz|Hnz].
    - apply map_size_empty_inv in Hz. subst filters.
      by rewrite filter_passes_empty.
    - apply filterArr_filter. }
  split; [exact Hrun|]. split; [reflexivity|]. split; [|split; [|split]].
  - intros row. rewrite list_elem_of_filter. unfold passes, map_Forall. tauto.
  - apply sublist_filter.
  - apply length_filter.
  - intros ->. apply filter_passes_empty.
Qed.

End FilterFacts.

(** ** Coordinate containment *)

Section CoordFacts.
Import Coord.

Lemma isBetween_iff (value a b : Q) :
  isBetween value a b = true ↔ (Qmin a b <= value ∧ value <= Qmax a b)%Q.
Proof.
  unfold isBetween. rewrite andb_true_iff, !Qle_bool_iff. tauto.
Qed.

Lemma isBetween_unit (value : Q) :
  isBetween value 0 1 = true ↔ (0 <= value ∧ value <= 1)%Q.
Proof. apply isBetween_iff. Qed.

(** C6. For a coordinate of type ['theta'], [isPointInCoordinate] holds
    exactly when the point's x lies between [start.x] and [end.x] and its
    y between [start.y] and [end.y]; for any other type, exactly when the
    inverse-mapped point has both coordinates in [0,1].  On the
    rectangular coordinate over the pixel box (0,0)-(100,100) the point
    (150,150) is outside and the point (50,50) inside, whether the box is
    given by its corners (0,0) and (100,100) or, as the view does, by its
    bottom-left and top-right corners (0,100) and (100,0). *)
Theorem isPointInCoordinate_containment (c : Coordinate) (p : Point) :
  (isPointInCoordinate (Some c) p = true ↔
     (type c = "theta"
      ∧ (Qmin (x (start c)) (x (end_ c)) <= x p ∧ x p <= Qmax (x (start c)) (x (end_ c)))%Q
      ∧ (Qmin (y (start c)) (y (end_ c)) <= y p ∧ y p <= Qmax (y (start c)) (y (end_ c)))%Q)
     ∨ (type c ≠ "theta"
        ∧ (0 <= x (invert c p) ∧ x (invert c p) <= 1)%Q
        ∧ (0 <= y (invert c p) ∧ y (invert c p) <= 1)%Q))
  ∧ isPointInCoordinate (Some (rect {| x := 0; y := 0 |} {| x := 100; y := 100 |}))
                        {| x := 150; y := 150 |} = false
  ∧ isPointInCoordinate (Some (rect {| x := 0; y := 0 |} {| x := 100; y := 100 |}))
                        {| x := 50; y := 50 |} = true
  ∧ isPointInCoordinate (Some (rect {| x := 0; y := 100 |} {| x := 100; y := 0 |}))
                        {| x := 150; y := 150 |} = false
  ∧ isPointInCoordinate (Some (rect {| x := 0; y := 100 |} {| x := 100; y := 0 |}))
                        {| x := 50; y := 50 |} = true.
Proof.
  split; [|repeat split; reflexivity].
  unfold isPointInCoordinate.
  destruct (String.eqb_spec (type c) "theta") as [Htheta|Hother].
  - rewrite andb_true_iff, !isBetween_iff. split.
    + intros [Hx Hy]. left. auto.
    + intros [(_ & Hx & Hy)|(Hne & _)]; [auto|contradiction].
  - rewrite andb_true_iff, !isBetween_unit. split.
    + intros [Hx Hy]. right. auto.
    + intros [(Heq & _)|(_ & Hx & Hy)]; [contradiction|auto].
Qed.

End CoordFacts.

(** ** The view before a render pass and after [clear()] *)

Section ViewCoordinateFacts.
Import Coord.

Variable getFacet : string → option (JsVal → View.Facet).
Variable inheritedOrRegistered : list string.

Lemma coordinateInstance_scale field scaleOption v :
  View.coordinateInstance (View.scale field scaleOption v) = View.coordinateInstance v.
Proof.
  destruct field; try reflexivity. simpl.
  revert v. induction props as [|[k o] props IH]; intros v; simpl; [done|].
  by rewrite IH.
Qed.

Lemma coordinateInstance_perform call v :
  View.coordinateInstance (View.perform getFacet inheritedOrRegistered call v)
  = View.coordinateInstance v.
Proof.
  destruct call; simpl; try reflexivity.
  - unfold View.filter. destruct condition; try reflexivity;
      match goal with |- context [if ?b then _ else _] => destruct b end;
      try reflexivity; unfold View.deleteFilter;
      destruct (Util.getProp _ _); reflexivity.
  - destruct field; reflexivity.
  - destruct field; reflexivity.
  - apply coordinateInstance_scale.
  - destruct type_; reflexivity.
  - unfold View.facet. destruct (View.facetInstance v), (getFacet type_); reflexivity.
  - unfold View.option. destruct (View.onPrototype _ _); reflexivity.
Qed.

Lemma coordinateInstance_performAll calls v :
  View.coordinateInstance (View.performAll getFacet inheritedOrRegistered calls v)
  = View.coordinateInstance v.
Proof.
  unfold View.performAll. revert v.
  induction calls as [|call calls IH]; intros v; simpl; [done|].
  by rewrite IH, coordinateInstance_perform.
Qed.

Lemma coordinateInstance_clear v : View.coordinateInstance (View.clear v) = None.
Proof. by destruct v. Qed.

End ViewCoordinateFacts.

(** C10. [isPointInCoordinate] answers [false] for a missing coordinate,
    whatever the point.  Hence [isPointInPlot] answers [false] on a view
    that has been constructed and configured but not rendered, and on a
    view that has just been cleared, whose coordinate instance is
    [undefined] again. *)
Theorem isPointInPlot_false_without_coordinate :
  (∀ point, Coord.isPointInCoordinate None point = false)
  ∧ (∀ getFacet inherited id_ options_ geometries_ views_ calls point,
       View.isPointInPlot
         (View.performAll getFacet inherited calls
            (View.construct id_ options_ geometries_ views_)) point = false)
  ∧ (∀ v point,
       View.coordinateInstance (View.clear v) = None
       ∧ View.isPointInPlot (View.clear v) point = false).
Proof.
  split; [reflexivity|]. split.
  - intros. unfold View.isPointInPlot, View.getCoordinate.
    by rewrite coordinateInstance_performAll.
  - intros v point. unfold View.isPointInPlot, View.getCoordinate.
    by rewrite coordinateInstance_clear.
Qed.

(** ** Plot events *)

Section PlotEventFacts.
Import Coord.

Lemma doPlotEvent_log (e : View.Event) (v : View.View) :
  ∃ added, View.emitted (View.doPlotEvent e v).2 = (View.emitted v ++ added)%list.
Proof.
  unfold View.doPlotEvent.
  repeat match goal with
         | |- context [if ?b then _ else _] => destruct b
         end; simpl; rewrite <- ?app_assoc; try (eexists; reflexivity).
  all: exists []; by rewrite app_nil_r.
Qed.

Lemma doPlotEvent_effect (e : View.Event) (v : View.View) :
  let cur := View.isPointInPlot v {| x := View.ex e; y := View.ey e |} in
  let pre := View.isPreMouseInPlot v in
  let after := (View.doPlotEvent e v).2 in
  View.newlyEmitted v after = View.plotNames (View.etype e) pre cur
  ∧ View.isPreMouseInPlot after = View.plotFlag (View.etype e) pre cur
  ∧ View.coordinateInstance after = View.coordinateInstance v.
Proof.
  intros cur pre after. subst after. unfold View.doPlotEvent, View.plotNames, View.plotFlag.
  fold cur. destruct (View.includes View.ALL_EVENTS (View.etype e)).
  2:{ simpl. split; [|done]. unfold View.newlyEmitted. by rewrite drop_all. }
  subst pre. destruct v as [? ? ? ? ? ? ? pre ? ? ? log].
  destruct (String.eqb_spec (View.etype e) "mousemove") as [->|Hmove];
    [|destruct (String.eqb_spec (View.etype e) "mouseleave") as [->|Hleave]];
    destruct cur, pre; simpl; (split; [|done]);
    unfold View.newlyEmitted; simpl; rewrite <- ?app_assoc;
    first [rewrite drop_app_length | rewrite drop_all]; reflexivity.
Qed.

Lemma occurrences_self name : View.occurrences name [name] = 1%nat.
Proof. unfold View.occurrences. simpl. by rewrite String.eqb_refl. Qed.

Lemma occurrences_plotNames type_ pre cur :
  View.occurrences ("plot:" ++ type_) (View.plotNames type_ pre cur)
  = if View.includes View.ALL_EVENTS type_
       && (cur || String.eqb type_ "mouseleave" && pre)
    then 1%nat else 0%nat.
Proof.
  unfold View.plotNames. destruct (View.includes View.ALL_EVENTS type_); [|done].
  destruct (String.eqb_spec type_ "mousemove") as [->|Hmove];
    [by destruct cur, pre|].
  destruct (String.eqb_spec type_ "mouseleave") as [->|Hleave];
    [by destruct cur, pre|].
  destruct cur; simpl; [|done]. apply occurrences_self.
Qed.

(** C7, as the code has it.  With [pre] the sticky flag before the call
    and [cur] the containment of the event's point: a [mousemove] emits
    [plot:mouseenter] exactly when [pre] is false and [cur] true, emits
    [plot:mouseleave] exactly when [pre] is true and [cur] false, emits
    one of the two exactly when the flag flips, and leaves the flag equal
    to [cur]; a [mouseleave] emits [plot:mouseleave] once when the flag
    was set (or the point is inside) and leaves the flag reset; the
    generic [plot:<type>] event is emitted for a point inside the plot
    when [type] is one of the twelve names of [ALL_EVENTS], and for no
    other type; a raw event whose name has no colon is then re-emitted
    under its own name, and one whose name has a colon is ignored. *)
Theorem doPlotEvent_transitions (v : View.View) (px py : Q) :
  let cur := View.isPointInPlot v {| x := px; y := py |} in
  let pre := View.isPreMouseInPlot v in
  let after type_ :=
    (View.doPlotEvent {| View.etype := type_; View.ex := px; View.ey := py |} v).2 in
  let names type_ := View.newlyEmitted v (after type_) in
  ((In "plot:mouseenter" (names "mousemove") ↔ pre = false ∧ cur = true)
   ∧ (In "plot:mouseleave" (names "mousemove") ↔ pre = true ∧ cur = false)
   ∧ (View.occurrences "plot:mouseenter" (names "mousemove")
      + View.occurrences "plot:mouseleave" (names "mousemove")
      = if xorb pre cur then 1 else 0)%nat
   ∧ View.isPreMouseInPlot (after "mousemove") = cur)
  ∧ (View.occurrences "plot:mouseleave" (names "mouseleave")
       = (if pre || cur then 1 else 0)%nat
     ∧ View.isPreMouseInPlot (after "mouseleave") = false)
  ∧ (∀ type_,
       View.occurrences ("plot:" ++ type_) (names type_)
       = (if View.includes View.ALL_EVENTS type_
             && (cur || String.eqb type_ "mouseleave" && pre)
          then 1 else 0)%nat
       ∧ (View.includes View.ALL_EVENTS type_ = false ∨ cur = false ∨
          In ("plot:" ++ type_) (names type_))
       ∧ (View.includes View.ALL_EVENTS type_ = true ∨
          (names type_ = [] ∧ View.isPreMouseInPlot (after type_) = pre)))
  ∧ (∀ name,
       View.newlyEmitted v
         (View.onCanvasEvent {| View.gname := name; View.gx := px; View.gy := py |} v)
       = if View.includesColon name then [] else (names name ++ [name])%list).
Proof.
  intros cur pre after names.
  assert (Hnames : ∀ type_, names type_ = View.plotNames type_ pre cur).
  { intros type_. subst names after. cbv beta.
    apply (doPlotEvent_effect {| View.etype := type_; View.ex := px; View.ey := py |} v). }
  assert (Hflag : ∀ type_, View.isPreMouseInPlot (after type_) = View.plotFlag type_ pre cur).
  { intros type_. subst after. cbv beta.
    apply (doPlotEvent_effect {| View.etype := type_; View.ex := px; View.ey := py |} v). }
  split; [|split; [|split]].
  - rewrite Hnames, Hflag. destruct pre, cur; vm_compute; intuition congruence.
  - rewrite Hnames, Hflag. by destruct pre, cur.
  - intros type_. rewrite Hnames, Hflag. split; [apply occurrences_plotNames|].
    unfold View.plotNames, View.plotFlag.
    destruct (View.includes View.ALL_EVENTS type_); [|split; [by left|by right]].
    split; [|by left]. destruct cur; [|by right; left].
    right; right. simpl. by left.
  - intros name. unfold View.onCanvasEvent. cbn [View.gname].
    destruct (View.includesColon name); simpl.
    + unfold View.newlyEmitted. by rewrite drop_all.
    + subst names after. cbv beta.
      set (e := View.createViewEvent _).
      change {| View.etype := name; View.ex := px; View.ey := py |} with e.
      destruct (View.doPlotEvent e v) as [e' v'] eqn:Hrun. simpl.
      unfold View.newlyEmitted, View.emit. simpl.
      pose proof (doPlotEvent_log e v) as [added Hadded]. rewrite Hrun in Hadded.
      simpl in Hadded. rewrite Hadded, <- app_assoc, !drop_app_length.
      by rewrite fmap_app.
Qed.

(** C7 fails as stated: a raw [mouseenter] of the canvas at a point inside
    the plot is processed by the view, yet no [plot:mouseenter] is
    emitted for it. *)
Lemma plot_event_not_for_every_raw_type :
  ¬ (∀ (v : View.View) (evt : View.GEvent),
       View.includesColon (View.gname evt) = false →
       View.isPointInPlot v {| x := View.gx evt; y := View.gy evt |} = true →
       In ("plot:" ++ View.gname evt)
          (View.newlyEmitted v (View.onCanvasEvent evt v))).
Proof.
  intros Hall.
  specialize (Hall View.renderedSample
                {| View.gname := "mouseenter"; View.gx := 50; View.gy := 50 |}
                eq_refl eq_refl).
  vm_compute in Hall. intuition congruence.
Qed.

End PlotEventFacts.

(** ** Configuration errors *)

Section ConfigurationErrorFacts.

Lemma withFacetInstance_same v :
  View.withFacetInstance (View.facetInstance v) v = v.
Proof. by destruct v. Qed.

(** C9, as the code has it.  [facet] with a type that has no registered
    constructor, and [option] with a name found on [View.prototype], both
    throw.  Neither changes the options record.  [option] leaves the
    whole view as it was; [facet] has by then destroyed the facet
    installed before, if there was one, and changes nothing else. *)
Theorem configuration_errors_throw
    (getFacet : string → option (JsVal → View.Facet)) (inherited : list string)
    (v : View.View) (type_ : string) (cfg : JsVal) (name : string) (opt : JsVal) :
  getFacet type_ = None →
  View.onPrototype inherited name = true →
  (∃ message,
     (View.facet getFacet type_ cfg v).1 = Throw message
     ∧ View.options (View.facet getFacet type_ cfg v).2 = View.options v
     ∧ (View.facet getFacet type_ cfg v).2
       = View.withFacetInstance (View.Facet_destroy <$> View.facetInstance v) v
     ∧ (View.facetInstance v = None ∨
        View.destroyed <$> View.facetInstance (View.facet getFacet type_ cfg v).2
        = Some true))
  ∧ (∃ message, View.option inherited name opt v = (Throw message, v)).
Proof.
  intros Hfacet Hname. split.
  - unfold View.facet. rewrite Hfacet.
    destruct (View.facetInstance v) as [previous|] eqn:Hprev; simpl.
    + eexists. repeat split. by right.
    + eexists. repeat split; [|by left]. by rewrite <- Hprev, withFacetInstance_same.
  - unfold View.option. rewrite Hname. by eexists.
Qed.

Lemma configuration_errors_throw_witness :
  (∃ message,
     (View.facet (fun _ => None) "spiral" (JObj []) View.facetedSample).1 = Throw message
     ∧ View.options (View.facet (fun _ => None) "spiral" (JObj []) View.facetedSample).2
       = View.options View.facetedSample
     ∧ (View.facet (fun _ => None) "spiral" (JObj []) View.facetedSample).2
       = View.withFacetInstance
           (View.Facet_destroy <$> View.facetInstance View.facetedSample) View.facetedSample
     ∧ (View.facetInstance View.facetedSample = None ∨
        View.destroyed
          <$> View.facetInstance
                (View.facet (fun _ => None) "spiral" (JObj []) View.facetedSample).2
        = Some true))
  ∧ (∃ message,
       View.option [] "data" (JArr []) View.facetedSample = (Throw message, View.facetedSample)).
Proof.
  apply (configuration_errors_throw (fun _ => None) [] View.facetedSample
           "spiral" (JObj []) "data" (JArr [])); reflexivity.
Defined.

(** C9 fails as stated: when a facet is already installed, the failing
    [facet] call has destroyed it by the time it throws. *)
Lemma facet_error_after_partial_mutation :
  ¬ (∀ (getFacet : string → option (JsVal → View.Facet)) v type_ cfg,
       getFacet type_ = None →
       ∃ message, View.facet getFacet type_ cfg v = (Throw message, v)).
Proof.
  intros Hall.
  destruct (Hall (fun _ => None) View.facetedSample "spiral" (JObj []) eq_refl)
    as [message Hrun].
  apply (f_equal (fun r => View.destroyed <$> View.facetInstance r.2)) in Hrun.
  vm_compute in Hrun. congruence.
Qed.

End ConfigurationErrorFacts.

(** ** Range of category scales *)

Section CategoryRangeFacts.
Import Coord CategoryRange.

(** The full-circle test: from -pi to pi is a full circle, from 0 to pi
    is not. *)
Example isFullCircle_scenarios :
  isFullCircle {| type := "polar"; isPolar := true; isTransposed := false;
                  startAngle := - Math_PI; endAngle := Math_PI;
                  start := {| x := 0; y := 0 |}; end_ := {| x := 1; y := 1 |};
                  invert := fun p => p |} = true
  ∧ isFullCircle {| type := "polar"; isPolar := true; isTransposed := false;
                    startAngle := 0; endAngle := Math_PI;
                    start := {| x := 0; y := 0 |}; end_ := {| x := 1; y := 1 |};
                    invert := fun p => p |} = false.
Proof. split; reflexivity. Qed.

(** The branches of the adjustment that do not involve the theme: one
    value gives [0.5, 1]; otherwise a full circle that is not transposed
    gives [0, 1 - 1/n], and a coordinate that is not a full circle gives
    [1/(2n), 1 - 1/(2n)]. *)
Lemma adjustedRange_cases (v : View) (scale : Scale) (values_ : list JsVal) :
  isCategory scale || isIdentity scale = true →
  values scale = Some values_ →
  values_ ≠ [] →
  truthy (Util.get (scales v) [field scale; "range"] JUndefined) = false →
  let n := inject_Z (Z.of_nat (List.length values_)) in
  ∃ lo hi,
    adjustedRange v scale = Some [lo; hi]
    ∧ (List.length values_ = 1%nat → lo == 0.5 ∧ hi == 1)%Q
    ∧ (List.length values_ ≠ 1%nat →
       isFullCircle (coordinateInstance v) = true →
       isTransposed (coordinateInstance v) = false →
       lo == 0 ∧ hi == 1 - 1 / n)%Q
    ∧ (List.length values_ ≠ 1%nat →
       isFullCircle (coordinateInstance v) = false →
       lo == 1 / (2 * n) ∧ hi == 1 - 1 / (2 * n))%Q.
Proof.
  intros Hkind Hvalues Hnonempty Hrange n.
  assert (Hn : ¬ (n == 0)%Q).
  { subst n. destruct values_; [done|]. unfold Qeq. simpl. lia. }
  assert (Hone : Qeq_bool n 1 = true ↔ List.length values_ = 1%nat).
  { rewrite Qeq_bool_iff. subst n. unfold Qeq. simpl. lia. }
  unfold adjustedRange. rewrite Hkind, Hvalues, Hrange. simpl negb. cbv iota.
  fold n. destruct (Qeq_bool n 1) eqn:Hcount.
  - exists 0.5%Q, 1%Q. assert (List.length values_ = 1%nat) by by apply Hone.
    repeat split; try reflexivity; intros; contradiction.
  - assert (Hlen : List.length values_ ≠ 1%nat).
    { intros Heq. apply Hone in Heq. discriminate. }
    destruct (isFullCircle (coordinateInstance v)) eqn:Hfull.
    + destruct (isTransposed (coordinateInstance v)) eqn:Htrans; simpl;
        eexists _, _; (split; [reflexivity|]);
        repeat split; intros; try contradiction; try discriminate; reflexivity.
    + eexists _, _. split; [reflexivity|].
      repeat split; intros; try contradiction; try discriminate; by field.
Qed.

(** Four categories on a coordinate that is not a full circle resolve to
    [0.125, 0.875]; five categories on a full circle that is not
    transposed resolve to [0, 0.8]. *)
Example adjustedRange_scenarios :
  let rectView := {| geometries := []; scales := JUndefined; themeObject := JObj [];
                     coordinateInstance :=
                       rect {| x := 0; y := 100 |} {| x := 100; y := 0 |} |} in
  let polarView := {| geometries := []; scales := JUndefined; themeObject := JObj [];
                      coordinateInstance :=
                        {| type := "polar"; isPolar := true; isTransposed := false;
                           startAngle := - Math_PI; endAngle := Math_PI;
                           start := {| x := 0; y := 100 |}; end_ := {| x := 100; y := 0 |};
                           invert := fun p => p |} |} in
  let category values_ := {| field := "year"; values := Some (JStr <$> values_);
                             isCategory := true; isIdentity := false; range := [] |} in
  (∃ lo hi, adjustedRange rectView (category ["a"; "b"; "c"; "d"]) = Some [lo; hi]
            ∧ (lo == 0.125 ∧ hi == 0.875)%Q)
  ∧ (∃ lo hi, adjustedRange polarView (category ["a"; "b"; "c"; "d"; "e"]) = Some [lo; hi]
              ∧ (lo == 0 ∧ hi == 0.8)%Q).
Proof.
  split; eexists _, _; (split; [reflexivity|]); split; reflexivity.
Qed.

(** C3, the transposed full circle.  The view's theme asks for a width
    ratio of 0.5 for multi-level pies, so that two categories should get
    the offset 0.5/2 and the range [0.125, 0.875]; the adjustment reads
    the ratio from the member [theme], which is the method and not the
    theme record, always falls back to 1/1.3, and assigns
    [5/26, 21/26]. *)
Theorem transposed_range_ignores_theme_ratio :
  Util.get (themeObject pieView) (Util.splitDot "" "widthRatio.multiplePie")
           (JNum (1 / 1.3)%Q) = JNum 0.5%Q
  ∧ isFullCircle (coordinateInstance pieView) = true
  ∧ isTransposed (coordinateInstance pieView) = true
  ∧ ∃ lo hi,
      range <$> (adjustCategoryScaleRange pieView pieStore !! 0%nat) = Some [lo; hi]
      ∧ (lo == 5 # 26 ∧ hi == 21 # 26)%Q
      ∧ ¬ (lo == 0.5 / 2 / 2)%Q
      ∧ ¬ (hi == 1 - 0.5 / 2 / 2)%Q.
Proof.
  split; [reflexivity|]. split; [reflexivity|]. split; [reflexivity|].
  eexists _, _. split; [vm_compute; reflexivity|].
  split; [split; reflexivity|]. split; intros H; vm_compute in H; lia.
Qed.

End CategoryRangeFacts.

(** ** Scale pool sharing *)

Section PoolFacts.
Implicit Types (pool : ScalePool.t) (key field : string).

Lemma pool_createScale_lookup field data scaleDef key pool fresh_ :
  (ScalePool.createScale field data scaleDef key pool fresh_).1.2 !! key
  = Some (ScalePool.createScale field data scaleDef key pool fresh_).1.1.
Proof.
  unfold ScalePool.createScale. destruct (pool !! key); simpl; apply lookup_insert_eq.
Qed.

Lemma pool_createScale_other field data scaleDef key other pool fresh_ :
  other ≠ key →
  (ScalePool.createScale field data scaleDef key pool fresh_).1.2 !! other = pool !! other.
Proof.
  intros Hne. unfold ScalePool.createScale.
  destruct (pool !! key); simpl; by apply lookup_insert_ne.
Qed.

Lemma pool_createScale_oid field data scaleDef key pool fresh_ :
  ScalePool.oid (ScalePool.createScale field data scaleDef key pool fresh_).1.1
  = match pool !! key with
    | Some existing => ScalePool.oid existing
    | None => fresh_
    end.
Proof. unfold ScalePool.createScale. by destruct (pool !! key). Qed.

Lemma pool_createScale_keeps field data scaleDef key other pool fresh_ :
  is_Some (pool !! other) →
  is_Some ((ScalePool.createScale field data scaleDef key pool fresh_).1.2 !! other).
Proof.
  intros Hsome. destruct (decide (other = key)) as [->|Hne].
  - rewrite pool_createScale_lookup. eauto.
  - by rewrite pool_createScale_other.
Qed.

Lemma pool_createScale_ok field data scaleDef key pool fresh_ :
  Sharing.poolOk pool fresh_ →
  Sharing.poolOk (ScalePool.createScale field data scaleDef key pool fresh_).1.2
                 (ScalePool.createScale field data scaleDef key pool fresh_).2.
Proof.
  intros [Hbound Hinj]. unfold ScalePool.createScale.
  destruct (pool !! key) as [existing|] eqn:Hkey; simpl; split.
  - intros k s. rewrite lookup_insert. case_decide; [|by apply Hbound].
    intros [= <-]. simpl. by apply (Hbound key).
  - intros k1 k2 s1 s2 H1 H2 Hoid.
    destruct (decide (k1 = k2)) as [|Hne]; [done|exfalso].
    rewrite lookup_insert in H1. rewrite lookup_insert in H2.
    destruct (decide (key = k1)) as [Hk1|Hk1], (decide (key = k2)) as [Hk2|Hk2];
      simplify_eq; simpl in *.
    + apply Hne. by apply (Hinj _ _ _ _ Hkey H2).
    + apply Hne. by apply (Hinj _ _ _ _ H1 Hkey).
    + apply Hne. by apply (Hinj _ _ _ _ H1 H2).
  - intros k s. rewrite lookup_insert. case_decide.
    + intros [= <-]. simpl. lia.
    + intros Hk. apply Hbound in Hk. lia.
  - intros k1 k2 s1 s2 H1 H2 Hoid.
    destruct (decide (k1 = k2)) as [|Hne]; [done|exfalso].
    rewrite lookup_insert in H1. rewrite lookup_insert in H2.
    destruct (decide (key = k1)) as [Hk1|Hk1], (decide (key = k2)) as [Hk2|Hk2];
      simplify_eq; simpl in *.
    + apply Hbound in H2. lia.
    + apply Hbound in H1. lia.
    + apply Hne. by apply (Hinj _ _ _ _ H1 H2).
Qed.

Lemma poolOk_empty fresh_ : Sharing.poolOk ∅ fresh_.
Proof. split; intros *; by rewrite lookup_empty. Qed.

End PoolFacts.

Section SharingFacts.
Import Sharing.

Lemma getScaleKey_truthy v field : truthy (JStr (getScaleKey v field)) = true.
Proof. unfold getScaleKey. unfold truthy. by destruct (id (info v)). Qed.

Lemma defaultKey_truthy v field key : truthy (JStr (defaultKey v field key)) = true.
Proof.
  unfold defaultKey. destruct key as [k|]; [|apply getScaleKey_truthy].
  destruct (truthy (JStr k)) eqn:Hk; [done|apply getScaleKey_truthy].
Qed.

Lemma defaultKey_passed v p field key :
  defaultKey p field (Some (defaultKey v field key)) = defaultKey v field key.
Proof. unfold defaultKey at 1. by rewrite defaultKey_truthy. Qed.

Lemma defaultKey_explicit v field key :
  key ≠ "" → defaultKey v field (Some key) = key.
Proof.
  intros Hkey. unfold defaultKey. simpl.
  destruct (String.eqb_spec key ""); [done|reflexivity].
Qed.

(** [createScale] on any view is one [createScale] of the root's pool,
    under the key the calling view resolved. *)
Lemma createScale_at_root v field data scaleDef key w :
  ∃ merged,
    createScale v field data scaleDef key w
    = let r := ScalePool.createScale field data merged (defaultKey v field key)
                                     (scalePool (getRootView v) w) (fresh w) in
      (r.1.1, {| pools := <[id (info (getRootView v)) := r.1.2]> (pools w);
                 fresh := r.2 |}).
Proof.
  revert scaleDef key. induction v as [i|i p IH]; intros scaleDef key.
  - exists (View.spread (spreadProps (Util.get (scales i) [field] JUndefined))
                        (spreadProps scaleDef)).
    simpl. by destruct (ScalePool.createScale _ _ _ _ _ _) as [[? ?] ?].
  - simpl.
    destruct (IH (JObj (View.spread
                          (spreadProps (Util.get (scales i) [field] JUndefined))
                          (spreadProps scaleDef)))
                 (Some (defaultKey (Child i p) field key))) as [merged Hrun].
    exists merged. rewrite Hrun, defaultKey_passed. reflexivity.
Qed.

Lemma createScale_spec v field data scaleDef key w :
  let k := defaultKey v field key in
  let r := createScale v field data scaleDef key w in
  let pool := scalePool (getRootView v) w in
  let pool' := scalePool (getRootView v) r.2 in
  pool' !! k = Some r.1
  ∧ (∀ other, other ≠ k → pool' !! other = pool !! other)
  ∧ ScalePool.oid r.1 = match pool !! k with
                        | Some existing => ScalePool.oid existing
                        | None => fresh w
                        end
  ∧ (poolOk pool (fresh w) → poolOk pool' (fresh r.2))
  ∧ (∀ other, is_Some (pool !! other) → is_Some (pool' !! other)).
Proof.
  intros k r pool pool'. subst r pool'.
  destruct (createScale_at_root v field data scaleDef key w) as [merged ->].
  assert (Hpool : ∀ p f,
    scalePool (getRootView v)
      {| pools := <[id (info (getRootView v)) := p]> (pools w); fresh := f |} = p).
  { intros. unfold scalePool. simpl. by rewrite lookup_insert_eq. }
  cbv zeta. cbn [fst snd fresh]. rewrite !Hpool. fold pool k.
  split; [apply pool_createScale_lookup|].
  split; [intros other Hne; by apply pool_createScale_other|].
  split; [apply pool_createScale_oid|].
  split; [apply pool_createScale_ok|].
  intros other. apply pool_createScale_keeps.
Qed.

Lemma append_length (a b : string) :
  String.length (a ++ b) = (String.length a + String.length b)%nat.
Proof. induction a as [|c a IH]; simpl; [done|by rewrite IH]. Qed.

Lemma append_cancel_r (a b suffix : string) :
  (a ++ suffix = b ++ suffix)%string → a = b.
Proof.
  revert b. induction a as [|c a IH]; intros [|d b] Heq; simpl in Heq.
  - done.
  - apply (f_equal String.length) in Heq. simpl in Heq.
    rewrite !append_length in Heq. simpl in Heq. lia.
  - apply (f_equal String.length) in Heq. simpl in Heq.
    rewrite !append_length in Heq. simpl in Heq. lia.
  - injection Heq as -> Heq. f_equal. by apply IH.
Qed.

Lemma getScaleKey_inj v1 v2 field :
  id (info v1) ≠ id (info v2) → getScaleKey v1 field ≠ getScaleKey v2 field.
Proof.
  intros Hid Hkey. apply Hid. unfold getScaleKey in Hkey.
  by apply append_cancel_r in Hkey.
Qed.

Lemma uniqFrom_elem (x : string) (arr seen : list string) :
  x ∈ arr → x ∉ seen → x ∈ uniqFrom seen arr.
Proof.
  revert seen. induction arr as [|item rest IH]; intros seen Hin Hseen; [by inversion Hin|].
  simpl. destruct (decide (x = item)) as [->|Hne].
  - rewrite bool_decide_eq_false_2 by done. by left.
  - assert (x ∈ rest) by (inversion Hin; by subst).
    case_bool_decide; [by apply IH|].
    right. apply IH; [done|]. by intros [->|?]%elem_of_cons.
Qed.

Lemma scaleOf_table (lookup_ : string → option ScalePool.Scale) fields field :
  field ∈ fields →
  scaleOf ((λ f, (f, lookup_ f)) <$> fields) field = lookup_ field.
Proof.
  induction fields as [|f fields IH]; intros Hin; [by inversion Hin|].
  unfold scaleOf. simpl. destruct (String.eqb_spec f field) as [->|Hne]; [done|].
  apply IH. inversion Hin; by subst.
Qed.

Lemma createOrUpdateScales_registers v data filteredData w :
  ∀ field, field ∈ getScaleFields v →
    is_Some (getScaleByField v field None (createOrUpdateScales v data filteredData w)).
Proof.
  unfold createOrUpdateScales, getScaleByField, ScalePool.getScale.
  generalize (getScaleFields v) as fields. intros fields. revert w.
  induction fields as [|f fields IH] using rev_ind; intros w field Hin;
    [by inversion Hin|].
  rewrite foldl_app. simpl.
  set (w1 := foldl _ w fields).
  destruct (createScale_spec v f
              (if View.includes (getGroupedFields v) f then data else filteredData)
              (Util.get (scales (info v)) [f] JUndefined) None w1)
    as (Hreg & _ & _ & _ & Hkeep).
  apply elem_of_app in Hin as [Hin|Hin%list_elem_of_singleton].
  - apply Hkeep. by apply IH.
  - subst field. eexists. apply Hreg.
Qed.

(** C2.  Without an explicit key, [createScale] registers the scale in the
    root view's pool under [`${id}-${field}`], [id] being the calling
    view's; the data pass of a view hands a table of scales to every
    geometry of the view, in their order, and every geometry that uses a
    field holds, for that field, the instance [getScaleByField(field)]
    returns; two views with different ids that create a scale for the
    same field without a key hold two different instances; with a common
    explicit key they hold the same one. *)
Theorem scale_pool_sharing (v1 v2 : View) (field key : string)
    (data filteredData : list (gmap string JsVal)) (def1 def2 : JsVal) (w : World) :
  getRootView v1 = getRootView v2 →
  id (info v1) ≠ id (info v2) →
  key ≠ "" →
  poolOk (scalePool (getRootView v1) w) (fresh w) →
  (let r := createScale v1 field data def1 None w in
   scalePool (getRootView v1) r.2 !! (id (info v1) ++ "-" ++ field)%string = Some r.1
   ∧ getScaleByField v1 field None r.2 = Some r.1)
  ∧ (let r := initGeometries v1 data filteredData w in
     r.1.*1 = geometries (info v1)
     ∧ (∀ g, g ∈ geometries (info v1) → field ∈ View.scaleFields g →
          ∃ t scale, (g, t) ∈ r.1 ∧ scaleOf t field = Some scale
                     ∧ getScaleByField v1 field None r.2 = Some scale)
     ∧ ∀ g1 t1 g2 t2,
         (g1, t1) ∈ r.1 → (g2, t2) ∈ r.1 →
         field ∈ View.scaleFields g1 → field ∈ View.scaleFields g2 →
         ∃ scale, scaleOf t1 field = Some scale ∧ scaleOf t2 field = Some scale
                  ∧ getScaleByField v1 field None r.2 = Some scale)
  ∧ (let r1 := createScale v1 field data def1 None w in
     let r2 := createScale v2 field data def2 None r1.2 in
     getScaleByField v1 field None r2.2 = Some r1.1
     ∧ getScaleByField v2 field None r2.2 = Some r2.1
     ∧ ScalePool.oid r1.1 ≠ ScalePool.oid r2.1)
  ∧ (let r1 := createScale v1 field data def1 (Some key) w in
     let r2 := createScale v2 field data def2 (Some key) r1.2 in
     ScalePool.oid r2.1 = ScalePool.oid r1.1
     ∧ getScaleByField v1 field (Some key) r2.2 = Some r2.1
     ∧ getScaleByField v2 field (Some key) r2.2 = Some r2.1).
Proof.
  intros Hroot Hid Hkey Hok. split; [|split; [|split]].
  - intros r. subst r.
    destruct (createScale_spec v1 field data def1 None w) as (Hreg & _).
    split; exact Hreg.
  - intros r. subst r. unfold initGeometries. cbn [fst snd].
    assert (Hused : ∀ g, g ∈ geometries (info v1) → field ∈ View.scaleFields g →
              ∃ scale,
                scaleOf (getGeometryScales v1
                           (createOrUpdateScales v1 data filteredData w)) field
                = Some scale
                ∧ getScaleByField v1 field None
                    (createOrUpdateScales v1 data filteredData w) = Some scale).
    { intros g Hg Hf.
      assert (Hfield : field ∈ getScaleFields v1).
      { unfold getScaleFields. apply uniqFrom_elem; [|by intros ?%elem_of_nil].
        apply list_elem_of_In, in_concat. exists (View.scaleFields g).
        split; apply list_elem_of_In; [|done].
        apply list_elem_of_fmap. eauto. }
      destruct (createOrUpdateScales_registers v1 data filteredData w field Hfield)
        as [scale Hscale].
      exists scale. unfold getGeometryScales.
      rewrite (scaleOf_table
                 (λ f, getScaleByField v1 f None
                         (createOrUpdateScales v1 data filteredData w))) by done.
      auto. }
    split; [|split].
    + rewrite <- list_fmap_compose. apply list_fmap_id.
    + intros g Hg Hf. destruct (Hused g Hg Hf) as (scale & Htable & Hscale).
      eexists _, scale. split; [|done].
      apply list_elem_of_fmap. by exists g.
    + intros g1 t1 g2 t2 H1 H2 Hf1 Hf2.
      apply list_elem_of_fmap in H1 as (g1' & [= -> ->] & Hg1).
      apply list_elem_of_fmap in H2 as (g2' & [= -> ->] & Hg2).
      destruct (Hused g1' Hg1 Hf1) as (scale & Htable & Hscale).
      exists scale. auto.
  - intros r1 r2. subst r1 r2.
    destruct (createScale_spec v1 field data def1 None w)
      as (Hreg1 & _ & _ & Hok1 & _).
    destruct (createScale_spec v2 field data def2 None
                (createScale v1 field data def1 None w).2)
      as (Hreg2 & Hother2 & Hoid2 & _ & _).
    specialize (Hok1 Hok). destruct Hok1 as [Hbound Hinj].
    rewrite <- Hroot in Hreg2, Hother2, Hoid2.
    assert (Hkeys : getScaleKey v1 field ≠ getScaleKey v2 field)
      by by apply getScaleKey_inj.
    cbn [defaultKey] in *.
    specialize (Hother2 (getScaleKey v1 field) Hkeys). rewrite Hreg1 in Hother2.
    unfold getScaleByField, ScalePool.getScale. cbn [defaultKey].
    rewrite <- Hroot. split; [exact Hother2|]. split; [exact Hreg2|].
    rewrite Hoid2.
    destruct (scalePool (getRootView v1) (createScale v1 field data def1 None w).2
              !! getScaleKey v2 field) as [existing|] eqn:Hexisting.
    + intros Hsame. apply Hkeys. by apply (Hinj _ _ _ _ Hreg1 Hexisting).
    + apply Hbound in Hreg1. lia.
  - intros r1 r2. subst r1 r2.
    destruct (createScale_spec v1 field data def1 (Some key) w) as (Hreg1 & _).
    destruct (createScale_spec v2 field data def2 (Some key)
                (createScale v1 field data def1 (Some key) w).2)
      as (Hreg2 & _ & Hoid2 & _).
    rewrite <- Hroot in Hreg2, Hoid2.
    rewrite !defaultKey_explicit in * by done.
    rewrite Hreg1 in Hoid2.
    unfold getScaleByField, ScalePool.getScale.
    rewrite !defaultKey_explicit by done. rewrite <- Hroot. auto.
Qed.

Lemma scale_pool_sharing_witness :
  (let r := createScale left_ "year" [] JUndefined None emptyWorld in
   scalePool (getRootView left_) r.2 !! "view1-year" = Some r.1
   ∧ getScaleByField left_ "year" None r.2 = Some r.1)
  ∧ (let r := initGeometries left_ [] [] emptyWorld in
     r.1.*1 = geometries (info left_)
     ∧ (∀ g, g ∈ geometries (info left_) → "year" ∈ View.scaleFields g →
          ∃ t scale, (g, t) ∈ r.1 ∧ scaleOf t "year" = Some scale
                     ∧ getScaleByField left_ "year" None r.2 = Some scale)
     ∧ ∀ g1 t1 g2 t2,
         (g1, t1) ∈ r.1 → (g2, t2) ∈ r.1 →
         "year" ∈ View.scaleFields g1 → "year" ∈ View.scaleFields g2 →
         ∃ scale, scaleOf t1 "year" = Some scale ∧ scaleOf t2 "year" = Some scale
                  ∧ getScaleByField left_ "year" None r.2 = Some scale)
  ∧ (let r := initGeometries left_ [] [] emptyWorld in
     ∃ g1 t1 g2 t2 scale,
       r.1 = [(g1, t1); (g2, t2)]
       ∧ scaleOf t1 "year" = Some scale ∧ scaleOf t2 "year" = Some scale
       ∧ getScaleByField left_ "year" None r.2 = Some scale)
  ∧ (let r1 := createScale left_ "year" [] JUndefined None emptyWorld in
     let r2 := createScale right_ "year" [] JUndefined None r1.2 in
     getScaleByField left_ "year" None r2.2 = Some r1.1
     ∧ getScaleByField right_ "year" None r2.2 = Some r2.1
     ∧ ScalePool.oid r1.1 ≠ ScalePool.oid r2.1)
  ∧ (let r1 := createScale left_ "year" [] JUndefined (Some "year") emptyWorld in
     let r2 := createScale right_ "year" [] JUndefined (Some "year") r1.2 in
     ScalePool.oid r2.1 = ScalePool.oid r1.1
     ∧ getScaleByField left_ "year" (Some "year") r2.2 = Some r2.1
     ∧ getScaleByField right_ "year" (Some "year") r2.2 = Some r2.1).
Proof.
  assert (Hroot : getRootView left_ = getRootView right_) by reflexivity.
  assert (Hid : id (info left_) ≠ id (info right_)) by (vm_compute; congruence).
  assert (Hkey : "year" ≠ "") by congruence.
  assert (Hok : poolOk (scalePool (getRootView left_) emptyWorld) (fresh emptyWorld))
    by apply poolOk_empty.
  destruct (scale_pool_sharing left_ right_ "year" "year" [] [] JUndefined JUndefined
              emptyWorld Hroot Hid Hkey Hok) as (Ha & Hb & Hc & Hd).
  split; [exact Ha|]. split; [exact Hb|]. split; [|split; [exact Hc|exact Hd]].
  destruct Hb as (Hall & _ & Hpair). cbv zeta.
  destruct (initGeometries left_ [] [] emptyWorld).1 as [|[g1 t1] [|[g2 t2] others]];
    try discriminate Hall.
  destruct others; [|discriminate Hall].
  injection Hall as Hg1 Hg2.
  destruct (Hpair g1 t1 g2 t2) as (scale & H1 & H2 & Hscale).
  - by left.
  - right. by left.
  - rewrite Hg1. by left.
  - rewrite Hg2. by left.
  - by exists g1, t1, g2, t2, scale.
Defined.

End SharingFacts.

(** ** The scale definition wrapper *)

Section ScaleDefFacts.
Import ScaleDef.

(** The part of [generateDomain] that holds whenever an explicit domain is
    supplied without [min] or [max]: the resolved domain is the supplied
    one, transformed element by element. *)
Lemma generateDomain_explicit `{Library} (updateOptions_ : ScaleDefOptions) (sd : t)
    (all : ScaleDefOptions) (transform_ : Input → Input) (domain_ : list Input) :
  getOptions sd = Ok all →
  transform all = Some transform_ →
  domain updateOptions_ = Some domain_ →
  min updateOptions_ = None →
  max updateOptions_ = None →
  generateDomain updateOptions_ sd = Ok (transform_ <$> domain_, options sd).
Proof.
  intros Hall Htransform Hdomain Hmin Hmax. unfold generateDomain.
  rewrite Hall. simpl. by rewrite Htransform, Hdomain, Hmin, Hmax.
Qed.

(** C4, at [min: 0].  A linear scale is created over the domain [5, 10]
    and then updated with [{ min: 0 }].  The update succeeds, but [0] is
    falsy, so the first entry of the domain is not overridden: the scale
    still holds [5, 10], and [updateExtent] writes that 5 over the
    [min] the caller supplied. *)
Theorem zero_min_is_not_applied `{Library} :
  ∃ created updated transform_,
    new Linear.fiveToTen None = Ok created
    ∧ update Linear.minZero created = Ok updated
    ∧ transform (options updated) = Some transform_
    ∧ transform_ (Num 0) = Num 0
    ∧ (λ s, domain (held s)) <$> scale updated = Some (Some [Num 5; Num 10])
    ∧ min (options updated) = Some (Num 5)
    ∧ max (options updated) = Some (Num 10).
Proof.
  destruct H as [created_ hasTicks_ getTicks_ map_ timeFormatter_ format_ date_ text_].
  destruct (hasTicks_ "linear") eqn:Hticks.
  all: eexists _, _, _; split;
    [vm_compute; rewrite Hticks; vm_compute; reflexivity|].
  all: split; [vm_compute; rewrite Hticks; vm_compute; reflexivity|].
  all: repeat split; reflexivity.
Qed.

(** C8.  A linear scale is created with the domain [0, 10], [min: 2] and
    the ticks 2, 6, 10: the scale maps over [2, 10] and the ticks are
    mapped to 0, 1/2 and 1.  After [update({})] the stored, unresolved
    domain [0, 10] is handed to the scale again, and the same ticks are
    mapped to 1/5, 3/5 and 1. *)
Theorem empty_update_changes_ticks :
  ∃ created updated before after,
    new (H := Linear.library) Linear.fromTwo None = Ok created
    ∧ update (H := Linear.library) noOptions created = Ok updated
    ∧ getTicks (H := Linear.library) created = Ok before
    ∧ getTicks (H := Linear.library) updated = Ok after
    ∧ tickValue <$> before = [Num 2; Num 6; Num 10]
    ∧ tickValue <$> after = [Num 2; Num 6; Num 10]
    ∧ Forall2 Qeq (value <$> before) [0; 1 # 2; 1]%Q
    ∧ Forall2 Qeq (value <$> after) [1 # 5; 3 # 5; 1]%Q
    ∧ ¬ Forall2 (λ a b, value a == value b)%Q before after.
Proof.
  eexists _, _, _, _.
  split; [vm_compute; reflexivity|]. split; [vm_compute; reflexivity|].
  split; [vm_compute; reflexivity|]. split; [vm_compute; reflexivity|].
  split; [reflexivity|]. split; [reflexivity|].
  split; [repeat constructor|]. split; [repeat constructor|].
  intros Hsame. inversion Hsame as [|? ? ? ? Hfirst _]. vm_compute in Hfirst. lia.
Qed.

End ScaleDefFacts.

(** ** Child views: shared data, cloned options *)

Section CloningFacts.
Import Cloning.
Implicit Types (h : Heap) (region : gset nat).

Lemma clone_ref fuel address h :
  clone (S fuel) (VRef address) h
  = o ← h !! address;
    r ← cloneProps fuel (props o) h;
    Some (VRef (fresh (dom r.2)),
          <[fresh (dom r.2) := {| isArray := isArray o; props := r.1 |}]> r.2).
Proof.
  simpl. destruct (h !! address) as [o|]; [|done]. simpl.
  match goal with
  | |- (?f (props o) h ≫= _) = _ =>
      assert (Hfix : ∀ entries h0, f entries h0 = cloneProps fuel entries h0)
  end.
  { induction entries as [|[k value] rest IH]; intros h0; simpl; [done|].
    destruct (clone fuel value h0) as [r|]; simpl; [|done]. by rewrite IH. }
  by rewrite Hfix.
Qed.

Lemma copyOf_weaken depth h1 h2 h1' h2' original copy :
  h1 ⊆ h2 → h1' ⊆ h2' →
  copyOf depth h1 original h1' copy → copyOf depth h2 original h2' copy.
Proof.
  intros Hsource Htarget. revert original copy.
  induction depth as [|depth IH]; intros original copy; destruct original; try done.
  destruct copy; try done. simpl.
  intros (o & o' & Ho & Ho' & Harray & Hprops).
  exists o, o'. split; [by eapply lookup_weaken|]. split; [by eapply lookup_weaken|].
  split; [done|]. eapply Forall2_impl; [exact Hprops|].
  intros p p' [Hkey Hcopy]. split; [done|]. by apply IH.
Qed.

Lemma closedRegion_weaken h h' region :
  h ⊆ h' → closedRegion h region → closedRegion h' region.
Proof.
  intros Hsub Hclosed a Ha. destruct (Hclosed a Ha) as (o & Ho & Hrefs).
  exists o. split; [by eapply lookup_weaken|done].
Qed.

Lemma closedRegion_union h region1 region2 :
  closedRegion h region1 → closedRegion h region2 → closedRegion h (region1 ∪ region2).
Proof.
  intros H1 H2 a [Ha|Ha]%elem_of_union.
  - destruct (H1 a Ha) as (o & Ho & Hrefs). exists o. split; [done|].
    intros k b Hb. apply elem_of_union_l. by eapply Hrefs.
  - destruct (H2 a Ha) as (o & Ho & Hrefs). exists o. split; [done|].
    intros k b Hb. apply elem_of_union_r. by eapply Hrefs.
Qed.

Lemma inRegion_mono region1 region2 value :
  region1 ⊆ region2 → inRegion region1 value → inRegion region2 value.
Proof. destruct value; simpl; set_solver. Qed.

(** Everything reachable from a value of a closed region lies in the
    region. *)
Lemma reach_region h region value target :
  closedRegion h region → inRegion region value →
  reach h value target → target ∈ region.
Proof.
  intros Hclosed Hin Hreach. induction Hreach as [a|a o k value target Ho Hk _ IH].
  - exact Hin.
  - apply IH. destruct (Hclosed a Hin) as (o' & Ho' & Hrefs).
    assert (o' = o) as -> by congruence.
    destruct value; try done. simpl. by eapply Hrefs.
Qed.

Lemma cloneProps_result fuel :
  (∀ value h r, clone fuel value h = Some r → cloneResult fuel h value r.2 r.1) →
  ∀ entries h r, cloneProps fuel entries h = Some r →
    h ⊆ r.2
    ∧ Forall2 (λ p p', p.1 = p'.1 ∧ copyOf fuel r.2 p.2 r.2 p'.2) entries r.1
    ∧ ∃ region, region ## dom h ∧ closedRegion r.2 region
                ∧ Forall (λ p, inRegion region p.2) r.1.
Proof.
  intros Hclone. induction entries as [|[k value] rest IH]; intros h r Hrun; simpl in Hrun.
  - injection Hrun as <-. simpl. split; [done|]. split; [constructor|].
    exists ∅. split; [set_solver|]. split; [by intros a ?%not_elem_of_empty|constructor].
  - destruct (clone fuel value h) as [r1|] eqn:Hvalue; simpl in Hrun; [|done].
    destruct (cloneProps fuel rest r1.2) as [rs|] eqn:Hrest; simpl in Hrun; [|done].
    injection Hrun as <-. simpl.
    destruct (Hclone _ _ _ Hvalue) as (Hsub1 & Hcopy1 & region1 & Hdisj1 & Hclosed1 & Hin1).
    destruct (IH _ _ Hrest) as (Hsub2 & Hcopies & region2 & Hdisj2 & Hclosed2 & Hin2).
    split; [by etrans|]. split.
    + constructor.
      * split; [done|]. simpl.
        eapply copyOf_weaken; [exact Hsub2|exact Hsub2|exact Hcopy1].
      * exact Hcopies.
    + exists (region1 ∪ region2). split.
      { apply subseteq_dom in Hsub1. set_solver. }
      split.
      { apply closedRegion_union; [by eapply closedRegion_weaken|done]. }
      constructor.
      * simpl. eapply inRegion_mono; [|exact Hin1]. set_solver.
      * eapply Forall_impl; [exact Hin2|]. intros p Hp.
        eapply inRegion_mono; [|exact Hp]. set_solver.
Qed.

Lemma clone_result fuel value h r :
  clone fuel value h = Some r → cloneResult fuel h value r.2 r.1.
Proof.
  revert value h r. induction fuel as [|fuel IH]; intros value h r Hrun.
  - destruct value; try (injection Hrun as <-; simpl;
      (split; [done|]); (split; [done|]);
      exists ∅; split; [set_solver|]; split; [by intros a ?%not_elem_of_empty|done]).
    done.
  - destruct value; try (injection Hrun as <-; simpl;
      (split; [done|]); (split; [done|]);
      exists ∅; split; [set_solver|]; split; [by intros a ?%not_elem_of_empty|done]).
    rewrite clone_ref in Hrun.
    destruct (h !! address) as [o|] eqn:Ho; simpl in Hrun; [|done].
    destruct (cloneProps fuel (props o) h) as [rs|] eqn:Hprops; simpl in Hrun; [|done].
    injection Hrun as <-. simpl.
    destruct (cloneProps_result fuel IH _ _ _ Hprops)
      as (Hsub & Hcopies & region & Hdisj & Hclosed & Hin).
    set (rst := fresh (dom rs.2)).
    assert (Hfresh : rs.2 !! rst = None) by apply not_elem_of_dom, is_fresh.
    assert (Hgrow : rs.2 ⊆ <[rst := {| isArray := isArray o; props := rs.1 |}]> rs.2)
      by by apply insert_subseteq.
    split; [by etrans|]. split.
    + exists o, {| isArray := isArray o; props := rs.1 |}.
      split; [eapply lookup_weaken; [exact Ho|by etrans]|].
      split; [apply lookup_insert_eq|]. split; [done|]. simpl.
      eapply Forall2_impl; [exact Hcopies|].
      intros p p' [Hkey Hcopy]. split; [done|].
      eapply copyOf_weaken; [exact Hgrow|exact Hgrow|exact Hcopy].
    + exists (region ∪ {[rst]}). split.
      { apply not_elem_of_dom in Hfresh. apply subseteq_dom in Hsub. set_solver. }
      split; [|set_solver].
      intros a [Ha|Ha%elem_of_singleton]%elem_of_union; [|subst a].
      * destruct (Hclosed a Ha) as (o' & Ho' & Hrefs). exists o'.
        split; [by eapply lookup_weaken|]. intros k b Hb.
        apply elem_of_union_l. by eapply Hrefs.
      * eexists. split; [apply lookup_insert_eq|]. simpl. intros k b Hb.
        apply elem_of_union_l. rewrite Forall_forall in Hin. by apply (Hin _ Hb).
Qed.

Lemma depthWithin_weaken depth h h' value :
  h ⊆ h' → depthWithin depth h value → depthWithin depth h' value.
Proof.
  intros Hsub. revert value. induction depth as [|depth IH]; intros value;
    destruct value; try done.
  simpl. intros (o & Ho & Hprops). exists o. split; [by eapply lookup_weaken|].
  eapply Forall_impl; [exact Hprops|]. intros p. apply IH.
Qed.

Lemma clone_returns fuel value h :
  depthWithin fuel h value → is_Some (clone fuel value h).
Proof.
  revert value h. induction fuel as [|fuel IH]; intros value h Hdepth.
  - destruct value; try done; by eexists.
  - destruct value; try (by eexists).
    rewrite clone_ref. destruct Hdepth as (o & -> & Hprops). simpl.
    assert (Hall : ∀ entries h0, h ⊆ h0 →
              Forall (λ p, depthWithin fuel h p.2) entries →
              is_Some (cloneProps fuel entries h0)).
    { induction entries as [|[k value] rest IHrest]; intros h0 Hsub Hentries;
        [by eexists|].
      inversion Hentries as [|? ? Hvalue Hrest]; subst. simpl in *.
      destruct (IH value h0) as [r1 Hr1]; [by eapply depthWithin_weaken|].
      rewrite Hr1. simpl.
      destruct (IHrest r1.2) as [rs Hrs]; [|done|].
      { etrans; [exact Hsub|]. by apply (clone_result _ _ _ _ Hr1). }
      rewrite Hrs. by eexists. }
    destruct (Hall (props o) h) as [rs Hrs]; [done|done|].
    rewrite Hrs. by eexists.
Qed.

Lemma clone_step fuel value h0 h :
  h0 ⊆ h → depthWithin fuel h0 value →
  ∃ r, clone fuel value h = Some r ∧ cloneResult fuel h value r.2 r.1.
Proof.
  intros Hsub Hdepth.
  destruct (clone_returns fuel value h) as [r Hr]; [by eapply depthWithin_weaken|].
  exists r. split; [done|]. by apply clone_result.
Qed.

Lemma cloned_is_apart h0 h1 h2 h' fuel original copy target written :
  h0 ⊆ h1 → cloneResult fuel h1 original h2 copy → h2 ⊆ h' →
  reach h' copy target →
  (target ∉ dom h0) ∧ h0 ⊆ (<[target := written]> h').
Proof.
  intros Hbefore (Hgrow & _ & region & Hdisj & Hclosed & Hin) Hafter Hreach.
  assert (Htarget : target ∈ region).
  { eapply reach_region; [|exact Hin|exact Hreach]. by eapply closedRegion_weaken. }
  assert (Hnew : target ∉ dom h0).
  { apply subseteq_dom in Hbefore. set_solver. }
  split; [done|]. apply insert_subseteq_r; [by apply not_elem_of_dom|].
  etrans; [exact Hbefore|]. etrans; [exact Hgrow|done].
Qed.

(** C5, as the code has it.  When the parent's option values are no
    deeper than [fuel], [createView()] returns a child and modifies no
    object of the parent.  The child's [data] is the parent's [data]
    itself (the same reference) and its [animate] the parent's value; its
    [scales], [axes], [coordinate], [tooltip] and [legends] are copies of
    the parent's, made of objects allocated by the call: a write to any
    object reachable from one of them leaves every object that existed
    before the call as it was. *)
Theorem createView_shares_data_clones_options
    (fuel : nat) (cfgVisible_ : Val) (this : View) (h : Heap) :
  Forall (depthWithin fuel h)
         [getp (options this) "scales"; getp (options this) "axes";
          coordinateOption this;
          getp (options this) "tooltip"; getp (options this) "legends"] →
  ∃ child this' h',
    createView fuel {| cfgVisible := cfgVisible_; cfgOptions := [] |} this h
    = Some (child, this', h')
    ∧ h ⊆ h'
    ∧ options this' = options this
    ∧ getp (options child) "data" = getp (options this) "data"
    ∧ getp (options child) "animate" = getp (options this) "animate"
    ∧ copyOf fuel h' (getp (options this) "scales") h' (getp (options child) "scales")
    ∧ copyOf fuel h' (getp (options this) "axes") h' (getp (options child) "axes")
    ∧ copyOf fuel h' (coordinateOption this) h' (getp (options child) "coordinate")
    ∧ copyOf fuel h' (getp (options this) "tooltip") h' (getp (options child) "tooltip")
    ∧ copyOf fuel h' (getp (options this) "legends") h' (getp (options child) "legends")
    ∧ ∀ name target written,
        name ∈ ["scales"; "axes"; "coordinate"; "tooltip"; "legends"] →
        reach h' (getp (options child) name) target →
        (target ∉ dom h) ∧ h ⊆ (<[target := written]> h').
Proof.
  intros Hdepth.
  apply Forall_cons in Hdepth as [Hd1 Hdepth]. apply Forall_cons in Hdepth as [Hd2 Hdepth].
  apply Forall_cons in Hdepth as [Hd3 Hdepth]. apply Forall_cons in Hdepth as [Hd4 Hdepth].
  apply Forall_cons in Hdepth as [Hd5 _].
  destruct (clone_step fuel _ h h (reflexivity _) Hd1) as (r1 & Hr1 & Hc1).
  pose proof Hc1 as (Hs1 & Hcopy1 & _).
  destruct (clone_step fuel _ h r1.2 Hs1 Hd2) as (r2 & Hr2 & Hc2).
  pose proof Hc2 as (Hs2 & Hcopy2 & _).
  assert (Hh2 : h ⊆ r2.2) by by etrans.
  destruct (clone_step fuel _ h r2.2 Hh2 Hd3) as (r3 & Hr3 & Hc3).
  pose proof Hc3 as (Hs3 & Hcopy3 & _).
  assert (Hh3 : h ⊆ r3.2) by by etrans.
  destruct (clone_step fuel _ h r3.2 Hh3 Hd4) as (r4 & Hr4 & Hc4).
  pose proof Hc4 as (Hs4 & Hcopy4 & _).
  assert (Hh4 : h ⊆ r4.2) by by etrans.
  destruct (clone_step fuel _ h r4.2 Hh4 Hd5) as (r5 & Hr5 & Hc5).
  pose proof Hc5 as (Hs5 & Hcopy5 & _).
  assert (Hh5 : h ⊆ r5.2) by by etrans.
  unfold createView. rewrite Hr1. cbn [mbind option_bind]. rewrite Hr2. cbn [mbind option_bind].
  rewrite Hr3. cbn [mbind option_bind]. rewrite Hr4. cbn [mbind option_bind].
  rewrite Hr5. cbn [mbind option_bind].
  set (emptyData := fresh (dom r5.2)).
  set (h' := <[emptyData := {| isArray := true; props := [] |}]> r5.2).
  assert (Hlast : r5.2 ⊆ h').
  { apply insert_subseteq, not_elem_of_dom, is_fresh. }
  eexists _, _, h'. split; [reflexivity|]. cbn.
  split; [by etrans|]. split; [done|]. split; [done|]. split; [done|].
  split; [eapply copyOf_weaken; [|..|exact Hcopy1]; by repeat (etrans; [eassumption|])|].
  split; [eapply copyOf_weaken; [|..|exact Hcopy2]; by repeat (etrans; [eassumption|])|].
  split; [eapply copyOf_weaken; [|..|exact Hcopy3]; by repeat (etrans; [eassumption|])|].
  split; [eapply copyOf_weaken; [|..|exact Hcopy4]; by repeat (etrans; [eassumption|])|].
  split; [eapply copyOf_weaken; [|..|exact Hcopy5]; done|].
  intros name target written Hname Hreach.
  repeat (apply elem_of_cons in Hname as [->|Hname]); [..|by apply elem_of_nil in Hname];
    cbn in Hreach.
  - eapply (cloned_is_apart h h r1.2 h'); [done|exact Hc1| |exact Hreach].
    by repeat (etrans; [eassumption|]).
  - eapply (cloned_is_apart h r1.2 r2.2 h'); [done|exact Hc2| |exact Hreach].
    by repeat (etrans; [eassumption|]).
  - eapply (cloned_is_apart h r2.2 r3.2 h'); [done|exact Hc3| |exact Hreach].
    by repeat (etrans; [eassumption|]).
  - eapply (cloned_is_apart h r3.2 r4.2 h'); [done|exact Hc4| |exact Hreach].
    by repeat (etrans; [eassumption|]).
  - eapply (cloned_is_apart h r4.2 r5.2 h'); [done|exact Hc5|done|exact Hreach].
Qed.

Lemma createView_shares_data_clones_options_witness :
  ∃ child this' h',
    createView 3 noCfg sampleParent sampleHeap = Some (child, this', h')
    ∧ sampleHeap ⊆ h'
    ∧ getp (options child) "data" = VRef 0
    ∧ copyOf 3 h' (VRef 2) h' (getp (options child) "scales")
    ∧ ∀ target written,
        reach h' (getp (options child) "scales") target →
        (target ∉ dom sampleHeap) ∧ sampleHeap ⊆ (<[target := written]> h').
Proof.
  destruct (createView_shares_data_clones_options 3 VUndefined sampleParent sampleHeap)
    as (child & this' & h' & Hrun & Hsub & _ & Hdata & _ & Hscales & _ & _ & _ & _ & Hapart).
  { repeat first [ constructor | done
                 | eexists; split; [reflexivity|cbn [props]] ]. }
  exists child, this', h'. split; [exact Hrun|]. split; [exact Hsub|].
  split; [exact Hdata|]. split; [exact Hscales|].
  intros target written. apply Hapart. set_solver.
Defined.

(** C5 fails as stated: the child's [data] is the parent's array itself,
    so that a write through the child's options (here, emptying the
    array) changes the parent's data. *)
Lemma createView_data_is_not_cloned :
  ¬ (∀ fuel cfg this h child this' h' name target written,
       createView fuel cfg this h = Some (child, this', h') →
       name ∈ ["data"; "scales"; "coordinate"; "tooltip"; "legends"; "animate"] →
       reach h' (getp (options child) name) target →
       h ⊆ (<[target := written]> h')).
Proof.
  intros Hall.
  assert (Hrun : ∃ child this' h',
             createView 3 noCfg sampleParent sampleHeap = Some (child, this', h')
             ∧ getp (options child) "data" = VRef 0).
  { eexists _, _, _. split; [vm_compute; reflexivity|reflexivity]. }
  destruct Hrun as (child & this' & h' & Hrun & Hdata).
  assert (Hreach : reach h' (getp (options child) "data") 0).
  { rewrite Hdata. constructor. }
  specialize (Hall 3%nat noCfg sampleParent sampleHeap child this' h' "data" 0%nat
                {| isArray := true; props := [] |} Hrun ltac:(set_solver) Hreach).
  assert (Hparent : sampleHeap !! 0%nat
                    = Some {| isArray := true; props := [("0", VRef 1%nat)] |})
    by reflexivity.
  eapply lookup_weaken in Hparent; [|exact Hall].
  rewrite lookup_insert_eq in Hparent. discriminate.
Qed.

End CloningFacts.

(* ================================================================== *)
(** * Further properties of the code *)
(* ================================================================== *)

(** ** Filtering *)

Section FilteringFacts.
Import Filter FieldFilter.
Implicit Types (filters : gmap string FilterCondition) (data : list Datum).

Lemma filterData_filter filters data :
  filterData filters data = Ok (filter (passes filters) data).
Proof.
  unfold filterData. destruct (Nat.eqb_spec (size filters) 0) as [Hz|Hnz].
  - apply map_size_empty_inv in Hz. subst filters. by rewrite filter_passes_empty.
  - apply filterArr_filter.
Qed.

Lemma passes_insert filters field (condition : FilterCondition) (row : Datum) :
  filters !! field = None →
  passes (<[field := condition]> filters) row
  ↔ condition (prop row field) row = true ∧ passes filters row.
Proof. intros Hnew. unfold passes. by rewrite map_Forall_insert. Qed.

Lemma passes_singleton field (condition : FilterCondition) (row : Datum) :
  passes {[field := condition]} row ↔ condition (prop row field) row = true.
Proof. unfold passes. by rewrite map_Forall_singleton. Qed.

(** X1. Configuring a filter on one more field amounts to filtering the
    rows already filtered by that field's predicate alone. *)
Theorem filterData_one_more_filter filters field (condition : FilterCondition) data :
  filters !! field = None →
  filterData (<[field := condition]> filters) data
  = (rows ← filterData filters data; filterData {[field := condition]} rows).
Proof.
  intros Hnew. rewrite !filterData_filter. cbn [mbind Outcome_bind].
  rewrite filterData_filter. f_equal. rewrite list_filter_filter.
  apply list_filter_iff. intros row. rewrite passes_insert by done.
  by rewrite passes_singleton.
Qed.

Lemma filterData_one_more_filter_witness :
  filterData (<["value" := (λ _ _, true) : FilterCondition]> {["year" := not1991]}) sampleData
  = (rows ← filterData {["year" := not1991]} sampleData;
     filterData {["value" := (λ _ _, true) : FilterCondition]} rows).
Proof. apply filterData_one_more_filter. reflexivity. Defined.

(** X2. Filtering is idempotent, and it is decided row by row: the rows
    kept from a concatenation are the rows kept from each part. *)
Theorem filterData_idempotent_and_rowwise filters data more :
  (rows ← filterData filters data; filterData filters rows) = filterData filters data
  ∧ filterData filters (data ++ more)
    = (rows ← filterData filters data;
       others ← filterData filters more;
       Ok (rows ++ others)%list).
Proof.
  rewrite !filterData_filter. cbn [mbind Outcome_bind]. rewrite filterData_filter.
  split; f_equal.
  - rewrite list_filter_filter. apply list_filter_iff. tauto.
  - apply filter_app.
Qed.

Lemma append_empty (a : string) : (a ++ "")%string = a.
Proof.
  induction a as [|c a IH]; [done|].
  change (String c (a ++ "") = String c a). by f_equal.
Qed.

Lemma append_char (a : string) (c : ascii) (rest : string) :
  ((a ++ String c "") ++ rest)%string = (a ++ String c rest)%string.
Proof.
  induction a as [|d a IH]; [done|].
  change (String d ((a ++ String c "") ++ rest) = String d (a ++ String c rest)).
  by f_equal.
Qed.

Lemma splitDot_plain (acc name : string) :
  hasDot name = false → Util.splitDot acc name = [(acc ++ name)%string].
Proof.
  revert acc. induction name as [|c name IH]; intros acc Hdot; simpl in *.
  - by rewrite append_empty.
  - apply orb_false_iff in Hdot as [Hc Hrest]. rewrite Hc. rewrite IH by done.
    by rewrite append_char.
Qed.

Lemma splitDot_nonempty (acc name : string) : Util.splitDot acc name ≠ [].
Proof.
  revert acc. induction name as [|c name IH]; intros acc; simpl; [done|].
  destruct (Ascii.eqb c "."); [done|apply IH].
Qed.

Lemma splitDot_dotted (acc name : string) :
  hasDot name = true → ∃ first second rest, Util.splitDot acc name = first :: second :: rest.
Proof.
  revert acc. induction name as [|c name IH]; intros acc Hdot; simpl in *; [done|].
  destruct (Ascii.eqb c ".") eqn:Hc.
  - destruct (Util.splitDot "" name) as [|second rest] eqn:Hsplit.
    + by apply splitDot_nonempty in Hsplit.
    + by eexists _, _, _.
  - simpl in Hdot. by apply IH.
Qed.

Variable inherited : string → bool.

(** X3. For a field whose name has no dot, and under which objects
    inherit no member, [filterFieldData] returns the data itself when
    the field has no filter, and otherwise the rows its predicate
    accepts: what [filterData] returns under that filter alone. *)
Theorem filterFieldData_plain_field filters field data :
  hasDot field = false →
  inherited field = false →
  filterFieldData inherited filters field data
  = Some match filters !! field with
         | Some condition => filterData {[field := condition]} data
         | None => Ok data
         end.
Proof.
  intros Hplain Hown. unfold filterFieldData, getCondition.
  rewrite splitDot_plain by done. change ("" ++ field)%string with field.
  rewrite Hown.
  destruct (filters !! field) as [condition|]; [|done].
  - f_equal. rewrite filterData_filter.
    induction data as [|row data IH]; simpl; [done|].
    rewrite IH. simpl. f_equal. rewrite filter_cons.
    destruct (condition (prop row field) row) eqn:Hrow.
    + rewrite decide_True; [done|]. by apply passes_singleton.
    + rewrite decide_False; [done|]. rewrite passes_singleton. congruence.
Qed.

(** X4. For a field whose name contains a dot, [filterFieldData] looks
    for a filter under the part of the name before the first dot.  When
    there is none, and objects inherit no member of that name, it
    returns the data as it is, even when a filter is configured under
    exactly the dotted name, the filter [filterData] applies. *)
Theorem filterFieldData_dotted_field filters field data :
  hasDot field = true →
  filters !! firstSegment field = None →
  inherited (firstSegment field) = false →
  filterFieldData inherited filters field data = Some (Ok data).
Proof.
  intros Hdot. unfold filterFieldData, getCondition, firstSegment.
  destruct (splitDot_dotted "" field Hdot) as (first & second & rest & ->).
  by intros Hnone ->; rewrite Hnone.
Qed.

End FilteringFacts.

Lemma filterFieldData_plain_field_witness :
  FieldFilter.filterFieldData FieldFilter.onObjectPrototype
    {["year" := Filter.not1991]} "year" Filter.sampleData
  = Some (Filter.filterData {["year" := Filter.not1991]} Filter.sampleData).
Proof.
  exact (filterFieldData_plain_field FieldFilter.onObjectPrototype
           {["year" := Filter.not1991]} "year" Filter.sampleData
           eq_refl eq_refl).
Defined.

Lemma filterFieldData_dotted_field_witness :
  FieldFilter.filterFieldData FieldFilter.onObjectPrototype
    {["a.b" := (λ _ _, false) : Filter.FilterCondition]} "a.b" Filter.sampleData
  = Some (Ok Filter.sampleData).
Proof.
  apply (filterFieldData_dotted_field FieldFilter.onObjectPrototype _ "a.b"
           Filter.sampleData);
    reflexivity.
Defined.


(** ** The box of a view *)

Section ViewBoxFacts.
Import Coord ViewBox.

(** X5. A view whose region lies in the unit square, with its start
    before its end, gets a box that starts at or after the origin of its
    parent's coordinate box and is neither wider nor higher than it, of
    non-negative width and height; with the whole region it gets the
    parent's box, and a view without parent and with the whole region
    gets the canvas.  (These relations are kept by the rounding of the
    code's arithmetic; that the box ends within the parent's is not.) *)
Theorem calculateViewBBox_placed (parent : BBox) (canvasWidth canvasHeight : Q)
    (region : Region) :
  properRegion region →
  (0 <= width parent)%Q → (0 <= height parent)%Q →
  placedIn (calculateViewBBox (Some parent) canvasWidth canvasHeight region) parent
  ∧ sameBox (calculateViewBBox (Some parent) canvasWidth canvasHeight wholeRegion) parent
  ∧ sameBox (calculateViewBBox None canvasWidth canvasHeight wholeRegion)
            {| bx := 0; by_ := 0; width := canvasWidth; height := canvasHeight |}.
Proof.
  intros (Hx0 & Hx & Hx1 & Hy0 & Hy & Hy1) Hw Hh.
  destruct parent as [px py pw ph], region as [[sx sy] [ex ey]].
  unfold placedIn, sameBox, calculateViewBBox; simpl in *.
  repeat split; try nra; try ring.
Qed.

Lemma calculateViewBBox_placed_witness :
  placedIn (calculateViewBBox (Some {| bx := 10; by_ := 20; width := 400; height := 300 |})
              0 0
              {| start := {| x := 0.25; y := 0 |}; end_ := {| x := 0.5; y := 0.5 |} |})
           {| bx := 10; by_ := 20; width := 400; height := 300 |}.
Proof.
  apply (calculateViewBBox_placed
           {| bx := 10; by_ := 20; width := 400; height := 300 |} 0 0
           {| start := {| x := 0.25; y := 0 |}; end_ := {| x := 0.5; y := 0.5 |} |});
    vm_compute; intuition discriminate.
Defined.

End ViewBoxFacts.

(** ** Boxes of points, angles and centroids *)

Section GraphicsFacts.
Import Coord Graphics.

Lemma gt_false (a b : Q) : gt a b = false → (a <= b)%Q.
Proof. unfold gt. rewrite negb_false_iff. apply Qle_bool_iff. Qed.

Lemma gt_true (a b : Q) : gt a b = true → (b < a)%Q.
Proof.
  unfold gt. rewrite negb_true_iff. intros Hle. apply Qnot_le_lt.
  rewrite <- Qle_bool_iff. congruence.
Qed.

Lemma lt_false (a b : Q) : lt a b = false → (b <= a)%Q.
Proof. unfold lt. rewrite negb_false_iff. apply Qle_bool_iff. Qed.

Lemma lt_true (a b : Q) : lt a b = true → (a < b)%Q.
Proof.
  unfold lt. rewrite negb_true_iff. intros Hle. apply Qnot_le_lt.
  rewrite <- Qle_bool_iff. congruence.
Qed.

(** The loop of [getPointsBox]: the bounds only widen, they enclose
    every point visited, and each is a bound it started from or a
    coordinate of a visited point. *)
Lemma pointsBox_fold (points : list Point) (a b c d : Q) :
  ∃ a' b' c' d',
    foldl
      (fun '(minX_, maxX_, minY_, maxY_) point =>
         (if gt minX_ (x point) then x point else minX_,
          if lt maxX_ (x point) then x point else maxX_,
          if gt minY_ (y point) then y point else minY_,
          if lt maxY_ (y point) then y point else maxY_))
      (a, b, c, d) points = (a', b', c', d')
    ∧ (a' <= a ∧ b <= b' ∧ c' <= c ∧ d <= d')%Q
    ∧ (∀ p, p ∈ points → a' <= x p ∧ x p <= b' ∧ c' <= y p ∧ y p <= d')%Q
    ∧ (a' = a ∨ ∃ p, p ∈ points ∧ a' = x p)
    ∧ (b' = b ∨ ∃ p, p ∈ points ∧ b' = x p)
    ∧ (c' = c ∨ ∃ p, p ∈ points ∧ c' = y p)
    ∧ (d' = d ∨ ∃ p, p ∈ points ∧ d' = y p).
Proof.
  revert a b c d. induction points as [|point points IH]; intros a b c d.
  - exists a, b, c, d. simpl. split; [done|]. split; [repeat split; lra|].
    split; [intros p Hp; by apply elem_of_nil in Hp|]. repeat split; by left.
  - simpl.
    set (a1 := if gt a (x point) then x point else a).
    set (b1 := if lt b (x point) then x point else b).
    set (c1 := if gt c (y point) then y point else c).
    set (d1 := if lt d (y point) then y point else d).
    assert (Ha1 : (a1 <= a ∧ a1 <= x point)%Q ∧ (a1 = a ∨ a1 = x point)).
    { subst a1. destruct (gt a (x point)) eqn:E;
        [apply gt_true in E|apply gt_false in E]; (split; [split; lra|]); auto. }
    assert (Hb1 : (b <= b1 ∧ x point <= b1)%Q ∧ (b1 = b ∨ b1 = x point)).
    { subst b1. destruct (lt b (x point)) eqn:E;
        [apply lt_true in E|apply lt_false in E]; (split; [split; lra|]); auto. }
    assert (Hc1 : (c1 <= c ∧ c1 <= y point)%Q ∧ (c1 = c ∨ c1 = y point)).
    { subst c1. destruct (gt c (y point)) eqn:E;
        [apply gt_true in E|apply gt_false in E]; (split; [split; lra|]); auto. }
    assert (Hd1 : (d <= d1 ∧ y point <= d1)%Q ∧ (d1 = d ∨ d1 = y point)).
    { subst d1. destruct (lt d (y point)) eqn:E;
        [apply lt_true in E|apply lt_false in E]; (split; [split; lra|]); auto. }
    clearbody a1 b1 c1 d1.
    destruct (IH a1 b1 c1 d1)
      as (a' & b' & c' & d' & -> & (Ha & Hb & Hc & Hd) & Hall & Hmina & Hmaxb & Hminc & Hmaxd).
    destruct Ha1 as [[? ?] Ha1], Hb1 as [[? ?] Hb1], Hc1 as [[? ?] Hc1], Hd1 as [[? ?] Hd1].
    exists a', b', c', d'. split; [done|].
    split; [repeat split; lra|].
    split.
    { intros p [->|Hp]%elem_of_cons; [repeat split; lra|by apply Hall]. }
    assert (Hpoint : point ∈ point :: points) by by left.
    assert (Hlater : ∀ p, p ∈ points → p ∈ point :: points) by (intros; by right).
    repeat split.
    + destruct Hmina as [->|(p & Hp & ->)]; [|by eauto].
      destruct Ha1 as [->| ->]; eauto.
    + destruct Hmaxb as [->|(p & Hp & ->)]; [|by eauto].
      destruct Hb1 as [->| ->]; eauto.
    + destruct Hminc as [->|(p & Hp & ->)]; [|by eauto].
      destruct Hc1 as [->| ->]; eauto.
    + destruct Hmaxd as [->|(p & Hp & ->)]; [|by eauto].
      destruct Hd1 as [->| ->]; eauto.
Qed.

(** X7. [getPointsBox] answers [null] exactly for an empty array.
    Otherwise every point lies within the box, each bound is a
    coordinate of one of the points, and the centre is the midpoint of
    the bounds. *)
Theorem getPointsBox_encloses (points : list Point) :
  match getPointsBox points with
  | None => points = []
  | Some box =>
      points ≠ []
      ∧ (∀ p, p ∈ points →
           (minX box <= x p ∧ x p <= maxX box ∧ minY box <= y p ∧ y p <= maxY box)%Q)
      ∧ (∃ p, p ∈ points ∧ minX box = x p) ∧ (∃ p, p ∈ points ∧ maxX box = x p)
      ∧ (∃ p, p ∈ points ∧ minY box = y p) ∧ (∃ p, p ∈ points ∧ maxY box = y p)
      ∧ (centerX box == (minX box + maxX box) / 2)%Q
      ∧ (centerY box == (minY box + maxY box) / 2)%Q
  end.
Proof.
  destruct points as [|first points]; [done|].
  unfold getPointsBox.
  destruct (pointsBox_fold (first :: points) (x first) (x first) (y first) (y first))
    as (a' & b' & c' & d' & -> & _ & Hall & Ha & Hb & Hc & Hd).
  cbn [minX maxX minY maxY centerX centerY].
  split; [done|]. split; [exact Hall|].
  assert (Hfirst : first ∈ first :: points) by by left.
  repeat split; try reflexivity.
  - destruct Ha as [->|?]; eauto.
  - destruct Hb as [->|?]; eauto.
  - destruct Hc as [->|?]; eauto.
  - destruct Hd as [->|?]; eauto.
Qed.

(** X8. [getAngle] throws on a shape without points.  For points with
    no negative coordinate and a coordinate whose end angle is not below
    its start angle, and at most two turns above it, it returns a start
    angle that is not below the coordinate's, and an end angle that is
    not below the start angle it returns.  (These relations are kept by
    the rounding of the code's arithmetic; that the end angle is not
    above the coordinate's is not.) *)
Theorem getAngle_ordered (points : list Point) (coordinate : Coordinate) :
  (∃ message, getAngle [] coordinate = Throw message)
  ∧ (points ≠ [] →
     (∀ p, p ∈ points → (0 <= x p ∧ 0 <= y p)%Q) →
     (startAngle coordinate <= endAngle coordinate)%Q →
     (endAngle coordinate - startAngle coordinate <= 4 * Math_PI)%Q →
     ∃ startAngle_ endAngle_,
       getAngle points coordinate = Ok (startAngle_, endAngle_)
       ∧ (startAngle coordinate <= startAngle_ ∧ startAngle_ <= endAngle_)%Q).
Proof.
  split; [by eexists|]. intros Hpoints Hunit Hangles _.
  unfold getAngle. pose proof (getPointsBox_encloses points) as Hbox.
  destruct (getPointsBox points) as [box|]; [|done].
  destruct Hbox as (_ & Hall & (pa & Hpa & Ha) & _ & (pc & Hpc & Hc) & _).
  pose proof (Hunit _ Hpa) as (? & _). pose proof (Hunit _ Hpc) as (_ & ?).
  pose proof (Hall _ Hpa) as (_ & ? & _ & _). pose proof (Hall _ Hpc) as (_ & _ & _ & ?).
  rewrite <- Ha, <- Hc in *.
  destruct (isTransposed coordinate); eexists _, _; (split; [reflexivity|]);
    split; nra.
Qed.

Lemma getAngle_ordered_witness :
  ∃ startAngle_ endAngle_,
    getAngle [ {| x := 0.25; y := 0 |}; {| x := 0.5; y := 1 |} ]
             CategoryRange.transposedFullCircle = Ok (startAngle_, endAngle_)
    ∧ (startAngle CategoryRange.transposedFullCircle <= startAngle_
       ∧ startAngle_ <= endAngle_)%Q.
Proof.
  apply (getAngle_ordered
           [ {| x := 0.25; y := 0 |}; {| x := 0.5; y := 1 |} ]
           CategoryRange.transposedFullCircle).
  - done.
  - intros p Hp. repeat (apply elem_of_cons in Hp as [->|Hp]);
      [| |by apply elem_of_nil in Hp]; vm_compute; intuition discriminate.
  - vm_compute. discriminate.
  - vm_compute. discriminate.
Defined.

Lemma centroid_k_undefined (xs ys : list Q) (indices : list nat)
    (current : nat) (x_ y_ : option Q) :
  (foldl (centroidStep xs ys) (current, None, x_, y_) indices).1.1.2 = None.
Proof.
  revert current x_ y_. induction indices as [|i indices IH]; intros; [done|].
  cbn [foldl centroidStep lift2]. apply IH.
Qed.

Lemma centroid_same_reads (xs ys ys' : list Q) (n : nat) (indices : list nat)
    (state : nat * option Q * option Q * option Q) :
  (∀ i, (i < n)%nat → ys' !! i = ys !! i) →
  (∀ i, i ∈ indices → (i < n)%nat) →
  (state.1.1.1 < n)%nat →
  foldl (centroidStep xs ys') state indices = foldl (centroidStep xs ys) state indices.
Proof.
  intros Hsame. revert state.
  induction indices as [|i indices IH]; intros [[[current k] x_] y_] Hin Hcurrent;
    [done|].
  cbn [fst] in Hcurrent. cbn [foldl].
  assert (Hi : (i < n)%nat) by (apply Hin; by left).
  assert (Hstep : centroidStep xs ys' (current, k, x_, y_) i
                  = centroidStep xs ys (current, k, x_, y_) i).
  { unfold centroidStep. by rewrite !(Hsame i Hi), !(Hsame current Hcurrent). }
  rewrite Hstep. apply IH.
  - intros j Hj. apply Hin. by right.
  - done.
Qed.

(** X9. [getPolygonCentroid] returns two numbers as they are.  On
    arrays it reads [ys] at the indices of [xs] only: entries of [ys]
    beyond the length of [xs] do not change the result, and when [ys] is
    shorter than [xs], when one argument is a number and the other an
    array, or when [xs] is empty, the result is not a pair of finite
    numbers. *)
Theorem getPolygonCentroid_reads (xs ys more : list Q) (x1 y1 : Q) :
  getPolygonCentroid (Single x1) (Single y1) = Some (x1, y1)
  ∧ getPolygonCentroid (Many []) (Many ys) = None
  ∧ getPolygonCentroid (Single x1) (Many ys) = None
  ∧ getPolygonCentroid (Many xs) (Single y1) = None
  ∧ ((List.length ys < List.length xs)%nat →
     getPolygonCentroid (Many xs) (Many ys) = None)
  ∧ (List.length ys = List.length xs →
     getPolygonCentroid (Many xs) (Many (ys ++ more))
     = getPolygonCentroid (Many xs) (Many ys)).
Proof.
  split; [done|]. split; [done|]. split; [done|]. split; [done|]. split.
  - intros Hshort. unfold getPolygonCentroid.
    assert (Hsplit : seq 0 (List.length xs)
                     = (seq 0 (List.length ys)
                        ++ List.length ys
                           :: seq (S (List.length ys))
                                  (List.length xs - S (List.length ys)))%list).
    { replace (List.length xs)
        with (List.length ys + S (List.length xs - S (List.length ys)))%nat at 1 by lia.
      by rewrite seq_app. }
    rewrite Hsplit, foldl_app. cbn [foldl].
    destruct (foldl (centroidStep xs ys) _ (seq 0 (List.length ys)))
      as [[[current k] x_] y_].
    assert (Hmissing : ys !! List.length ys = None) by by apply lookup_ge_None_2.
    unfold centroidStep at 2. rewrite Hmissing. cbn [lift2].
    match goal with
    | |- context [foldl (centroidStep xs ys) (?c, ?k', ?x', ?y') ?l] =>
        pose proof (centroid_k_undefined xs ys l c x' y') as Hk;
        assert (Hnone : k' = None) by (by destruct (xs !! current), k);
        rewrite Hnone in *;
        destruct (foldl (centroidStep xs ys) (c, None, x', y') l) as [[[? k''] ?] ?]
    end.
    cbn in Hk. subst. cbn. by destruct o.
  - intros Hlength. unfold getPolygonCentroid.
    destruct xs as [|x0 xs'] eqn:Hxs; [done|]. rewrite <- Hxs in *.
    rewrite (centroid_same_reads xs ys (ys ++ more) (List.length xs)); [done|..].
    + intros i Hi. apply lookup_app_l. lia.
    + intros i Hi%elem_of_seq. lia.
    + cbn [fst]. subst xs. cbn. lia.
Qed.

Lemma getPolygonCentroid_reads_witness :
  getPolygonCentroid (Many [0; 3; 0]%Q) (Many [0; 0]%Q) = None
  ∧ getPolygonCentroid (Many [0; 3; 0]%Q) (Many ([0; 0; 3]%Q ++ [7]%Q)%list)
    = getPolygonCentroid (Many [0; 3; 0]%Q) (Many [0; 0; 3]%Q).
Proof.
  destruct (getPolygonCentroid_reads [0; 3; 0]%Q [0; 0]%Q [7]%Q 0 0)
    as (_ & _ & _ & _ & Hshort & _).
  destruct (getPolygonCentroid_reads [0; 3; 0]%Q [0; 0; 3]%Q [7]%Q 0 0)
    as (_ & _ & _ & _ & _ & Hmore).
  split; [apply Hshort; cbn; lia|by apply Hmore].
Defined.

End GraphicsFacts.

(** ** Duplicates among tooltip items *)

Section TooltipFacts.
Import TooltipItems.

Lemma strictEq_sym (a b : Attr) : strictEq a b = strictEq b a.
Proof.
  destruct a, b; cbn; try done.
  - apply eq_true_iff_eq. rewrite !Qeq_bool_iff. split; intros H; by symmetry.
  - apply String.eqb_sym.
Qed.

Lemma strictEq_trans (a b c : Attr) :
  strictEq a b = true → strictEq b c = true → strictEq a c = true.
Proof.
  destruct a, b, c; cbn; try done.
  - rewrite !Qeq_bool_iff. intros -> ->. reflexivity.
  - rewrite !String.eqb_eq. congruence.
Qed.

Lemma strictEq_refl (a : Attr) : strictEq a a = true.
Proof.
  destruct a; cbn; [done| |apply String.eqb_refl].
  by apply Qeq_bool_iff.
Qed.

Lemma sameItem_refl (a : Item) : sameItem a a = true.
Proof. unfold sameItem. by rewrite !strictEq_refl. Qed.

Lemma sameItem_sym (a b : Item) : sameItem a b = sameItem b a.
Proof.
  unfold sameItem.
  by rewrite (strictEq_sym (color a)), (strictEq_sym (name a)),
    (strictEq_sym (value a)), (strictEq_sym (title a)).
Qed.

Lemma sameItem_trans (a b c : Item) :
  sameItem a b = true → sameItem b c = true → sameItem a c = true.
Proof.
  unfold sameItem. rewrite !andb_true_iff.
  intros [[[? ?] ?] ?] [[[? ?] ?] ?].
  repeat split; eapply strictEq_trans; eauto.
Qed.

Lemma find_none_all (f : Item → bool) (l : list Item) :
  List.find f l = None → ∀ a, a ∈ l → f a = false.
Proof.
  intros Hfind a Ha. apply list_elem_of_In in Ha.
  exact (find_none f l Hfind a Ha).
Qed.

Lemma distinctItems_snoc (l : list Item) (item : Item) :
  distinctItems l → (∀ a, a ∈ l → sameItem a item = false) →
  distinctItems (l ++ [item]).
Proof.
  intros Hl Hitem i j a b Hij Ha Hb.
  destruct (decide (j < List.length l)%nat) as [Hj|Hj].
  - rewrite lookup_app_l in Ha by lia. rewrite lookup_app_l in Hb by lia. eauto.
  - rewrite lookup_app_r in Hb by lia.
    destruct (j - List.length l)%nat as [|n] eqn:Hn; [|by destruct n].
    cbn in Hb. injection Hb as <-.
    rewrite lookup_app_l in Ha by lia.
    apply Hitem. by eapply list_elem_of_lookup_2.
Qed.

Lemma uniq_fold (acc items : list Item) :
  let step := fun uniqItems item =>
    match List.find (fun subItem => sameItem subItem item) uniqItems with
    | Some _ => uniqItems
    | None => (uniqItems ++ [item])%list
    end in
  ∃ rest,
    foldl step acc items = (acc ++ rest)%list
    ∧ rest `sublist_of` items
    ∧ (∀ item, item ∈ items →
         ∃ kept, kept ∈ foldl step acc items ∧ sameItem kept item = true)
    ∧ (distinctItems acc → distinctItems (foldl step acc items)).
Proof.
  intros step. revert acc. induction items as [|item items IH]; intros acc.
  - exists []. cbn. rewrite app_nil_r. repeat split; try done.
    intros item Hitem. by apply elem_of_nil in Hitem.
  - cbn [foldl]. destruct (IH (step acc item)) as (rest & Heq & Hsub & Hcover & Hdist).
    assert (Hkeeps : ∀ a, a ∈ step acc item → a ∈ foldl step (step acc item) items).
    { intros a Ha. rewrite Heq. apply elem_of_app. by left. }
    assert (Hstep : step acc item = match List.find (fun subItem => sameItem subItem item) acc with Some _ => acc | None => (acc ++ [item])%list end) by done.
    destruct (List.find (fun subItem => sameItem subItem item) acc) as [found|] eqn:Hfind.
    + rewrite Hstep in *. exists rest. split; [done|]. split; [by apply sublist_cons|].
      split; [|done].
      intros item' [->|Hin]%elem_of_cons; [|by apply Hcover].
      apply find_some in Hfind as [Hfound Hsame].
      exists found. split; [|done]. apply Hkeeps. by apply list_elem_of_In.
    + rewrite Hstep in *. exists (item :: rest). split; [by rewrite Heq, <- app_assoc|].
      split; [by apply sublist_skip|]. split.
      * intros item' [->|Hin]%elem_of_cons; [|by apply Hcover].
        eexists. split; [|apply sameItem_refl].
        apply Hkeeps, elem_of_app. right. by apply list_elem_of_singleton.
      * intros Hacc. apply Hdist, distinctItems_snoc; [done|].
        by apply find_none_all.
Qed.

Lemma uniq_fixed (acc items : list Item) :
  let step := fun uniqItems item =>
    match List.find (fun subItem => sameItem subItem item) uniqItems with
    | Some _ => uniqItems
    | None => (uniqItems ++ [item])%list
    end in
  distinctItems (acc ++ items) → foldl step acc items = (acc ++ items)%list.
Proof.
  intros step. revert acc. induction items as [|item items IH]; intros acc Hdist.
  - by rewrite app_nil_r.
  - cbn [foldl]. unfold step at 2.
    destruct (List.find (fun subItem => sameItem subItem item) acc) as [found|] eqn:Hfind.
    + exfalso. apply find_some in Hfind as [Hfound Hsame].
      apply list_elem_of_In, list_elem_of_lookup in Hfound as [i Hi].
      pose proof (lookup_lt_Some _ _ _ Hi) as Hlt.
      rewrite (Hdist i (List.length acc) found item) in Hsame; [done|lia| |].
      * by rewrite lookup_app_l.
      * rewrite lookup_app_r by lia. by rewrite Nat.sub_diag.
    + rewrite IH; rewrite <- app_assoc; done.
Qed.

(** X10. [uniq] of the tooltip controller keeps a subsequence of the
    items in their order; every item has a kept item with the same
    colour, name, value and title; no two kept items are the same in
    these four; and a second pass changes nothing. *)
Theorem uniq_removes_duplicates (items : list Item) :
  uniq items `sublist_of` items
  ∧ (∀ item, item ∈ items → ∃ kept, kept ∈ uniq items ∧ sameItem kept item = true)
  ∧ distinctItems (uniq items)
  ∧ uniq (uniq items) = uniq items.
Proof.
  destruct (uniq_fold [] items) as (rest & Heq & Hsub & Hcover & Hdist).
  assert (Hdistinct : distinctItems (uniq items)).
  { apply Hdist. intros i j a b _ Ha. by rewrite lookup_nil in Ha. }
  split; [unfold uniq; by rewrite Heq|]. split; [done|]. split; [done|].
  unfold uniq at 1. by rewrite uniq_fixed.
Qed.

End TooltipFacts.

(** ** Sequences of canvas events *)

Section ViewRunFacts.
Import Coord View ViewRuns.

Lemma onCanvasEvent_names (evt : GEvent) (v : View) :
  let cur := isPointInPlot v {| x := gx evt; y := gy evt |} in
  let pre := isPreMouseInPlot v in
  let after := onCanvasEvent evt v in
  emittedName <$> emitted after
  = ((emittedName <$> emitted v)
     ++ (if includesColon (gname evt) then []
         else plotNames (gname evt) pre cur ++ [gname evt]))%list
  ∧ isPreMouseInPlot after
    = (if includesColon (gname evt) then pre else plotFlag (gname evt) pre cur).
Proof.
  intros cur pre after. subst after. unfold onCanvasEvent.
  destruct (includesColon (gname evt)); cbn [negb].
  { by rewrite app_nil_r. }
  pose proof (doPlotEvent_effect (createViewEvent evt) v) as (Hnames & Hflag & _).
  destruct (doPlotEvent_log (createViewEvent evt) v) as [added Hlog].
  unfold newlyEmitted in Hnames. rewrite Hlog, drop_app_length in Hnames.
  destruct (doPlotEvent (createViewEvent evt) v) as [e v'].
  cbn [snd] in *. cbn [emit emitted isPreMouseInPlot].
  split; [|exact Hflag].
  rewrite Hlog, !fmap_app, Hnames, <- app_assoc. reflexivity.
Qed.

Lemma lastTransition_app (a b : list string) :
  lastTransition (a ++ b) = foldl transitionStep (lastTransition a) b.
Proof. unfold lastTransition. by rewrite foldl_app. Qed.

Lemma includesColon_transition (name : string) (last : Datatypes.option bool) :
  includesColon name = false → transitionStep last name = last.
Proof.
  intros Hcolon. unfold transitionStep.
  destruct (String.eqb_spec name PLOT_EVENTS_MOUSE_ENTER) as [->|_]; [done|].
  destruct (String.eqb_spec name PLOT_EVENTS_MOUSE_LEAVE) as [->|_]; done.
Qed.

Lemma onCanvasEvent_flagAgrees (evt : GEvent) (v : View) :
  flagAgrees v → flagAgrees (onCanvasEvent evt v).
Proof.
  unfold flagAgrees. intros Hagree.
  destruct (onCanvasEvent_names evt v) as [-> ->].
  set (cur := isPointInPlot v _). clearbody cur.
  destruct (includesColon (gname evt)) eqn:Hcolon.
  { by rewrite app_nil_r. }
  rewrite lastTransition_app, foldl_app. cbn [foldl].
  rewrite (includesColon_transition _ _ Hcolon).
  rewrite Hagree. generalize (lastTransition (emittedName <$> emitted v)).
  intros last. unfold plotNames, plotFlag.
  destruct (includes ALL_EVENTS (gname evt)) eqn:Hin; [|done].
  apply existsb_exists in Hin as (name & Hname & Heq).
  apply String.eqb_eq in Heq. subst name.
  repeat (destruct Hname as [<-|Hname];
          [by destruct last as [[|]|], cur|]).
  destruct Hname.
Qed.

(** X11. After any sequence of canvas events, the flag
    [isPreMouseInPlot] is set exactly when the last [plot:mouseenter] or
    [plot:mouseleave] the view emitted is a [plot:mouseenter], provided
    this held before (as it does on a new view, whose flag is unset and
    which has emitted nothing). *)
Theorem plot_flag_tracks_transitions (events : list GEvent) (v : View) :
  flagAgrees v → flagAgrees (handleAll events v).
Proof.
  unfold handleAll. revert v.
  induction events as [|evt events IH]; intros v Hagree; [done|].
  cbn [foldl]. by apply IH, onCanvasEvent_flagAgrees.
Qed.

Lemma plot_flag_tracks_transitions_witness :
  flagAgrees
    (handleAll [ {| gname := "mousemove"; gx := 50; gy := 50 |};
                 {| gname := "click"; gx := 50; gy := 50 |};
                 {| gname := "mousemove"; gx := 200; gy := 50 |} ]
               renderedSample).
Proof.
  apply (plot_flag_tracks_transitions
           [ {| gname := "mousemove"; gx := 50; gy := 50 |};
             {| gname := "click"; gx := 50; gy := 50 |};
             {| gname := "mousemove"; gx := 200; gy := 50 |} ]
           renderedSample).
  reflexivity.
Defined.

Lemma View_tree_ind (P : View → Prop) :
  (∀ v, Forall P (views v) → P v) → ∀ v, P v.
Proof.
  intros step. fix IH 1. intros [? ? ? ? ? ? ? ? ? ? views_ ?].
  apply step. cbn [views].
  induction views_ as [|child views_ IHviews]; constructor; [apply IH|exact IHviews].
Qed.

Lemma descendants_unfold (v : View) :
  descendants v = v :: concat (List.map descendants (views v)).
Proof. by destruct v. Qed.

Lemma clear_views (v : View) : views (clear v) = List.map clear (views v).
Proof. by destruct v. Qed.

(** X12. [clear()] reaches the whole tree of views: the tree keeps its
    shape, and every view of it keeps its [id], its options, its mouse
    flag and its tooltip lock, has emitted the two clear events and
    nothing else, and is left with no filtered rows, no geometries and
    no coordinate instance, so that no point is in its plot. *)
Theorem clear_resets_subtree (v : View) :
  Forall2
    (fun before after =>
       id after = id before
       ∧ options after = options before
       ∧ isPreMouseInPlot after = isPreMouseInPlot before
       ∧ tooltipLocked after = tooltipLocked before
       ∧ emitted after = (emitted before ++ clearEvents)%list
       ∧ filteredData after = Some []
       ∧ geometries after = []
       ∧ coordinateInstance after = None
       ∧ ∀ point, isPointInPlot after point = false)
    (descendants v) (descendants (clear v)).
Proof.
  induction v as [v IH] using View_tree_ind.
  rewrite (descendants_unfold v), (descendants_unfold (clear v)), clear_views.
  constructor; [by destruct v|].
  induction IH as [|child children Hchild _ IHchildren]; [constructor|].
  cbn [List.map concat]. by apply Forall2_app.
Qed.

Lemma lookupProp_assignProp (props : list (string * JsVal)) (key other : string)
    (value : JsVal) :
  Util.lookupProp (Util.assignProp props key value) other
  = if String.eqb key other then value else Util.lookupProp props other.
Proof.
  induction props as [|[k x] props IH]; cbn.
  - by destruct (String.eqb key other).
  - destruct (String.eqb_spec k key) as [->|Hne]; cbn.
    + by destruct (String.eqb key other).
    + rewrite IH. destruct (String.eqb_spec key other) as [->|Hother]; [|done].
      by apply String.eqb_neq in Hne as ->.
Qed.

Lemma assignProp_keys (props : list (string * JsVal)) (key : string) (value : JsVal) :
  NoDup props.*1 → NoDup (Util.assignProp props key value).*1
  ∧ ∀ k, k ∈ (Util.assignProp props key value).*1 → k = key ∨ k ∈ props.*1.
Proof.
  induction props as [|[k x] props IH]; cbn; intros Hnodup.
  - split; [apply NoDup_singleton|]. intros k' Hk'%list_elem_of_singleton. by left.
  - apply NoDup_cons in Hnodup as [Hfresh Hnodup].
    destruct (String.eqb_spec k key) as [->|Hne]; cbn.
    + split; [by apply NoDup_cons|]. intros k'. by right.
    + destruct (IH Hnodup) as [IHnodup IHkeys]. split.
      * apply NoDup_cons. split; [|done].
        intros [->|Hin]%IHkeys; done.
      * intros k' [->|Hin]%elem_of_cons; [right; by left|].
        destruct (IHkeys _ Hin) as [->|?]; [by left|right; by right].
Qed.

Lemma lookupProp_absent (props : list (string * JsVal)) (key : string) :
  key ∉ props.*1 → Util.lookupProp props key = JUndefined.
Proof.
  induction props as [|[k x] props IH]; cbn; [done|]. intros Hnotin.
  apply not_elem_of_cons in Hnotin as [Hne Hnotin].
  destruct (String.eqb_spec k key) as [->|_]; [done|by apply IH].
Qed.

Lemma lookupProp_removeProp (props : list (string * JsVal)) (key other : string) :
  NoDup props.*1 →
  Util.lookupProp (removeProp props key) other
  = if String.eqb key other then JUndefined else Util.lookupProp props other.
Proof.
  induction props as [|[k x] props IH]; cbn; intros Hnodup.
  - by destruct (String.eqb key other).
  - apply NoDup_cons in Hnodup as [Hfresh Hnodup].
    destruct (String.eqb_spec k key) as [->|Hne]; cbn.
    + destruct (String.eqb_spec key other) as [->|Hother]; [by apply lookupProp_absent|done].
    + rewrite IH by done.
      destruct (String.eqb_spec k other) as [->|Hk],
               (String.eqb_spec key other) as [->|Hother]; done.
Qed.

(** What [filter] records, removes and leaves in place, read with
    [get(this.options, ['filters', field])] on own properties. *)
Lemma filter_set_then_unset_reads (v : View) (field name : string) :
  plainFilters v →
  let stored (v : View) (field : string) :=
    Util.get (options v) ["filters"; field] JUndefined in
  let recorded := filter field (JFun name) v in
  let removed := filter field JNull recorded in
  stored recorded field = JFun name
  ∧ stored removed field = JUndefined
  ∧ ∀ other, other ≠ field → stored removed other = stored v other.
Proof.
  intros [[props Hoptions] Hfilters] stored recorded removed.
  assert (Hrecorded :
    ∃ filters, NoDup filters.*1
      ∧ options recorded
        = JObj (Util.assignProp props "filters"
                   (JObj (Util.assignProp filters field (JFun name))))
      ∧ ∀ other, stored v other = Util.lookupProp filters other).
  { subst recorded stored. unfold filter, setOption. cbn [withOptions options Util.set].
    rewrite Hoptions in *. cbn [Util.getProp] in *.
    destruct (Util.lookupProp props "filters") as [| |b|q|s|f|items|filters] eqn:Hlookup;
      try done;
      try (exists []; split; [apply NoDup_nil_2|]; split; [reflexivity|];
           intros other; unfold Util.get; cbn; rewrite Hlookup; cbn;
           by repeat case_match).
    exists filters. split; [done|]. split; [reflexivity|].
    intros other. unfold Util.get. cbn. rewrite Hlookup. cbn.
    by destruct (Util.lookupProp filters other). }
  destruct Hrecorded as (filters & Hnodup & Hrec & Hbefore).
  assert (Hget : ∀ fs other,
    Util.get (JObj (Util.assignProp props "filters" (JObj fs))) ["filters"; other] JUndefined
    = Util.lookupProp fs other).
  { intros fs other. unfold Util.get. cbn.
    rewrite lookupProp_assignProp, String.eqb_refl. cbn.
    by destruct (Util.lookupProp fs other). }
  assert (Hagain : ∀ x y, Util.assignProp (Util.assignProp props "filters" x) "filters" y
                          = Util.assignProp props "filters" y).
  { intros x y. clear. induction props as [|[k z] props IH]; cbn; [done|].
    destruct (String.eqb k "filters") eqn:Hk; cbn; rewrite Hk; [done|].
    by rewrite IH. }
  assert (Hfound : stored recorded field = JFun name).
  { subst stored. cbv beta. by rewrite Hrec, Hget, lookupProp_assignProp, String.eqb_refl. }
  assert (Hremoved :
    options removed
    = JObj (Util.assignProp props "filters"
              (JObj (removeProp (Util.assignProp filters field (JFun name)) field)))).
  { subst removed. unfold filter. subst stored. cbv beta in Hfound. rewrite Hfound.
    cbn [negb truthy andb]. unfold deleteFilter. rewrite Hrec. cbn [Util.getProp].
    rewrite lookupProp_assignProp, String.eqb_refl.
    cbn [withOptions options Util.setProp]. by rewrite Hagain. }
  pose proof (assignProp_keys filters field (JFun name) Hnodup) as [Hnodup' _].
  split; [done|]. subst stored. cbv beta in *. rewrite Hremoved. split.
  - by rewrite Hget, lookupProp_removeProp, String.eqb_refl.
  - intros other Hother. rewrite Hget, lookupProp_removeProp by done.
    rewrite lookupProp_assignProp, Hbefore.
    apply not_eq_sym, String.eqb_neq in Hother. by rewrite Hother.
Qed.

(** X13. On a view whose filter conditions are held by a plain object,
    and for field names under which objects inherit no member
    ([inherited] tells the names of the members of [Object.prototype]):
    [filter(field, condition)] with a function records the condition;
    [filter(field, null)] then removes it again; and the condition of
    every other such field is, after the two calls, what it was
    before. *)
Theorem filter_set_then_unset (inherited : string → bool)
    (v : View) (field name : string) :
  inherited "filters" = false →
  inherited field = false →
  plainFilters v →
  let recorded := filter field (JFun name) v in
  let removed := filter field JNull recorded in
  filterOf inherited recorded field = Some (JFun name)
  ∧ filterOf inherited removed field = Some JUndefined
  ∧ ∀ other, other ≠ field → inherited other = false →
             filterOf inherited removed other = filterOf inherited v other
             ∧ is_Some (filterOf inherited v other).
Proof.
  intros Hfilters Hfield Hplain recorded removed.
  destruct (filter_set_then_unset_reads v field name Hplain)
    as (Hrecorded & Hremoved & Hothers).
  unfold filterOf. rewrite Hfilters, Hfield. cbn [orb].
  split; [by f_equal|]. split; [by f_equal|].
  intros other Hother ->. split; [|by eexists]. f_equal. by apply Hothers.
Qed.

Lemma filter_set_then_unset_witness :
  let recorded := filter "year" (JFun "not1991") renderedSample in
  let removed := filter "year" JNull recorded in
  filterOf FieldFilter.onObjectPrototype recorded "year" = Some (JFun "not1991")
  ∧ filterOf FieldFilter.onObjectPrototype removed "year" = Some JUndefined
  ∧ ∀ other, other ≠ "year" → FieldFilter.onObjectPrototype other = false →
             filterOf FieldFilter.onObjectPrototype removed other
             = filterOf FieldFilter.onObjectPrototype renderedSample other
             ∧ is_Some (filterOf FieldFilter.onObjectPrototype renderedSample other).
Proof.
  apply (filter_set_then_unset FieldFilter.onObjectPrototype renderedSample
           "year" "not1991"); [reflexivity|reflexivity|].
  split; [by eexists|]. exact I.
Defined.

End ViewRunFacts.

(** ** Attributes to replace *)

Section ReplaceAttrsFacts.
Import ReplaceAttrs.




End ReplaceAttrsFacts.

(** ** Scale definitions along a chain of views *)

Section ScaleDefMergeFacts.
Import Sharing ScaleDefMerge.

Lemma assignProp_elem (props : list (string * JsVal)) (key k : string) (value : JsVal) :
  k ∈ (Util.assignProp props key value).*1 ↔ k = key ∨ k ∈ props.*1.
Proof.
  induction props as [|[k' x] props IH]; cbn.
  - rewrite list_elem_of_singleton, elem_of_nil. tauto.
  - destruct (String.eqb_spec k' key) as [->|Hne]; cbn.
    + rewrite !elem_of_cons. tauto.
    + rewrite !elem_of_cons, IH. tauto.
Qed.

Lemma spread_lookup (a b : list (string * JsVal)) (name : string) :
  NoDup b.*1 →
  Util.lookupProp (View.spread a b) name
  = if bool_decide (name ∈ b.*1) then Util.lookupProp b name else Util.lookupProp a name.
Proof.
  unfold View.spread. revert a.
  induction b as [|[k x] b IH]; intros a Hnodup; [done|].
  apply NoDup_cons in Hnodup as [Hfresh Hnodup]. cbn [foldl fst snd].
  rewrite IH by done. cbn [fmap list_fmap fst Util.lookupProp].
  rewrite lookupProp_assignProp.
  destruct (String.eqb_spec k name) as [->|Hne].
  - rewrite (bool_decide_eq_false_2 _ Hfresh), bool_decide_eq_true_2; [done|by left].
  - case_bool_decide as Hin.
    + rewrite bool_decide_eq_true_2; [done|by right].
    + rewrite bool_decide_eq_false_2; [done|].
      intros [->|?]%elem_of_cons; done.
Qed.

Lemma spread_keys (a b : list (string * JsVal)) :
  NoDup a.*1 →
  NoDup (View.spread a b).*1
  ∧ ∀ k, k ∈ (View.spread a b).*1 ↔ k ∈ a.*1 ∨ k ∈ b.*1.
Proof.
  unfold View.spread. revert a.
  induction b as [|[k x] b IH]; intros a Hnodup; cbn [foldl fst snd].
  - split; [done|]. intros k. rewrite elem_of_nil. tauto.
  - destruct (assignProp_keys a k x Hnodup) as [Hnodup' _].
    destruct (IH _ Hnodup') as [IHnodup IHkeys]. split; [done|].
    intros k'. rewrite IHkeys, assignProp_elem. cbn. rewrite elem_of_cons. tauto.
Qed.

Lemma pool_createScale_scaleDef field data scaleDef key pool fresh_ :
  ScalePool.scaleDef (ScalePool.createScale field data scaleDef key pool fresh_).1.1
  = scaleDef.
Proof. unfold ScalePool.createScale. by destruct (pool !! key). Qed.

(** X15. The definition [createScale] hands to the pool follows the
    nearest configuration: a property has the value given by the caller
    if the caller's definition has the property, else the value
    configured for the field on the view itself, else on its parent, and
    so on up to the root. *)
Theorem createScale_nearest_definition_wins
    (v : View) (field : string) (data : list (gmap string JsVal))
    (scaleDef : JsVal) (key : option string) (w : World) (name : string) :
  plainLayers (spreadProps scaleDef :: configured v field) →
  Util.lookupProp (ScalePool.scaleDef (createScale v field data scaleDef key w).1) name
  = resolve (spreadProps scaleDef :: configured v field) name.
Proof.
  revert scaleDef key. induction v as [i|i p IH]; intros scaleDef key Hplain.
  - apply Forall_cons in Hplain as [Hpassed Hplain].
    apply Forall_cons in Hplain as [Hown _].
    cbn [createScale configured info].
    destruct (ScalePool.createScale _ _ _ _ _ _) as [[scale_ pool] fresh_] eqn:Hcreate.
    cbn [fst]. change scale_ with (scale_, pool, fresh_).1.1.
    rewrite <- Hcreate, pool_createScale_scaleDef, spread_lookup by done.
    cbn [resolve]. case_bool_decide; [done|].
    case_bool_decide; [done|]. by apply lookupProp_absent.
  - apply Forall_cons in Hplain as [Hpassed Hplain].
    pose proof Hplain as Hrest. apply Forall_cons in Hrest as [Hown Hrest].
    cbn [createScale configured info] in *.
    destruct (spread_keys (spreadProps (Util.get (scales i) [field] JUndefined))
                          (spreadProps scaleDef) Hown) as [Hnodup Hkeys].
    rewrite IH; [|by apply Forall_cons].
    cbn [resolve spreadProps]. rewrite spread_lookup by done.
    case_bool_decide as Hmerged.
    + apply Hkeys in Hmerged. case_bool_decide as Hin; [done|].
      destruct Hmerged as [Hmerged|?]; [|done].
      by rewrite bool_decide_eq_true_2.
    + rewrite !bool_decide_eq_false_2; [done| |];
        intros Hin; apply Hmerged, Hkeys; tauto.
Qed.

Lemma createScale_nearest_definition_wins_witness :
  let child := Child {| id := "view1";
                        scales := JObj [("year", JObj [("nice", JBool true);
                                                       ("alias", JStr "Year")])];
                        geometries := [] |}
                     (Root {| id := "view0";
                              scales := JObj [("year", JObj [("nice", JBool false);
                                                             ("sync", JBool true)])];
                              geometries := [] |}) in
  Util.lookupProp
    (ScalePool.scaleDef
       (createScale child "year" [] (JObj [("alias", JStr "Y")]) None emptyWorld).1)
    "nice"
  = resolve (spreadProps (JObj [("alias", JStr "Y")]) :: configured child "year") "nice".
Proof.
  apply (createScale_nearest_definition_wins _ "year" [] (JObj [("alias", JStr "Y")])
           None emptyWorld "nice").
  unfold plainLayers. cbn.
  repeat (apply List.Forall_cons; [apply (bool_decide_unpack _); vm_compute; exact I|]).
  apply List.Forall_nil.
Defined.

(** X16. [createScale] registers in the pool of the root view only:
    whichever view it is called on, the pool of every view with another
    [id] than the root's is as before.  The root of a view has no
    parent, is its own root, and is the root of the view's parent. *)
Theorem createScale_touches_root_pool_only
    (v u : View) (field : string) (data : list (gmap string JsVal))
    (scaleDef : JsVal) (key : option string) (w : World) :
  (id (info u) ≠ id (info (getRootView v)) →
   scalePool u (createScale v field data scaleDef key w).2 = scalePool u w)
  ∧ parent (getRootView v) = None
  ∧ getRootView (getRootView v) = getRootView v
  ∧ (∀ p, parent v = Some p → getRootView v = getRootView p).
Proof.
  split; [|split; [|split]].
  - intros Hother.
    destruct (createScale_at_root v field data scaleDef key w) as [merged ->].
    unfold scalePool. cbn. by rewrite lookup_insert_ne.
  - induction v; done.
  - induction v; done.
  - intros p Hp. destruct v; cbn in *; congruence.
Qed.

Lemma createScale_touches_root_pool_only_witness :
  scalePool left_ (createScale right_ "year" [] JUndefined None emptyWorld).2
  = scalePool left_ emptyWorld.
Proof.
  apply (createScale_touches_root_pool_only right_ left_ "year" [] JUndefined None
           emptyWorld).
  cbn. discriminate.
Defined.

End ScaleDefMergeFacts.

(** ** The adjusted range of category scales *)

Section CategoryRangeEffectFacts.
Import Coord CategoryRange CategoryRangeEffect.

Lemma count_inverse (values_ : list JsVal) :
  (2 <= List.length values_)%nat →
  let n := inject_Z (Z.of_nat (List.length values_)) in
  (0 < 1 / n ∧ 1 / n <= 1 # 2)%Q.
Proof.
  intros Hlen n.
  assert (Hn : (2 <= n)%Q).
  { subst n. change 2%Q with (inject_Z 2). rewrite <- Zle_Qle. lia. }
  assert (Hpos : (0 < n)%Q) by lra.
  split.
  - apply Qlt_shift_div_l; [done|lra].
  - apply Qle_shift_div_r; [done|].
    clearbody n. lra.
Qed.

(** X17. The range [adjustCategoryScaleRange] assigns to a scale with at
    least one value is a pair [lo, hi] with [0 <= lo < hi <= 1], on
    every coordinate. *)
Theorem adjustedRange_within_unit
    (v : View) (scale : Scale) (values_ : list JsVal) (range_ : list Q) :
  values scale = Some values_ →
  values_ ≠ [] →
  adjustedRange v scale = Some range_ →
  ∃ lo hi, range_ = [lo; hi] ∧ (0 <= lo ∧ lo < hi ∧ hi <= 1)%Q.
Proof.
  intros Hvalues Hnonempty. unfold adjustedRange. rewrite Hvalues.
  destruct (isCategory scale || isIdentity scale); [|done].
  destruct (negb _); [|done].
  set (n := inject_Z (Z.of_nat (List.length values_))).
  destruct (Qeq_bool n 1) eqn:Hone.
  { intros [= <-]. eexists _, _. split; [done|]. lra. }
  assert (Hlen : (2 <= List.length values_)%nat).
  { destruct values_ as [|? [|? ?]]; [done| |cbn; lia].
    by vm_compute in Hone. }
  pose proof (count_inverse values_ Hlen) as Hinverse. cbv zeta in Hinverse. fold n in Hinverse.
  set (inverse := (1 / n)%Q) in *. clearbody inverse.
  destruct (isFullCircle (coordinateInstance v)).
  - destruct (isTransposed (coordinateInstance v)); cbn [negb].
    + change (toNumber _) with (1 / 1.3)%Q.
      intros [= <-]. eexists _, _. split; [done|].
      assert (Hratio : (1 / 1.3 == 10 # 13)%Q) by reflexivity. rewrite Hratio.
      unfold Qdiv. change (/ 2)%Q with (1 # 2)%Q. lra.
    + intros [= <-]. eexists _, _. split; [done|]. lra.
  - change (1 / n / 2)%Q with (inverse / 2)%Q.
    intros [= <-]. eexists _, _. split; [done|].
    unfold Qdiv. change (/ 2)%Q with (1 # 2)%Q. lra.
Qed.

Lemma adjustedRange_within_unit_witness :
  ∃ lo hi, [(1 / 2 * (1 / 1.3) / 2)%Q; (1 - 1 / 2 * (1 / 1.3) / 2)%Q] = [lo; hi]
           ∧ (0 <= lo ∧ lo < hi ∧ hi <= 1)%Q.
Proof.
  apply (adjustedRange_within_unit pieView
           {| field := "type"; values := Some [JStr "a"; JStr "b"];
              isCategory := true; isIdentity := false; range := [0; 1]%Q |}
           [JStr "a"; JStr "b"]);
    [reflexivity|discriminate|reflexivity].
Defined.

Lemma adjustedRange_withRange (v : View) (scale : Scale) (range_ : list Q) :
  adjustedRange v (withRange range_ scale) = adjustedRange v scale.
Proof. reflexivity. Qed.

Lemma adjust_adjust (v : View) (scale : Scale) : adjust v (adjust v scale) = adjust v scale.
Proof.
  unfold adjust. destruct (adjustedRange v scale) as [range_|] eqn:Hrange.
  - by rewrite adjustedRange_withRange, Hrange.
  - by rewrite Hrange.
Qed.

Lemma adjust_fold (v : View) (refs : list nat) (store : Store) (ref : nat) :
  foldl
    (fun store ref =>
       match store !! ref with
       | Some scale =>
           match adjustedRange v scale with
           | Some range_ => <[ref := withRange range_ scale]> store
           | None => store
           end
       | None => store
       end)
    store refs !! ref
  = if bool_decide (ref ∈ refs) then adjust v <$> store !! ref else store !! ref.
Proof.
  revert store. induction refs as [|r refs IH]; intros store; [done|].
  cbn [foldl]. rewrite IH.
  assert (Hstep :
    match store !! r with
    | Some scale =>
        match adjustedRange v scale with
        | Some range_ => <[r := withRange range_ scale]> store
        | None => store
        end
    | None => store
    end !! ref
    = if decide (ref = r) then adjust v <$> store !! ref else store !! ref).
  { destruct (decide (ref = r)) as [->|Hne].
    - unfold adjust. destruct (store !! r) as [scale|] eqn:Hscale; [|by rewrite Hscale].
      cbn. destruct (adjustedRange v scale); [by rewrite lookup_insert_eq|done].
    - destruct (store !! r) as [scale|]; [|done].
      destruct (adjustedRange v scale); [by rewrite lookup_insert_ne|done]. }
  rewrite Hstep. destruct (decide (ref = r)) as [->|Hne].
  - rewrite (bool_decide_eq_true_2 (r ∈ r :: refs)) by by left.
    case_bool_decide; [|done].
    destruct (store !! r); cbn; [|done]. by rewrite adjust_adjust.
  - case_bool_decide as Hin.
    + rewrite bool_decide_eq_true_2; [done|by right].
    + rewrite bool_decide_eq_false_2; [done|].
      intros [->|?]%elem_of_cons; done.
Qed.

(** X18. [adjustCategoryScaleRange] acts on each scale on its own: the
    x scale and the y scales of the view get the range the adjustment
    computes from their own attributes, every other scale of the store
    is left as it was, and a second run changes nothing. *)
Theorem adjustCategoryScaleRange_pointwise (v : View) (store : Store) :
  (∀ ref,
     adjustCategoryScaleRange v store !! ref
     = if bool_decide (ref ∈ xyScales v) then adjust v <$> store !! ref
       else store !! ref)
  ∧ adjustCategoryScaleRange v (adjustCategoryScaleRange v store)
    = adjustCategoryScaleRange v store.
Proof.
  assert (Hpoint : ∀ store ref,
     adjustCategoryScaleRange v store !! ref
     = if bool_decide (ref ∈ xyScales v) then adjust v <$> store !! ref
       else store !! ref).
  { intros. apply adjust_fold. }
  split; [apply Hpoint|].
  apply map_eq. intros ref. rewrite !Hpoint.
  case_bool_decide; [|done].
  destruct (store !! ref); cbn; [|done]. by rewrite adjust_adjust.
Qed.

End CategoryRangeEffectFacts.

(** ** The kinds of a scale definition *)

Section ScaleDefKindFacts.
Import ScaleDef.

(** X24. A scale definition is never of two kinds at once: of
    continuous, category and identity at most one holds. *)
Theorem scale_kinds_exclude_each_other (sd : t) :
  isContinuous sd && isCategory sd = false
  ∧ isContinuous sd && isIdentity sd = false
  ∧ isCategory sd && isIdentity sd = false.
Proof.
  unfold isContinuous, isCategory, isIdentity, belongTo.
  destruct (type (options sd)) as [type_|]; [|done]. cbn [existsb].
  repeat match goal with
         | |- context [String.eqb type_ ?name] =>
             destruct (String.eqb_spec type_ name) as [->|?]; [by vm_compute|]
         end.
  done.
Qed.

End ScaleDefKindFacts.

(** ** Options passed to [createView] *)

Section CreateViewCfgFacts.
Import Cloning CreateViewCfg.













End CreateViewCfgFacts.

(** ** One title per tooltip *)

Section TooltipTitleFacts.
Import TooltipItems TooltipTitle.
Variable distance : Q * Q → Q * Q → Q.

Lemma nearest_elem (point : Q * Q) (first : Placed) (items : list Placed) :
  nearest distance point first items ∈ first :: items.
Proof.
  unfold nearest.
  assert (Hfold : ∀ state : Placed * option Q,
    (foldl
       (fun '(nearestItem, nearestDistance) it =>
          let d := distance point (ix it, iy it) in
          if match nearestDistance with
             | None => true
             | Some bound => negb (Qle_bool bound d)
             end
          then (it, Some d)
          else (nearestItem, nearestDistance))
       state items).1 ∈ state.1 :: items).
  { induction items as [|it items IH]; intros [nearestItem nearestDistance].
    - by left.
    - cbn [foldl].
      match goal with
      | |- context [if ?b then _ else _] => destruct b
      end.
      + right. exact (IH (it, _)).
      + specialize (IH (nearestItem, nearestDistance)). cbn [fst] in *.
        apply elem_of_cons in IH as [->|?]; [by left|right; by right]. }
  exact (Hfold (first, None)).
Qed.

Lemma sameTitle_refl (a : Placed) : sameTitle a a = true.
Proof. apply strictEq_refl. Qed.

Lemma sameTitle_sym (a b : Placed) : sameTitle a b = sameTitle b a.
Proof. apply strictEq_sym. Qed.

Lemma sameTitle_trans (a b c : Placed) :
  sameTitle a b = true → sameTitle b c = true → sameTitle a c = true.
Proof. apply strictEq_trans. Qed.

(** X26. What [getTooltipItems] returns never mixes titles: the items
    kept are a subsequence of the items found, no two of them differ in
    their title, every item found that has the title of a kept one is
    kept, and some item is kept whenever one was found, whatever the
    distances are. *)
Theorem keepOneTitle_single_title (point : Q * Q) (items : list Placed) :
  let kept := keepOneTitle distance point items in
  kept `sublist_of` items
  ∧ (items ≠ [] → kept ≠ [])
  ∧ (∀ a b, a ∈ kept → b ∈ kept → sameTitle a b = true)
  ∧ (∀ a b, a ∈ items → b ∈ kept → sameTitle a b = true → a ∈ kept).
Proof.
  intros kept. subst kept. unfold keepOneTitle.
  destruct items as [|first items].
  { split; [done|]. split; [done|]. split; intros a b Ha; by apply elem_of_nil in Ha. }
  set (all := first :: items).
  destruct (forallb (fun it => sameTitle it first) all) eqn:Hevery; cbn [negb].
  - split; [done|]. split; [done|]. split; [|done].
    rewrite forallb_forall in Hevery.
    intros a b Ha%list_elem_of_In Hb%list_elem_of_In.
    eapply sameTitle_trans; [by apply Hevery|].
    rewrite sameTitle_sym. by apply Hevery.
  - pose proof (nearest_elem point first all) as Hnearest.
    assert (Hin : nearest distance point first all ∈ all).
    { apply elem_of_cons in Hnearest as [->|?]; [by left|done]. }
    set (nearestItem := nearest distance point first all) in *. clearbody nearestItem.
    assert (Hkept : ∀ a, a ∈ List.filter (fun it => sameTitle it nearestItem) all
                         ↔ a ∈ all ∧ sameTitle a nearestItem = true).
    { intros a. by rewrite list_elem_of_In, filter_In, <- list_elem_of_In. }
    split; [|split; [|split]].
    + clear. induction all as [|it rest IH]; cbn; [done|].
      destruct (sameTitle it nearestItem); [by apply sublist_skip|by apply sublist_cons].
    + intros _ Hempty.
      assert (Hself : nearestItem ∈ List.filter (fun it => sameTitle it nearestItem) all).
      { apply Hkept. split; [done|apply sameTitle_refl]. }
      rewrite Hempty in Hself. by apply elem_of_nil in Hself.
    + intros a b [_ Ha]%Hkept [_ Hb]%Hkept.
      eapply sameTitle_trans; [exact Ha|]. by rewrite sameTitle_sym.
    + intros a b Ha [_ Hb]%Hkept Hab. apply Hkept. split; [done|].
      by eapply sameTitle_trans.
Qed.

End TooltipTitleFacts.


(** ** [ScaleDef] across updates *)

Section ScaleDefPropsFacts.
Import ScaleDefProps.

Lemma withDomain_same (o : ScaleDefOptions) : withDomain (domain o) o = o.
Proof. by destruct o. Qed.

Lemma withMinMax_same (o : ScaleDefOptions) : withMinMax (min o) (max o) o = o.
Proof. by destruct o. Qed.

Lemma over_absent {A} (x : Slot A) : over x absent = x.
Proof. by destruct x. Qed.

Lemma updateScaleType_frame `{Scales} (updateOptions_ : ScaleDefOptions) (sd sd' : t) :
  updateScaleType updateOptions_ sd = Ok sd' →
  options sd' = options sd ∧ tickValues sd' = tickValues sd ∧ field sd' = field sd.
Proof.
  unfold updateScaleType, createScaleByType. intros Hrun.
  repeat (case_match; cbn [mbind Outcome_bind] in * ); simplify_eq; done.
Qed.

Lemma updateScaleType_returns `{Scales} (updateOptions_ : ScaleDefOptions) (sd : t) :
  wellBuilt → constructed sd → accepted updateOptions_ →
  ∃ sd' s,
    updateScaleType updateOptions_ sd = Ok sd'
    ∧ scale sd' = Some s
    ∧ is_Some (read (domain (held s)))
    ∧ (∀ type_, read (type (spread (options sd) updateOptions_)) = Some type_ →
                type_ ≠ "" → kind s = type_)
    ∧ (read (type updateOptions_) = None ∨ read (type updateOptions_) = Some "" →
       scale sd' = scale sd).
Proof.
  intros [Hcreated _] (s0 & f & Hscale & Hdomain & _ & _ & Htyped & _)
    (_ & _ & Hknown & _).
  unfold updateScaleType.
  assert (Hmerged : ∀ type_,
    read (type (spread (options sd) updateOptions_)) = Some type_ →
    read (type updateOptions_) = Some type_
    ∨ (read (type updateOptions_) = None ∧ read (type (options sd)) = Some type_)).
  { intros type_. cbn. destruct (type updateOptions_) as [[given|]|]; cbn; auto;
      discriminate. }
  destruct (read (type updateOptions_)) as [given|] eqn:Hgiven.
  - destruct (String.eqb_spec given "") as [->|Hnonempty].
    + exists sd, s0. split; [done|]. split; [done|]. split; [done|]. split; [|done].
      intros type_ Hread Hne. destruct (Hmerged _ Hread) as [[= <-]|[[=] _]]. done.
    + case_bool_decide as Hsame.
      * exists sd, s0. split; [done|]. split; [done|]. split; [done|]. split.
        -- intros type_ Hread Hne. destruct (Hmerged _ Hread) as [[= <-]|[[=] _]].
           by apply Htyped.
        -- intros [[=]|[= ->]]. done.
      * unfold createScaleByType. rewrite (Hknown given) by done.
        cbn [mbind Outcome_bind]. eexists _, _. split; [reflexivity|].
        split; [reflexivity|]. cbn [held kind]. split; [by apply Hcreated, Hknown|].
        split.
        -- intros type_ Hread Hne. by destruct (Hmerged _ Hread) as [[= <-]|[[=] _]].
        -- intros [[=]|[= ->]]. done.
  - exists sd, s0. split; [done|]. split; [done|]. split; [done|]. split; [|done].
    intros type_ Hread Hne. destruct (Hmerged _ Hread) as [[=]|[_ Hown]].
    by apply Htyped.
Qed.

Lemma getDefaultOptions_returns `{Scales} (sd : t) (s : Scale) :
  scale sd = Some s →
  (belongTo ["time"] sd = true → hasGetFormatter (kind s) = true) →
  ∃ defaults f,
    getDefaultOptions sd = Ok defaults
    ∧ transform defaults = present f
    ∧ type defaults = absent ∧ domain defaults = absent
    ∧ min defaults = absent ∧ max defaults = absent
    ∧ tickMethod defaults = absent.
Proof.
  intros Hscale Htime. unfold getDefaultOptions, theScale. rewrite Hscale.
  destruct (belongTo ["time"] sd).
  - cbn [mbind Outcome_bind]. rewrite Htime by done. eexists _, _. by repeat split.
  - destruct (belongTo ["timeCat"] sd); eexists _, _; by repeat split.
Qed.

Lemma generateDomain_returns `{Scales} (updateOptions_ : ScaleDefOptions) (sd : t)
    (s : Scale) (f : Input → Input) :
  scale sd = Some s →
  is_Some (read (domain (held s))) →
  transform (options sd) = present f →
  domain (options sd) ≠ undefined_ →
  ∃ array d,
    generateDomain updateOptions_ sd = Ok (array, withDomain d (options sd))
    ∧ d ≠ undefined_.
Proof.
  intros Hscale [stored Hstored] Htransform Hdomain.
  unfold generateDomain, getOptions, theScale. rewrite Hscale.
  cbn [mbind Outcome_bind spread transform domain]. rewrite Htransform.
  cbn [over present read call].
  assert (Hfound : ∃ array own,
    (match read (domain updateOptions_) with
     | Some domain_ => Ok (f <$> domain_, false)
     | None =>
         match read (over (domain (options sd)) (domain (held s))) with
         | Some stored =>
             Ok (stored, match read (domain (options sd)) with
                         | Some _ => true
                         | None => false
                         end)
         | None => Throw "TypeError: transformedDomain is undefined"
         end
     end : Outcome (list Input * bool)) = Ok (array, own)).
  { destruct (read (domain updateOptions_)); [by eexists _, _|].
    destruct (domain (options sd)) as [[own|]|]; [by eexists _, _|done|].
    cbn. rewrite Hstored. by eexists _, _. }
  destruct Hfound as (array & own & ->). cbn [mbind Outcome_bind].
  destruct (ScaleDef.truthyInput (read (min updateOptions_)));
    destruct (ScaleDef.truthyInput (read (max updateOptions_)));
    cbn [mbind Outcome_bind];
    (destruct own;
     [eexists _, _; split; [reflexivity|done]
     |eexists _, (domain (options sd)); rewrite withDomain_same; split; done]).
Qed.

Lemma updateScaleOptions_returns `{Scales} (updateOptions_ : ScaleDefOptions) (sd : t)
    (s : Scale) (f : Input → Input) :
  wellBuilt →
  scale sd = Some s →
  is_Some (read (domain (held s))) →
  transform (options sd) = present f →
  domain (options sd) ≠ undefined_ →
  ∃ d s',
    updateScaleOptions updateOptions_ sd
    = Ok (withScale s' (withOptions (withDomain d (options sd)) sd))
    ∧ d ≠ undefined_
    ∧ kind s' = kind s
    ∧ is_Some (read (domain (held s'))).
Proof.
  intros (_ & Hupdated & _) Hscale Hstored Htransform Hdomain. unfold updateScaleOptions.
  destruct (generateDomain_returns updateOptions_ sd s f Hscale Hstored Htransform Hdomain)
    as (array & d & -> & Hd).
  cbn [mbind Outcome_bind fst snd]. unfold theScale. cbn [withOptions scale].
  rewrite Hscale. cbn [mbind Outcome_bind].
  eexists d, _. split; [reflexivity|]. split; [done|]. split; [done|].
  cbn [Scale_update held]. apply Hupdated. by eexists.
Qed.

Lemma updateExtent_returns `{Scales} (sd : t) (s : Scale) :
  scale sd = Some s →
  is_Some (read (domain (held s))) →
  domain (options sd) ≠ undefined_ →
  ∃ min_ max_,
    updateExtent sd = Ok (withOptions (withMinMax min_ max_ (options sd)) sd)
    ∧ (isContinuous sd = true →
       ∃ d, domainOf sd = Some d ∧ min_ = Some (head d) ∧ max_ = Some (last d))
    ∧ (isContinuous sd = false → min_ = min (options sd) ∧ max_ = max (options sd)).
Proof.
  intros Hscale [stored Hstored] Hdomain.
  unfold updateExtent, domainOf, getOptions, theScale. rewrite Hscale.
  destruct (isContinuous sd).
  - cbn [negb mbind Outcome_bind spread domain].
    assert (Hall : ∃ found,
      read (over (domain (options sd)) (domain (held s))) = Some found).
    { destruct (domain (options sd)) as [[own|]|]; [by eexists|done|].
      cbn. rewrite Hstored. by eexists. }
    destruct Hall as [found Hfound]. rewrite Hfound.
    eexists _, _. split; [reflexivity|]. split; [|done]. intros _. by exists found.
  - cbn [negb]. exists (min (options sd)), (max (options sd)).
    rewrite withMinMax_same. split; [by destruct sd|]. split; done.
Qed.

Lemma updateTicks_returns `{Scales} (sd : t) (s : Scale) (f : Input → Input) :
  scale sd = Some s →
  is_Some (read (domain (held s))) →
  transform (options sd) = present f →
  ∃ ticks_, updateTicks sd = Ok (withTickValues ticks_ sd).
Proof.
  intros Hscale [stored Hstored] Htransform.
  unfold updateTicks, calculateTickValues, getOptions, theScale. rewrite Hscale.
  cbn [mbind Outcome_bind spread transform]. rewrite Htransform, Hstored.
  cbn [over present read]. destruct (hasGetTicks (kind s)); cbn [mbind Outcome_bind];
    by eexists.
Qed.

Lemma belongTo_time `{Scales} (sd : t) :
  belongTo ["time"] sd = true → read (type (options sd)) = Some "time".
Proof.
  unfold belongTo. destruct (read (type (options sd))) as [type_|]; [|done].
  cbn. rewrite orb_false_r. by intros ->%String.eqb_eq.
Qed.

(** The state after an [update] whose first step leaves a scale in
    place. *)
Lemma update_from `{Scales} (updateOptions_ : ScaleDefOptions) (sd : t) (s : Scale) :
  wellBuilt →
  updateScaleType updateOptions_ sd
  = Ok {| scale := Some s; options := options sd;
          tickValues := tickValues sd; field := field sd |} →
  is_Some (read (domain (held s))) →
  (∀ type_, read (type (spread (options sd) updateOptions_)) = Some type_ →
            type_ ≠ "" → kind s = type_) →
  transform (options sd) ≠ undefined_ → transform updateOptions_ ≠ undefined_ →
  domain (options sd) ≠ undefined_ → domain updateOptions_ ≠ undefined_ →
  ∃ defaults d min_ max_ ticks_ s',
    let merged := spread defaults (spread (options sd) updateOptions_) in
    let extended :=
      {| scale := Some s'; options := withDomain d merged;
         tickValues := tickValues sd; field := field sd |} in
    update updateOptions_ sd
    = Ok {| scale := Some s';
            options := withMinMax min_ max_ (withDomain d merged);
            tickValues := Some ticks_;
            field := field sd |}
    ∧ (∃ f, transform merged = present f)
    ∧ type defaults = absent ∧ min defaults = absent ∧ max defaults = absent
    ∧ tickMethod defaults = absent
    ∧ d ≠ undefined_
    ∧ is_Some (read (domain (held s')))
    ∧ kind s' = kind s
    ∧ (isContinuous extended = true →
       ∃ d', domainOf extended = Some d'
             ∧ min_ = Some (head d') ∧ max_ = Some (last d'))
    ∧ (isContinuous extended = false → min_ = min merged ∧ max_ = max merged).
Proof.
  intros Hbuilt Hrun1 Hstored Htyped Hf0 Htransform Hd0 Hdomain.
  pose proof Hbuilt as (_ & _ & Hformatter).
  unfold update. rewrite Hrun1. cbn [mbind Outcome_bind]. clear Hrun1.
  unfold updateOptions, withOptions. cbn [options scale tickValues field].
  set (passed := spread (options sd) updateOptions_) in *.
  destruct (getDefaultOptions_returns
              {| scale := Some s; options := passed;
                 tickValues := tickValues sd; field := field sd |} s eq_refl)
    as (defaults & g & -> & Hg & Htype & Hnodomain & Hmin & Hmax & Htick).
  { intros Htime%belongTo_time. cbn [options] in Htime.
    rewrite (Htyped "time" Htime) by done. exact Hformatter. }
  cbn [mbind Outcome_bind]. unfold withOptions. cbn [options scale tickValues field].
  set (merged := spread defaults passed).
  assert (Hmerged : ∃ f, transform merged = present f).
  { subst merged passed. cbn [spread transform]. rewrite Hg.
    destruct (transform updateOptions_) as [[?|]|]; [by eexists|done|].
    destruct (transform (options sd)) as [[?|]|]; [by eexists|done|by eexists]. }
  assert (Hmergeddomain : domain merged ≠ undefined_).
  { subst merged passed. cbn [spread domain]. rewrite Hnodomain.
    destruct (domain updateOptions_) as [[?|]|]; [done|done|].
    by destruct (domain (options sd)) as [[?|]|]. }
  destruct Hmerged as [f Hf].
  destruct (updateScaleOptions_returns updateOptions_
              {| scale := Some s; options := merged;
                 tickValues := tickValues sd; field := field sd |} s f
              Hbuilt eq_refl Hstored Hf Hmergeddomain)
    as (d & s' & -> & Hd & Hkind & Hstored').
  cbn [mbind Outcome_bind]. unfold withScale, withOptions.
  cbn [options scale tickValues field].
  destruct (updateExtent_returns
              {| scale := Some s'; options := withDomain d merged;
                 tickValues := tickValues sd; field := field sd |} s'
              eq_refl Hstored' Hd)
    as (min_ & max_ & -> & Hcontinuous & Hother).
  cbn [mbind Outcome_bind]. unfold withOptions.
  cbn [options scale tickValues field].
  destruct (updateTicks_returns
              {| scale := Some s'; options := withMinMax min_ max_ (withDomain d merged);
                 tickValues := tickValues sd; field := field sd |} s' f
              eq_refl Hstored' Hf)
    as [ticks_ ->].
  exists defaults, d, min_, max_, ticks_, s'. cbv zeta.
  unfold withTickValues. cbn [options scale tickValues field].
  split; [reflexivity|]. split; [by exists f|].
  split; [exact Htype|]. split; [exact Hmin|]. split; [exact Hmax|].
  split; [exact Htick|].
  split; [exact Hd|]. split; [exact Hstored'|]. split; [exact Hkind|].
  split; [exact Hcontinuous|]. exact Hother.
Qed.

(** The state after an [update] of a constructed scale definition with
    accepted options. *)
Lemma update_shape `{Scales} (updateOptions_ : ScaleDefOptions) (sd : t) :
  wellBuilt → constructed sd → accepted updateOptions_ →
  ∃ defaults d min_ max_ ticks_ s',
    let merged := spread defaults (spread (options sd) updateOptions_) in
    let extended :=
      {| scale := Some s'; options := withDomain d merged;
         tickValues := tickValues sd; field := field sd |} in
    update updateOptions_ sd
    = Ok {| scale := Some s';
            options := withMinMax min_ max_ (withDomain d merged);
            tickValues := Some ticks_;
            field := field sd |}
    ∧ (∃ f, transform merged = present f)
    ∧ type defaults = absent ∧ min defaults = absent ∧ max defaults = absent
    ∧ plainNames merged
    ∧ d ≠ undefined_
    ∧ is_Some (read (domain (held s')))
    ∧ (∀ type_, read (type merged) = Some type_ → type_ ≠ "" → kind s' = type_)
    ∧ (read (type updateOptions_) = None ∨ read (type updateOptions_) = Some "" →
       ∃ s, scale sd = Some s ∧ kind s' = kind s)
    ∧ (isContinuous extended = true →
       ∃ d', domainOf extended = Some d'
             ∧ min_ = Some (head d') ∧ max_ = Some (last d'))
    ∧ (isContinuous extended = false → min_ = min merged ∧ max_ = max merged).
Proof.
  intros Hbuilt Hsd Haccepted.
  destruct (updateScaleType_returns updateOptions_ sd Hbuilt Hsd Haccepted)
    as (sd1 & s & Hrun1 & Hscale & Hstored & Htyped & Hkept).
  destruct (updateScaleType_frame updateOptions_ sd sd1 Hrun1)
    as (Hoptions & Hticks & Hfield).
  assert (Hsd1 : sd1 = {| scale := Some s; options := options sd;
                          tickValues := tickValues sd; field := field sd |}).
  { destruct sd1. cbn in *. by subst. }
  subst sd1. clear Hoptions Hticks Hfield Hscale.
  destruct Hsd as (s0 & f0 & Hs0 & _ & Hf0 & Hd0 & _ & Hplain0).
  destruct Haccepted as (Htransform & Hdomain & _ & Hplain).
  destruct (update_from updateOptions_ sd s Hbuilt Hrun1 Hstored Htyped)
    as (defaults & d & min_ & max_ & ticks_ & s' & Hupdate & Hf & Htype & Hmin & Hmax
        & Htick & Hd & Hstored' & Hkind & Hcontinuous & Hother);
    [by rewrite Hf0|done|done|done|].
  exists defaults, d, min_, max_, ticks_, s'. cbv zeta in *.
  split; [exact Hupdate|]. split; [exact Hf|].
  split; [exact Htype|]. split; [exact Hmin|]. split; [exact Hmax|].
  split.
  { destruct Hplain0 as [Htype0 Htick0], Hplain as [Htype1 Htick1].
    unfold plainNames. cbn [spread type tickMethod].
    rewrite Htype, Htick, !over_absent. split.
    - intros type_. destruct (type updateOptions_) as [[?|]|]; cbn; auto; discriminate.
    - intros name. destruct (tickMethod updateOptions_) as [[?|]|]; cbn; auto;
        discriminate. }
  split; [exact Hd|]. split; [exact Hstored'|]. split.
  { intros type_ Hread Hne. rewrite Hkind. apply Htyped; [|done].
    cbn [spread type] in Hread. rewrite Htype in Hread.
    by rewrite over_absent in Hread. }
  split.
  { intros Hnotype. exists s0. split; [done|]. rewrite Hkind.
    specialize (Hkept Hnotype). cbn [scale] in Hkept. rewrite Hs0 in Hkept.
    by injection Hkept as <-. }
  split; [exact Hcontinuous|]. exact Hother.
Qed.

Lemma generateDomain_frame `{Scales} (updateOptions_ : ScaleDefOptions) (sd : t)
    (array : list Input) (options_ : ScaleDefOptions) :
  generateDomain updateOptions_ sd = Ok (array, options_) →
  transform options_ = transform (options sd).
Proof.
  unfold generateDomain, getOptions, theScale, call. intros Hrun.
  repeat (case_match; cbn [mbind Outcome_bind] in * ); simplify_eq; done.
Qed.

Lemma updateScaleOptions_frame `{Scales} (updateOptions_ : ScaleDefOptions) (sd sd' : t) :
  updateScaleOptions updateOptions_ sd = Ok sd' →
  transform (options sd') = transform (options sd).
Proof.
  unfold updateScaleOptions. intros Hrun.
  destruct (generateDomain updateOptions_ sd) as [[array options_]|] eqn:Hgenerated;
    cbn [mbind Outcome_bind] in Hrun; [|done].
  apply generateDomain_frame in Hgenerated.
  unfold theScale in Hrun. cbn [withOptions scale fst snd] in Hrun.
  destruct (scale sd); cbn [mbind Outcome_bind] in Hrun; [|done].
  by injection Hrun as <-.
Qed.

Lemma updateExtent_frame `{Scales} (sd sd' : t) :
  updateExtent sd = Ok sd' →
  transform (options sd') = transform (options sd).
Proof.
  unfold updateExtent, getOptions, theScale. intros Hrun.
  repeat (case_match; cbn [mbind Outcome_bind] in * ); simplify_eq; done.
Qed.

Lemma updateTicks_throws `{Scales} (sd : t) :
  transform (options sd) = undefined_ → ∃ message, updateTicks sd = Throw message.
Proof.
  intros Hundefined. unfold updateTicks, calculateTickValues, getOptions, theScale.
  destruct (scale sd) as [s|]; cbn [mbind Outcome_bind]; [|by eexists].
  cbn [spread transform]. rewrite Hundefined. cbn [over undefined_ read].
  destruct (hasGetTicks (kind s)); cbn [mbind Outcome_bind]; [by eexists|].
  destruct (read (domain (held s))); by eexists.
Qed.

Lemma updateScaleOptions_throws `{Scales} (updateOptions_ : ScaleDefOptions) (sd : t) :
  read (domain updateOptions_) = None →
  domain (options sd) = undefined_ →
  ∃ message, updateScaleOptions updateOptions_ sd = Throw message.
Proof.
  intros Hpassed Hundefined. unfold updateScaleOptions, generateDomain, getOptions, theScale.
  destruct (scale sd) as [s|]; cbn [mbind Outcome_bind]; [|by eexists].
  cbn [spread domain]. rewrite Hpassed, Hundefined. cbn [over undefined_ read].
  cbn [mbind Outcome_bind]. by eexists.
Qed.

(** X19. Provided the scales [createScaleByType] returns have a domain,
    keep one across their [update], and the time scale has
    [getFormatter]: on a scale definition in the state its constructor
    leaves, [update] returns for all options that pass no [transform]
    or [domain] with the value [undefined], name no type for which no
    scale is built, and name no member that objects inherit as [type]
    or [tickMethod]; and it leaves the definition in that state again,
    with tick values and with its field, so that no sequence of such
    updates throws.  With a [transform] or a [domain] that is present
    and [undefined], [update] throws. *)
Theorem update_returns_unless_undefined `{Scales}
    (updateOptions_ : ScaleDefOptions) (sd : t) :
  wellBuilt →
  constructed sd →
  (accepted updateOptions_ →
   ∃ updated,
     update updateOptions_ sd = Ok updated
     ∧ constructed updated
     ∧ is_Some (tickValues updated)
     ∧ field updated = field sd)
  ∧ (transform updateOptions_ = undefined_ ∨ domain updateOptions_ = undefined_ →
     ∃ message, update updateOptions_ sd = Throw message).
Proof.
  intros Hbuilt Hsd. split.
  - intros Haccepted.
    destruct (update_shape updateOptions_ sd Hbuilt Hsd Haccepted)
      as (defaults & d & min_ & max_ & ticks_ & s' & Hupdate & [f Hf] & _ & _ & _
          & Hplain & Hd & Hstored & Htyped & _).
    cbv zeta in *. eexists. split; [exact Hupdate|].
    split; [|split; [by eexists|done]].
    exists s', f. cbn [scale options]. split; [done|]. split; [done|].
    split; [exact Hf|]. split; [exact Hd|]. split; [exact Htyped|exact Hplain].
  - intros Hundefined. unfold update.
    destruct (updateScaleType updateOptions_ sd) as [sd1|] eqn:Hrun1;
      cbn [mbind Outcome_bind]; [|by eexists].
    destruct (updateScaleType_frame _ _ _ Hrun1) as (Hoptions & _).
    unfold updateOptions. rewrite Hoptions.
    destruct (getDefaultOptions _) as [defaults|]; cbn [mbind Outcome_bind];
      [|by eexists].
    set (sd2 := withOptions _ _).
    destruct Hundefined as [Hundefined|Hundefined].
    + assert (Htransform : transform (options sd2) = undefined_).
      { subst sd2. cbn. by rewrite Hundefined. }
      clearbody sd2.
      destruct (updateScaleOptions updateOptions_ sd2) as [sd3|] eqn:Hrun3;
        cbn [mbind Outcome_bind]; [|by eexists].
      apply updateScaleOptions_frame in Hrun3.
      destruct (updateExtent sd3) as [sd4|] eqn:Hrun4;
        cbn [mbind Outcome_bind]; [|by eexists].
      apply updateExtent_frame in Hrun4.
      apply updateTicks_throws. congruence.
    + destruct (updateScaleOptions_throws updateOptions_ sd2) as [message ->].
      * by rewrite Hundefined.
      * subst sd2. cbn. by rewrite Hundefined.
      * by eexists.
Qed.

Lemma linearScales_wellBuilt : wellBuilt (H := linearScales).
Proof.
  split; [intros type_ _; by eexists|]. split; [|reflexivity].
  intros type_ held_ passed [d Hd]. cbn.
  destruct (domain passed) as [[?|]|]; [by eexists|done|done].
Qed.

Lemma linearSample_constructed : constructed (H := linearScales) linearSample.
Proof.
  eexists _, _. split; [reflexivity|]. split; [by eexists|]. split; [reflexivity|].
  split; [done|]. split; [by intros type_ [= <-]|].
  split; [by intros type_ [= <-]|intros name [=]].
Qed.

Lemma update_returns_unless_undefined_witness :
  (∃ updated,
     update (H := linearScales) minZero linearSample = Ok updated
     ∧ constructed (H := linearScales) updated
     ∧ is_Some (tickValues updated)
     ∧ field updated = field linearSample)
  ∧ ∃ message, update (H := linearScales) transformUndefined linearSample = Throw message.
Proof.
  destruct (update_returns_unless_undefined (H := linearScales) minZero linearSample
              linearScales_wellBuilt linearSample_constructed) as [Hreturns _].
  destruct (update_returns_unless_undefined (H := linearScales) transformUndefined
              linearSample linearScales_wellBuilt linearSample_constructed)
    as [_ Hthrows].
  split.
  - apply Hreturns. split; [done|]. split; [done|]. split; [intros type_ [=]|].
    split; [intros type_ [=]|intros name [=]].
  - apply Hthrows. by left.
Defined.

(** X20. Provided the scales [createScaleByType] returns have a domain,
    keep one across their [update], and the time scale has
    [getFormatter]: the constructor passes
    [{ type: 'identity', ...options }] to [update].  When these options
    are accepted ones, as in X19, and their type is not the empty
    string, the constructor returns, with a scale of that type (an
    identity scale when the options have no [type] property), in the
    state updates preserve, with tick values and the field passed.
    When the type is the empty string, or present and [undefined], no
    scale is created and the constructor throws. *)
Theorem new_returns_unless_untyped `{Scales}
    (options_ : ScaleDefOptions) (field_ : option string) :
  wellBuilt →
  (accepted (initial options_) →
   ∀ type_, read (type (initial options_)) = Some type_ → type_ ≠ "" →
     ∃ sd s, new options_ field_ = Ok sd
             ∧ scale sd = Some s ∧ kind s = type_
             ∧ constructed sd
             ∧ is_Some (tickValues sd)
             ∧ field sd = field_)
  ∧ (type options_ = absent → read (type (initial options_)) = Some "identity")
  ∧ (read (type (initial options_)) = None
     ∨ read (type (initial options_)) = Some "" →
     ∃ message, new options_ field_ = Throw message).
Proof.
  intros Hbuilt. split; [|split].
  - intros (Htransform & Hdomain & Hcreates & Hplain) type_ Htype Hnonempty.
    unfold new. set (first := initial options_) in *. clearbody first.
    assert (Hpassed : ∀ named,
      read (type (spread (options blank) first)) = Some named → named = type_).
    { intros named. cbn. rewrite over_absent, Htype. congruence. }
    destruct (update_from first blank {| kind := type_; held := createdOptions type_ |}
                Hbuilt)
      as (defaults & d & min_ & max_ & ticks_ & s' & Hupdate & [f Hf] & Hdefault & _ & _
          & Htick & Hd & Hstored & Hkind & _).
    { unfold updateScaleType, createScaleByType. rewrite Htype.
      rewrite (Hcreates type_) by done.
      apply String.eqb_neq in Hnonempty. rewrite Hnonempty.
      by rewrite bool_decide_eq_false_2. }
    { by apply Hbuilt, Hcreates. }
    { intros named Hnamed _. by rewrite (Hpassed named Hnamed). }
    { done. } { done. } { done. } { done. }
    cbv zeta in Hupdate. rewrite Hupdate.
    cbn [mbind Outcome_bind scale options tickValues].
    eexists _, s'. split; [reflexivity|]. cbn [scale options tickValues field].
    split; [done|]. split; [exact Hkind|]. split; [|split; [by eexists|done]].
    exists s', f. split; [done|]. split; [done|]. split; [exact Hf|].
    split; [exact Hd|]. split.
    + intros named Hnamed _. rewrite Hkind. cbn [kind]. symmetry. apply Hpassed.
      cbn [options withMinMax withDomain spread type] in Hnamed |- *.
      rewrite Hdefault in Hnamed. by rewrite over_absent in Hnamed.
    + destruct Hplain as [Hplaintype Hplaintick]. unfold plainNames.
      cbn [options withMinMax withDomain spread type tickMethod blank noOptions].
      rewrite Hdefault, Htick, !over_absent. by split.
  - intros Habsent. unfold initial. cbn. by rewrite Habsent.
  - intros Htype. destruct options_ as [type_ ? ? ? ? ? ? ? ? ? ?].
    unfold initial in Htype. cbn [type spread] in Htype.
    destruct type_ as [[type_|]|]; cbn in Htype.
    + destruct Htype as [[=]|[= ->]]. by eexists.
    + by eexists.
    + by destruct Htype.
Qed.

Lemma new_returns_unless_untyped_witness :
  ∃ sd s, new (H := linearScales) minZero (Some "value") = Ok sd
          ∧ scale sd = Some s ∧ kind s = "identity"
          ∧ constructed (H := linearScales) sd
          ∧ is_Some (tickValues sd)
          ∧ field sd = Some "value".
Proof.
  destruct (new_returns_unless_untyped (H := linearScales) minZero (Some "value")
              linearScales_wellBuilt) as [Hreturns _].
  apply Hreturns; [|reflexivity|discriminate].
  split; [done|]. split; [done|]. split; [by intros type_ [= <-]|].
  split; [by intros type_ [= <-]|intros name [=]].
Defined.

(** X21. What an update does not pass, it does not replace: when the
    options passed have no [transform] property, the transform in place
    stays, and so do a formatter and a comparator in place when the
    options have no such property.  This holds also when the update
    names another [type] or another [mask]: the defaults of the new
    type only fill what is missing.  A [formatter] passed with the
    value [undefined] does replace the one in place, and no default
    takes its place.  (For a constructed scale definition and accepted
    options, as in X19.) *)
Theorem update_keeps_functions_in_place `{Scales}
    (updateOptions_ : ScaleDefOptions) (sd : t) :
  wellBuilt →
  constructed sd →
  accepted updateOptions_ →
  ∃ updated,
    update updateOptions_ sd = Ok updated
    ∧ (transform updateOptions_ = absent →
       transform (options updated) = transform (options sd))
    ∧ (formatter updateOptions_ = absent → formatter (options sd) ≠ absent →
       formatter (options updated) = formatter (options sd))
    ∧ (compare updateOptions_ = absent → compare (options sd) ≠ absent →
       compare (options updated) = compare (options sd))
    ∧ (formatter updateOptions_ = undefined_ →
       formatter (options updated) = undefined_).
Proof.
  intros Hbuilt Hsd Haccepted.
  destruct (update_shape updateOptions_ sd Hbuilt Hsd Haccepted)
    as (defaults & d & min_ & max_ & ticks_ & s' & Hupdate & _).
  destruct Hsd as (s0 & f0 & _ & _ & Hf0 & _).
  cbv zeta in Hupdate. eexists. split; [exact Hupdate|]. cbn.
  split; [intros ->; by rewrite Hf0|].
  split; [intros -> Hpresent; by destruct (formatter (options sd))|].
  split; [intros -> Hpresent; by destruct (compare (options sd))|].
  by intros ->.
Qed.

Lemma update_keeps_functions_in_place_witness :
  ∃ updated,
    update (H := linearScales) toTime linearSample = Ok updated
    ∧ (transform toTime = absent →
       transform (options updated) = transform (options linearSample))
    ∧ (formatter toTime = absent → formatter (options linearSample) ≠ absent →
       formatter (options updated) = formatter (options linearSample))
    ∧ (compare toTime = absent → compare (options linearSample) ≠ absent →
       compare (options updated) = compare (options linearSample))
    ∧ (formatter toTime = undefined_ → formatter (options updated) = undefined_).
Proof.
  apply (update_keeps_functions_in_place (H := linearScales) toTime linearSample
           linearScales_wellBuilt linearSample_constructed).
  split; [done|]. split; [done|]. split; [by intros type_ [= <-]|].
  split; [by intros type_ [= <-]|intros name [=]].
Defined.

(** X22. An update that passes a non-empty [type] for which a scale is
    built leaves a scale of that type and that type in the options.  An
    update that passes the empty string or [undefined] as [type] keeps
    the scale it found, and leaves the options with that [type], so
    that the scale definition is then neither continuous, nor a
    category, nor an identity.  An update that passes no [type] keeps
    the scale and the type.  (For a constructed scale definition and
    accepted options, as in X19.) *)
Theorem update_and_the_type `{Scales} (updateOptions_ : ScaleDefOptions) (sd : t) :
  wellBuilt →
  constructed sd →
  accepted updateOptions_ →
  ∃ updated s s',
    update updateOptions_ sd = Ok updated
    ∧ scale sd = Some s ∧ scale updated = Some s'
    ∧ type (options updated) = over (type updateOptions_) (type (options sd))
    ∧ (∀ type_, type updateOptions_ = present type_ → type_ ≠ "" → kind s' = type_)
    ∧ (type updateOptions_ = present "" ∨ type updateOptions_ = undefined_ →
       kind s' = kind s
       ∧ isContinuous updated = false
       ∧ isCategory updated = false
       ∧ isIdentity updated = false)
    ∧ (type updateOptions_ = absent → kind s' = kind s).
Proof.
  intros Hbuilt Hsd Haccepted.
  destruct (update_shape updateOptions_ sd Hbuilt Hsd Haccepted)
    as (defaults & d & min_ & max_ & ticks_ & s' & Hupdate & _ & Hdefault & _ & _
        & _ & _ & _ & Htyped & Hkept & _).
  destruct Hsd as (s0 & f0 & Hs0 & _).
  cbv zeta in *. eexists _, s0, s'. split; [exact Hupdate|].
  split; [done|]. split; [done|]. cbn [options withMinMax withDomain type spread] in *.
  rewrite Hdefault, over_absent in *.
  split; [done|]. split.
  { intros type_ Hgiven Hne. apply Htyped; [|done]. by rewrite Hgiven. }
  assert (Hsame : read (type updateOptions_) = None ∨ read (type updateOptions_) = Some ""
                  → kind s' = kind s0).
  { intros Hnotype. destruct (Hkept Hnotype) as (s & Hs & ->). congruence. }
  split.
  - intros Hgiven. split; [apply Hsame; destruct Hgiven as [->| ->]; auto|].
    unfold isContinuous, isCategory, isIdentity, belongTo.
    cbn [options withMinMax withDomain type spread]. rewrite Hdefault, over_absent.
    by destruct Hgiven as [->| ->].
  - intros Hgiven. apply Hsame. rewrite Hgiven. by left.
Qed.

Lemma update_and_the_type_witness :
  ∃ updated s s',
    update (H := linearScales) toTime linearSample = Ok updated
    ∧ scale linearSample = Some s ∧ scale updated = Some s'
    ∧ type (options updated) = present "time"
    ∧ kind s' = "time".
Proof.
  destruct (update_and_the_type (H := linearScales) toTime linearSample
              linearScales_wellBuilt linearSample_constructed)
    as (updated & s & s' & Hupdate & Hs & Hs' & Htype & Hkind & _).
  { split; [done|]. split; [done|]. split; [by intros type_ [= <-]|].
    split; [by intros type_ [= <-]|intros name [=]]. }
  exists updated, s, s'. split; [done|]. split; [done|]. split; [done|].
  split; [exact Htype|]. by apply Hkind.
Defined.

(** X23. After an update of a continuous scale definition, the options
    [min] and [max] are the first and the last entry of the domain the
    definition answers with, whatever [min] and [max] the caller
    passed; on a scale definition that is not continuous they are the
    properties passed, or else the ones in place.  (For a constructed
    scale definition and accepted options, as in X19.) *)
Theorem update_extent_follows_domain `{Scales}
    (updateOptions_ : ScaleDefOptions) (sd : t) :
  wellBuilt →
  constructed sd →
  accepted updateOptions_ →
  ∃ updated,
    update updateOptions_ sd = Ok updated
    ∧ (isContinuous updated = true →
       ∃ d, domainOf updated = Some d
            ∧ min (options updated) = Some (head d)
            ∧ max (options updated) = Some (last d))
    ∧ (isContinuous updated = false →
       min (options updated) = over (min updateOptions_) (min (options sd))
       ∧ max (options updated) = over (max updateOptions_) (max (options sd))).
Proof.
  intros Hbuilt Hsd Haccepted.
  destruct (update_shape updateOptions_ sd Hbuilt Hsd Haccepted)
    as (defaults & d & min_ & max_ & ticks_ & s' & Hupdate & _ & _ & Hmin & Hmax
        & _ & _ & _ & _ & _ & Hcontinuous & Hother).
  cbv zeta in Hupdate, Hcontinuous, Hother.
  eexists. split; [exact Hupdate|]. split.
  - intros Hc. exact (Hcontinuous Hc).
  - intros Hc. destruct (Hother Hc) as [-> ->]. cbn.
    by rewrite Hmin, Hmax, !over_absent.
Qed.

Lemma update_extent_follows_domain_witness :
  ∃ updated,
    update (H := linearScales) minZero linearSample = Ok updated
    ∧ (isContinuous updated = true →
       ∃ d, domainOf updated = Some d
            ∧ min (options updated) = Some (head d)
            ∧ max (options updated) = Some (last d))
    ∧ (isContinuous updated = false →
       min (options updated) = over (min minZero) (min (options linearSample))
       ∧ max (options updated) = over (max minZero) (max (options linearSample))).
Proof.
  apply (update_extent_follows_domain (H := linearScales) minZero linearSample
           linearScales_wellBuilt linearSample_constructed).
  split; [done|]. split; [done|]. split; [intros type_ [=]|].
  split; [intros type_ [=]|intros name [=]].
Defined.

Lemma ticksFrom_returns `{Scales} (sd : t) (s : Scale) (values : list Input)
    (index : nat) :
  scale sd = Some s →
  ∃ ticks_,
    ticksFrom sd index values = Ok ticks_
    ∧ tickValue <$> ticks_ = values
    ∧ text <$> ticks_ = imap (fun i value_ => getText sd value_ (index + i)) values.
Proof.
  intros Hscale. revert index.
  induction values as [|value_ values IH]; intros index; [by eexists|].
  cbn [ticksFrom]. unfold map at 1, theScale. rewrite Hscale.
  cbn [mbind Outcome_bind].
  destruct (IH (S index)) as (others & -> & Hvalues & Htexts).
  cbn [mbind Outcome_bind]. eexists. split; [reflexivity|].
  cbn [fmap list_fmap tickValue text imap]. rewrite Nat.add_0_r.
  split; [by f_equal|]. f_equal. rewrite Htexts.
  apply imap_ext. intros i x _. cbn. f_equal. lia.
Qed.

(** X27. After an update, [getTicks()] returns: one tick for each tick
    value, in order, each carrying its tick value and the text
    [getText] gives for it at its index.  (For a constructed scale
    definition and accepted options, as in X19.) *)
Theorem getTicks_after_update `{Scales} (updateOptions_ : ScaleDefOptions) (sd : t) :
  wellBuilt →
  constructed sd →
  accepted updateOptions_ →
  ∃ updated values ticks_,
    update updateOptions_ sd = Ok updated
    ∧ tickValues updated = Some values
    ∧ getTicks updated = Ok ticks_
    ∧ tickValue <$> ticks_ = values
    ∧ text <$> ticks_ = imap (fun i value_ => getText updated value_ i) values.
Proof.
  intros Hbuilt Hsd Haccepted.
  destruct (update_shape updateOptions_ sd Hbuilt Hsd Haccepted)
    as (defaults & d & min_ & max_ & values & s' & Hupdate & _).
  cbv zeta in Hupdate.
  match type of Hupdate with
  | _ = Ok ?result => set (updated := result) in *
  end.
  destruct (ticksFrom_returns updated s' values 0 eq_refl)
    as (ticks_ & Hticks & Hvalues & Htexts).
  exists updated, values, ticks_. split; [exact Hupdate|]. split; [reflexivity|].
  unfold getTicks. cbn [tickValues updated].
  split; [exact Hticks|]. split; [exact Hvalues|exact Htexts].
Qed.

Lemma getTicks_after_update_witness :
  ∃ updated values ticks_,
    update (H := linearScales) minZero linearSample = Ok updated
    ∧ tickValues updated = Some values
    ∧ getTicks (H := linearScales) updated = Ok ticks_
    ∧ tickValue <$> ticks_ = values
    ∧ text <$> ticks_
      = imap (fun i value_ => getText (H := linearScales) updated value_ i) values.
Proof.
  apply (getTicks_after_update (H := linearScales) minZero linearSample
           linearScales_wellBuilt linearSample_constructed).
  split; [done|]. split; [done|]. split; [intros type_ [=]|].
  split; [intros type_ [=]|intros name [=]].
Defined.

End ScaleDefPropsFacts.
